(** * cont-portal: the internal directory (parse, cache and search)

    A shallow embedding of the directory engine of the portal:
    the server module (text normalizer with its memo cache, header
    detection, row extraction, the directory cache and its HTTP endpoint)
    and the in-page search hook ([filteredResults], [computeSearchScore]).

    JavaScript strings are sequences of UTF-16 code units; every regular
    expression of the source works on single code units (none carries the
    [u] flag), so a string is a [list N] here. *)

From Stdlib Require Import String Ascii NArith ZArith Bool Lia List.
From Stdlib Require DecimalN Permutation Sorted.
Import ListNotations.

Set Implicit Arguments.

(** ** JavaScript strings *)

Module JS.

Definition jsstring := list N.

(** A source literal (all literals of the program are ASCII). *)
Definition lit (s : string) : jsstring :=
  map N_of_ascii (list_ascii_of_string s).

Fixpoint str_eqb (a b : jsstring) : bool :=
  match a, b with
  | [], [] => true
  | x :: a', y :: b' => N.eqb x y && str_eqb a' b'
  | _, _ => false
  end.

(** [word.startsWith(term)] *)
Fixpoint startsWith (word term : jsstring) : bool :=
  match term, word with
  | [], _ => true
  | t :: term', w :: word' => N.eqb w t && startsWith word' term'
  | _ :: _, [] => false
  end.

(** [s.includes(t)] *)
Fixpoint includes (s t : jsstring) : bool :=
  startsWith s t ||
  match s with
  | [] => false
  | _ :: s' => includes s' t
  end.

Definition inRange (lo hi c : N) : bool := N.leb lo c && N.leb c hi.

(** The class [\s] of a regular expression, which is also the set that
    [String.prototype.trim] strips. *)
Definition isWhitespace (c : N) : bool :=
  inRange 9 13 c || N.eqb c 32 || N.eqb c 160 || N.eqb c 5760 ||
  inRange 8192 8202 c || N.eqb c 8232 || N.eqb c 8233 || N.eqb c 8239 ||
  N.eqb c 8287 || N.eqb c 12288 || N.eqb c 65279.

(** [\d] *)
Definition isDigit (c : N) : bool := inRange 48 57 c.

(** [\w] *)
Definition isWordChar (c : N) : bool :=
  inRange 65 90 c || inRange 97 122 c || isDigit c || N.eqb c 95.

Fixpoint dropWhile (p : N -> bool) (s : jsstring) : jsstring :=
  match s with
  | [] => []
  | c :: s' => if p c then dropWhile p s' else s
  end.

(** [s.trim()] *)
Definition trim (s : jsstring) : jsstring :=
  rev (dropWhile isWhitespace (rev (dropWhile isWhitespace s))).

(** [s.split(sep)] for a separator of one code unit; [cur] is the piece
    being read, in reverse. *)
Fixpoint splitOn (sep : N) (cur s : jsstring) : list jsstring :=
  match s with
  | [] => [rev cur]
  | c :: s' =>
      if N.eqb c sep then rev cur :: splitOn sep [] s'
      else splitOn sep (c :: cur) s'
  end.

Definition split (sep : N) (s : jsstring) : list jsstring := splitOn sep [] s.

Fixpoint uint_digits (d : Decimal.uint) : jsstring :=
  match d with
  | Decimal.Nil => []
  | Decimal.D0 d => 48%N :: uint_digits d
  | Decimal.D1 d => 49%N :: uint_digits d
  | Decimal.D2 d => 50%N :: uint_digits d
  | Decimal.D3 d => 51%N :: uint_digits d
  | Decimal.D4 d => 52%N :: uint_digits d
  | Decimal.D5 d => 53%N :: uint_digits d
  | Decimal.D6 d => 54%N :: uint_digits d
  | Decimal.D7 d => 55%N :: uint_digits d
  | Decimal.D8 d => 56%N :: uint_digits d
  | Decimal.D9 d => 57%N :: uint_digits d
  end.

(** [String(n)] for a natural number. *)
Definition decimal (n : N) : jsstring := uint_digits (N.to_uint n).

(** [String(z)] for an integer. *)
Definition decimalZ (z : Z) : jsstring :=
  match z with
  | Zneg p => 45%N :: decimal (Npos p)
  | _ => decimal (Z.to_N z)
  end.

(** The two string functions of the platform that depend on the Unicode
    character database.  The program is verified for any pair of them. *)
Class Platform := {
  toLowerCase : jsstring -> jsstring;
  normalizeNFD : jsstring -> jsstring
}.

Definition isAscii (s : jsstring) : bool := forallb (fun c => N.ltb c 128) s.

Definition asciiLower (c : N) : N :=
  if inRange 65 90 c then (c + 32)%N else c.

(** What is assumed of the platform where a property needs it: on ASCII
    text [toLowerCase] maps the capital letters to the small ones and
    canonical decomposition changes nothing. *)
Class PlatformLaws (P : Platform) : Prop := {
  toLowerCase_ascii :
    forall s, isAscii s = true -> toLowerCase s = map asciiLower s;
  normalizeNFD_ascii :
    forall s, isAscii s = true -> normalizeNFD s = s
}.

End JS.

(** The platform functions on Basic Latin and the Latin-1 Supplement, where
    they work code unit by code unit; other code units are left as they
    are.  It is the instance the concrete runs below are evaluated with. *)
Module Latin1.
Import JS.

Definition lowerUnit (c : N) : N :=
  if inRange 65 90 c then (c + 32)%N
  else if inRange 192 222 c && negb (N.eqb c 215) then (c + 32)%N
  else c.

(** Base letter and combining mark of a precomposed letter. *)
Definition decomposeLower (c : N) : option (N * N) :=
  if inRange 224 229 c then
    Some (97, nth (N.to_nat (c - 224)) [768; 769; 770; 771; 776; 778] 0)%N
  else if N.eqb c 231 then Some (99, 807)%N
  else if inRange 232 235 c then
    Some (101, nth (N.to_nat (c - 232)) [768; 769; 770; 776] 0)%N
  else if inRange 236 239 c then
    Some (105, nth (N.to_nat (c - 236)) [768; 769; 770; 776] 0)%N
  else if N.eqb c 241 then Some (110, 771)%N
  else if inRange 242 246 c then
    Some (111, nth (N.to_nat (c - 242)) [768; 769; 770; 771; 776] 0)%N
  else if inRange 249 252 c then
    Some (117, nth (N.to_nat (c - 249)) [768; 769; 770; 776] 0)%N
  else if N.eqb c 253 then Some (121, 769)%N
  else if N.eqb c 255 then Some (121, 776)%N
  else None.

Definition decomposeUnit (c : N) : jsstring :=
  if inRange 192 222 c && negb (N.eqb c 215) then
    match decomposeLower (c + 32) with
    | Some (b, m) => [(b - 32)%N; m]
    | None => [c]
    end
  else
    match decomposeLower c with
    | Some (b, m) => [b; m]
    | None => [c]
    end.

#[export] Instance platform : Platform := {
  toLowerCase := map lowerUnit;
  normalizeNFD := flat_map decomposeUnit
}.

End Latin1.

(** ** The server module *)

Module Server.
Import JS.

Definition DIRECTORY_MAX_ROWS : nat := 800.
Definition DIRECTORY_MAX_COLUMNS : nat := 8.
Definition HEADER_SCAN_ROWS : nat := 20.

Module HEADER_TOKENS.
Definition extension : list jsstring :=
  map lit ["interno"; "internos"; "extension"; "ext"; "anexo"; "telefono";
           "telefonos"; "int"]%string.
Definition department : list jsstring :=
  map lit ["sector"; "departamento"; "area"; "unidad"; "seccion"]%string.
Definition title : list jsstring :=
  map lit ["titulo"; "cargo"; "puesto"; "funcion"]%string.
Definition name : list jsstring :=
  map lit ["apellido y nombre"; "apellidos y nombres"; "apellido"; "nombre";
           "responsable"; "contacto"]%string.
End HEADER_TOKENS.

Module DEFAULT_COLUMN_INDICES.
Definition extension : Z := 1.
Definition department : Z := 2.
Definition title : Z := 3.
Definition name : Z := 4.
End DEFAULT_COLUMN_INDICES.

(** A cell of a decoded sheet.  [CNum n] is an integer below 10^21 in
    absolute value, which [String] prints as its decimal numeral (minus
    zero is [CNum 0]: it is [=== 0] and prints as 0).  [COther printed] is
    any other value a decoder gives, a number with a fraction or from 10^21
    on, an infinity, or a [Date]: such a value is truthy and is not
    [=== 0], and [printed] is what [String] gives for it. *)
Inductive Cell : Type :=
| CUndefined
| CNull
| CStr (s : jsstring)
| CNum (n : Z)
| CBool (b : bool)
| CNaN
| COther (printed : jsstring).

Definition Row := list Cell.

Definition isEmpty (s : jsstring) : bool :=
  match s with [] => true | _ :: _ => false end.

(** *** Pure helpers *)

Definition clampRows (rows : list Row) : list Row :=
  map (firstn DIRECTORY_MAX_COLUMNS) (firstn DIRECTORY_MAX_ROWS rows).

Definition normalizeCellValue (value : Cell) : jsstring :=
  match value with
  | CUndefined | CNull => []
  | CStr s => trim s
  | CNum n => trim (decimalZ n)
  | CBool true => trim (lit "true")
  | CBool false => trim (lit "false")
  | CNaN => trim (lit "NaN")
  | COther printed => trim printed
  end.

(** [value.replace(/\.0+$/, "")]: a point followed by zeros up to the end
    of the string is removed. *)
Definition normalizeExtensionValue (value : jsstring) : jsstring :=
  let r := rev value in
  match r with
  | c :: _ =>
      if N.eqb c 48 then
        match dropWhile (N.eqb 48) r with
        | d :: before => if N.eqb d 46 then rev before else value
        | [] => value
        end
      else value
  | [] => value
  end.

(** [!cell || cell === "" || cell === 0] *)
Definition isBlankCell (cell : Cell) : bool :=
  match cell with
  | CUndefined | CNull => true
  | CStr s => isEmpty s
  | CNum n => Z.eqb n 0
  | CBool b => negb b
  | CNaN => true
  | COther _ => false
  end.

Definition isNumericExtension (value : jsstring) : bool :=
  let cleaned :=
    filter (fun c => negb (N.eqb c 46))
           (filter (fun c => negb (isWhitespace c)) value) in
  negb (isEmpty cleaned) && forallb isDigit cleaned.

Fixpoint takeWhile (p : N -> bool) (s : jsstring) : jsstring :=
  match s with
  | [] => []
  | c :: s' => if p c then c :: takeWhile p s' else []
  end.

(** The separator of [splitNames],
    [/\s*\/\s*|\s*;\s*|\s*\|\s*|\r?\n|\s+-\s+/], matched at the head of
    [s]: the length of the match, alternatives tried from left to right. *)
Definition matchSeparator (s : jsstring) : option nat :=
  let n := length (takeWhile isWhitespace s) in
  let lineBreak :=
    match s with
    | c :: s' =>
        if N.eqb c 10 then Some 1%nat
        else if N.eqb c 13 then
          match s' with
          | d :: _ => if N.eqb d 10 then Some 2%nat else None
          | [] => None
          end
        else None
    | [] => None
    end in
  match dropWhile isWhitespace s with
  | c :: after =>
      let m := length (takeWhile isWhitespace after) in
      if N.eqb c 47 || N.eqb c 59 || N.eqb c 124 then Some (n + 1 + m)%nat
      else
        match lineBreak with
        | Some k => Some k
        | None =>
            if N.eqb c 45 && Nat.ltb 0 n && Nat.ltb 0 m
            then Some (n + 1 + m)%nat else None
        end
  | [] => lineBreak
  end.

(** [value.split(separator)]: [skip] code units of a separator are still
    to be passed over, [cur] is the piece being read, in reverse. *)
Fixpoint splitSeparators (skip : nat) (cur s : jsstring) : list jsstring :=
  match s with
  | [] => [rev cur]
  | c :: s' =>
      match skip with
      | S k => splitSeparators k cur s'
      | O =>
          match matchSeparator s with
          | Some (S k) => rev cur :: splitSeparators k [] s'
          | _ => splitSeparators 0 (c :: cur) s'
          end
      end
  end.

Definition splitNames (value : jsstring) : list jsstring :=
  filter (fun name => negb (isEmpty name))
         (map trim (splitSeparators 0 [] value)).

Definition matchesHeaderToken (normalized : jsstring) (tokens : list jsstring)
  : bool :=
  existsb (fun token => str_eqb normalized token || includes normalized token)
          tokens.

Fixpoint uniqueIndicesFrom (seen : list Z) (indices : list Z) : list Z :=
  match indices with
  | [] => []
  | idx :: rest =>
      if Z.ltb idx 0 then uniqueIndicesFrom seen rest
      else if existsb (Z.eqb idx) seen then uniqueIndicesFrom seen rest
      else idx :: uniqueIndicesFrom (idx :: seen) rest
  end.

Definition uniqueIndices (indices : list Z) : list Z :=
  uniqueIndicesFrom [] indices.

Fixpoint pickCellText (row : Row) (indices : list Z) : jsstring :=
  match indices with
  | [] => []
  | idx :: rest =>
      if Z.ltb idx 0 || Z.leb (Z.of_nat (length row)) idx
      then pickCellText row rest
      else
        let value := normalizeCellValue (nth (Z.to_nat idx) row CUndefined) in
        if isEmpty value then pickCellText row rest else value
  end.

Record Personnel : Type := {
  id : jsstring;
  name : jsstring;
  department : jsstring;
  extension : jsstring;
  searchableName : jsstring;
  searchableExtension : jsstring
}.

Record ColumnMap : Type := {
  extensionIndex : Z;
  departmentIndex : Z;
  titleIndex : Z;
  nameIndex : Z
}.

Record HeaderMapping : Type := {
  headerRowIndex : Z;
  columnMap : ColumnMap
}.

(** *** The text normalizer and its memo cache *)

(** [textNormalizationCache], a [Map] from raw text to normalized text:
    the entries in insertion order, oldest first. *)
Definition Cache := list (jsstring * jsstring).

Definition cache_get (cache : Cache) (key : jsstring) : option jsstring :=
  match find (fun e => str_eqb (fst e) key) cache with
  | Some e => Some (snd e)
  | None => None
  end.

Definition cache_has (cache : Cache) (key : jsstring) : bool :=
  match cache_get cache key with Some _ => true | None => false end.

Definition cache_delete (key : jsstring) (cache : Cache) : Cache :=
  filter (fun e => negb (str_eqb (fst e) key)) cache.

(** [Map.prototype.set]: a key already present keeps its place. *)
Definition cache_set (key value : jsstring) (cache : Cache) : Cache :=
  if cache_has cache key
  then map (fun e => if str_eqb (fst e) key then (key, value) else e) cache
  else cache ++ [(key, value)].

(** [cache.keys().next().value] *)
Definition cache_firstKey (cache : Cache) : option jsstring :=
  match cache with
  | [] => None
  | e :: _ => Some (fst e)
  end.

(** *** Computations that call the cached normalizer *)

(** A computation is a value, or a call of [cachedNormalizeText] and what
    is done with its result. *)
Inductive Prog (A : Type) : Type :=
| Ret (a : A)
| Cached (text : jsstring) (k : jsstring -> Prog A).

Arguments Ret {A} a.
Arguments Cached {A} text k.

Fixpoint bind {A B : Type} (p : Prog A) (f : A -> Prog B) : Prog B :=
  match p with
  | Ret a => f a
  | Cached text k => Cached text (fun v => bind (k v) f)
  end.

Definition cached (text : jsstring) : Prog jsstring := Cached text Ret.

Notation "x <- p ;; q" := (bind p (fun x => q))
  (at level 61, p at next level, right associativity).

Fixpoint mapM {A B : Type} (f : A -> Prog B) (l : list A) : Prog (list B) :=
  match l with
  | [] => Ret []
  | a :: l' => b <- f a ;; bs <- mapM f l' ;; Ret (b :: bs)
  end.

(** [Array.prototype.some], which stops at the first element that
    satisfies the test. *)
Fixpoint someM {A : Type} (f : A -> Prog bool) (l : list A) : Prog bool :=
  match l with
  | [] => Ret false
  | a :: l' => b <- f a ;; if b then Ret true else someM f l'
  end.

Section Normalizer.
Context `{Platform}.

(** [/[,\s-]+/g] replaced by one space: [inRun] says that the code unit
    before belongs to the run being replaced. *)
Fixpoint collapseSeparators (inRun : bool) (s : jsstring) : jsstring :=
  match s with
  | [] => []
  | c :: s' =>
      if N.eqb c 44 || isWhitespace c || N.eqb c 45
      then if inRun then collapseSeparators true s'
           else 32%N :: collapseSeparators true s'
      else c :: collapseSeparators false s'
  end.

Definition normalizeText (text : jsstring) : jsstring :=
  trim
    (filter (fun c => isWordChar c || isWhitespace c)
       (collapseSeparators false
          (filter (fun c => negb (inRange 768 879 c))
             (normalizeNFD (toLowerCase text))))).

Definition cachedNormalizeText (text : jsstring) (cache : Cache)
  : jsstring * Cache :=
  match cache_get cache text with
  | Some hit => (hit, cache)
  | None =>
      let normalized := normalizeText text in
      let cache1 :=
        if Nat.ltb 1000 (length cache) then
          match cache_firstKey cache with
          | Some firstKey => cache_delete firstKey cache
          | None => cache
          end
        else cache in
      (normalized, cache_set text normalized cache1)
  end.

Definition normalizeExtensionSearch (value : jsstring) : jsstring :=
  let digitsOnly := filter isDigit value in
  if isEmpty digitsOnly then toLowerCase value else digitsOnly.

(** The cache after a sequence of calls of the cached normalizer, from the
    empty cache the module starts with. *)
Definition cacheAfter (texts : list jsstring) : Cache :=
  fold_left (fun cache text => snd (cachedNormalizeText text cache)) texts [].

(** *** Running computations on the cache *)

(** Running a computation on the memo cache. *)
Fixpoint run {A : Type} (p : Prog A) (cache : Cache) : A * Cache :=
  match p with
  | Ret a => (a, cache)
  | Cached text k =>
      let (v, cache') := cachedNormalizeText text cache in run (k v) cache'
  end.

(** The result of a computation when every call answers with
    [normalizeText]. *)
Fixpoint value {A : Type} (p : Prog A) : A :=
  match p with
  | Ret a => a
  | Cached text k => value (k (normalizeText text))
  end.

End Normalizer.

Section Parser.
Context `{Platform}.

(** The module starts by normalizing the two stop tokens, through the
    cache. *)
Definition moduleInit : Prog (list jsstring) :=
  mapM cached (map lit ["telefonos internos reserva"; "reserva 6000"]%string).

Definition STOP_TOKEN_NORMALIZED : list jsstring := fst (run moduleInit []).

Definition initialCache : Cache := snd (run moduleInit []).

(** *** Header detection *)

(** The variables of one turn of the loop of [detectHeaderMapping]. *)
Record Scan : Type := {
  scanMap : ColumnMap;
  foundExtension : bool;
  foundDepartment : bool;
  foundTitle : bool;
  foundName : bool
}.

Definition initialScan : Scan :=
  {| scanMap := {| extensionIndex := -1; departmentIndex := -1;
                   titleIndex := -1; nameIndex := -1 |};
     foundExtension := false; foundDepartment := false;
     foundTitle := false; foundName := false |}.

Definition markExtension (idx : Z) (st : Scan) : Scan :=
  {| scanMap := {| extensionIndex := idx;
                   departmentIndex := departmentIndex (scanMap st);
                   titleIndex := titleIndex (scanMap st);
                   nameIndex := nameIndex (scanMap st) |};
     foundExtension := true; foundDepartment := foundDepartment st;
     foundTitle := foundTitle st; foundName := foundName st |}.

Definition markDepartment (idx : Z) (st : Scan) : Scan :=
  {| scanMap := {| extensionIndex := extensionIndex (scanMap st);
                   departmentIndex := idx;
                   titleIndex := titleIndex (scanMap st);
                   nameIndex := nameIndex (scanMap st) |};
     foundExtension := foundExtension st; foundDepartment := true;
     foundTitle := foundTitle st; foundName := foundName st |}.

Definition markTitle (idx : Z) (st : Scan) : Scan :=
  {| scanMap := {| extensionIndex := extensionIndex (scanMap st);
                   departmentIndex := departmentIndex (scanMap st);
                   titleIndex := idx;
                   nameIndex := nameIndex (scanMap st) |};
     foundExtension := foundExtension st;
     foundDepartment := foundDepartment st;
     foundTitle := true; foundName := foundName st |}.

Definition markName (idx : Z) (st : Scan) : Scan :=
  {| scanMap := {| extensionIndex := extensionIndex (scanMap st);
                   departmentIndex := departmentIndex (scanMap st);
                   titleIndex := titleIndex (scanMap st);
                   nameIndex := idx |};
     foundExtension := foundExtension st;
     foundDepartment := foundDepartment st;
     foundTitle := foundTitle st; foundName := true |}.

(** The callback of [row.forEach]. *)
Definition scanCell (st : Scan) (cell : Cell) (idx : Z) : Prog Scan :=
  normalized <- cached (normalizeCellValue cell) ;;
  if isEmpty normalized then Ret st
  else
    let st1 :=
      if negb (foundExtension st)
         && matchesHeaderToken normalized HEADER_TOKENS.extension
      then markExtension idx st else st in
    let st2 :=
      if negb (foundDepartment st1)
         && matchesHeaderToken normalized HEADER_TOKENS.department
      then markDepartment idx st1 else st1 in
    let st3 :=
      if negb (foundTitle st2)
         && matchesHeaderToken normalized HEADER_TOKENS.title
      then markTitle idx st2 else st2 in
    let st4 :=
      if negb (foundName st3)
         && matchesHeaderToken normalized HEADER_TOKENS.name
      then markName idx st3 else st3 in
    Ret st4.

Fixpoint scanRow (st : Scan) (row : Row) (idx : Z) : Prog Scan :=
  match row with
  | [] => Ret st
  | cell :: rest => st' <- scanCell st cell idx ;; scanRow st' rest (idx + 1)
  end.

(** The loop over the rows [i], [i + 1], ... of the scan window. *)
Fixpoint detectFrom (rows : list Row) (i : Z) : Prog (option HeaderMapping) :=
  match rows with
  | [] => Ret None
  | row :: rest =>
      st <- scanRow initialScan row 0 ;;
      if foundName st && (foundExtension st || foundDepartment st)
      then Ret (Some {| headerRowIndex := i; columnMap := scanMap st |})
      else detectFrom rest (i + 1)
  end.

Definition defaultMapping : HeaderMapping :=
  {| headerRowIndex := -1;
     columnMap := {| extensionIndex := DEFAULT_COLUMN_INDICES.extension;
                     departmentIndex := DEFAULT_COLUMN_INDICES.department;
                     titleIndex := DEFAULT_COLUMN_INDICES.title;
                     nameIndex := DEFAULT_COLUMN_INDICES.name |} |}.

Definition detectHeaderMapping (rawData : list Row) : Prog HeaderMapping :=
  let maxRows := Nat.min (length rawData) HEADER_SCAN_ROWS in
  found <- detectFrom (firstn maxRows rawData) 0 ;;
  match found with
  | Some mapping => Ret mapping
  | None => Ret defaultMapping
  end.

(** *** Row extraction *)

Definition shouldStopProcessing (values : list jsstring)
    (hasName hasNumericExtension : bool) : Prog bool :=
  if hasName || hasNumericExtension then Ret false
  else
    someM (fun value =>
             if isEmpty value then Ret false
             else
               normalized <- cached value ;;
               Ret (negb (isEmpty normalized)
                    && existsb (fun token => includes normalized token)
                               STOP_TOKEN_NORMALIZED))
          values.

(** [filteredNames.forEach]: one record per name, with the next [id]. *)
Fixpoint pushRecords (names : list jsstring)
    (department extensionValue : jsstring) (nextId : N)
    (personnel : list Personnel) : Prog (N * list Personnel) :=
  match names with
  | [] => Ret (nextId, personnel)
  | name :: rest =>
      searchable <- cached name ;;
      pushRecords rest department extensionValue (nextId + 1)
        (personnel ++
         [{| id := decimal nextId;
             name := name;
             department := department;
             extension := if isEmpty extensionValue then lit "N/A"
                          else extensionValue;
             searchableName := searchable;
             searchableExtension := normalizeExtensionSearch extensionValue
          |}])
  end.

Definition keepName (name : jsstring) : bool :=
  negb (isEmpty name)
  && negb (includes (toLowerCase name) (lit "acalandra@servicoop.com"))
  && negb (includes (toLowerCase name)
             (lit "sector comunicaciones al interno"))
  && Nat.ltb 0 (length (trim name)).

(** How one turn of the loop of [processExcelData] ends. *)
Inductive Turn : Type :=
| Continue
| Break
| Pushed (nextId : N) (personnel : list Personnel).

(** The body of the loop of [processExcelData], for the row [row]. *)
Definition processRow (columnMap : ColumnMap) (row : Row) (nextId : N)
    (personnel : list Personnel) : Prog Turn :=
  if forallb isBlankCell row then Ret Continue
  else
    let rowValues := map normalizeCellValue row in
    normalizedRow <- mapM cached rowValues ;;
    let headerHasName :=
      existsb (fun v => matchesHeaderToken v HEADER_TOKENS.name)
              normalizedRow in
    let headerHasExtension :=
      existsb (fun v => matchesHeaderToken v HEADER_TOKENS.extension)
              normalizedRow in
    let headerHasDepartment :=
      existsb (fun v => matchesHeaderToken v HEADER_TOKENS.department)
              normalizedRow in
    if headerHasName && (headerHasExtension || headerHasDepartment)
    then Ret Continue
    else
      let extensionIndices :=
        uniqueIndices [extensionIndex columnMap;
                       DEFAULT_COLUMN_INDICES.extension; 0%Z] in
      let nameIndices :=
        uniqueIndices [nameIndex columnMap; DEFAULT_COLUMN_INDICES.name;
                       DEFAULT_COLUMN_INDICES.title] in
      let departmentIndices :=
        uniqueIndices [departmentIndex columnMap;
                       DEFAULT_COLUMN_INDICES.department;
                       DEFAULT_COLUMN_INDICES.title] in
      let extensionRaw := pickCellText row extensionIndices in
      let nameRaw := pickCellText row nameIndices in
      let departmentRaw := pickCellText row departmentIndices in
      let extensionValue :=
        if isEmpty extensionRaw then []
        else normalizeExtensionValue extensionRaw in
      let hasName := Nat.ltb 0 (length nameRaw) in
      let hasExtension := Nat.ltb 0 (length extensionValue) in
      let hasNumericExtension :=
        if isEmpty extensionRaw then false
        else isNumericExtension extensionRaw in
      stop <- shouldStopProcessing rowValues hasName hasNumericExtension ;;
      if stop then Ret Break
      else if hasName || hasExtension then
        let names :=
          if hasName then splitNames nameRaw else [lit "Sin Nombre"] in
        let department :=
          if isEmpty departmentRaw then lit "Sector sin identificar"
          else departmentRaw in
        let filteredNames := filter keepName names in
        match filteredNames with
        | [] => Ret Continue
        | _ :: _ =>
            r <- pushRecords filteredNames department extensionValue
                   nextId personnel ;;
            Ret (Pushed (fst r) (snd r))
        end
      else Ret Continue.

(** The loop of [processExcelData] over the rows from [dataStartIndex]. *)
Fixpoint processRows (columnMap : ColumnMap) (rows : list Row) (nextId : N)
    (personnel : list Personnel) : Prog (list Personnel) :=
  match rows with
  | [] => Ret personnel
  | row :: rest =>
      turn <- processRow columnMap row nextId personnel ;;
      match turn with
      | Continue => processRows columnMap rest nextId personnel
      | Break => Ret personnel
      | Pushed nextId' personnel' =>
          processRows columnMap rest nextId' personnel'
      end
  end.

Definition dataStartIndex (mapping : HeaderMapping) : nat :=
  if Z.leb 0 (headerRowIndex mapping)
  then Z.to_nat (headerRowIndex mapping + 1) else 0%nat.

Definition processExcelData (rawData : list Row) : Prog (list Personnel) :=
  mapping <- detectHeaderMapping rawData ;;
  processRows (columnMap mapping) (skipn (dataStartIndex mapping) rawData)
              1%N [].

(** *** The directory cache *)

Record Error : Type := {
  code : option jsstring;
  message : jsstring
}.

Record Payload : Type := {
  personnel : list Personnel
}.

(** [internosCache]; [inflight] names the load whose promise it holds. *)
Record InternosCache : Type := {
  mtimeMs : Z;
  payload : option Payload;
  inflight : option nat;
  lastError : option Error;
  lastLoadedAt : Z
}.

Definition emptyInternosCache : InternosCache :=
  {| mtimeMs := 0; payload := None; inflight := None; lastError := None;
     lastLoadedAt := 0 |}.

(** The body of [loadPromise] once [readXlsxFile] has settled with
    [decoded]. *)
Definition loadBody (decoded : Error + list Row) : Prog (Error + Payload) :=
  match decoded with
  | inl error => Ret (inl error)
  | inr rows =>
      let rawData := clampRows rows in
      match rawData with
      | [] =>
          Ret (inl {| code := None;
                      message :=
                        lit "No se encontraron datos en el archivo Excel" |})
      | _ :: _ =>
          personnel <- processExcelData rawData ;;
          Ret (inr {| personnel := personnel |})
      end
  end.

(** What [refreshInternosCache] does when the stat has resolved. *)
Inductive Started : Type :=
| ServedFromCache (cachedPayload : Payload)
| JoinedInflight (load : nat)
| StartedLoad.

Definition afterStat (force : bool) (statMtimeMs : Z) (cache : InternosCache)
  : Started :=
  match payload cache with
  | Some cachedPayload =>
      if negb force && Z.eqb (mtimeMs cache) statMtimeMs
      then ServedFromCache cachedPayload
      else match inflight cache with
           | Some load => JoinedInflight load
           | None => StartedLoad
           end
  | None =>
      match inflight cache with
      | Some load => JoinedInflight load
      | None => StartedLoad
      end
  end.

Definition setInflight (load : option nat) (cache : InternosCache)
  : InternosCache :=
  {| mtimeMs := mtimeMs cache; payload := payload cache; inflight := load;
     lastError := lastError cache; lastLoadedAt := lastLoadedAt cache |}.

(** The [try]/[catch]/[finally] of [refreshInternosCache], run when
    [loadPromise] has settled with [outcome]: what the call returns or
    throws, and the cache it leaves. *)
Definition settle (statMtimeMs now : Z) (outcome : Error + Payload)
    (cache : InternosCache) : (Error + Payload) * InternosCache :=
  match outcome with
  | inr loaded =>
      (inr loaded,
       {| mtimeMs := statMtimeMs; payload := Some loaded; inflight := None;
          lastError := None; lastLoadedAt := now |})
  | inl error =>
      (inl error,
       {| mtimeMs := mtimeMs cache; payload := payload cache;
          inflight := None; lastError := Some error;
          lastLoadedAt := lastLoadedAt cache |})
  end.

Inductive Response : Type :=
| Json (body : Payload)
| Status (status : nat) (error : jsstring).

(** [app.get("/api/internos")] *)
Definition apiInternos (cache : InternosCache) : Response :=
  match payload cache with
  | Some cachedPayload => Json cachedPayload
  | None =>
      match inflight cache with
      | Some _ => Status 503 (lit "Directorio interno en carga")
      | None =>
          match lastError cache with
          | Some {| code := Some c; message := _ |} =>
              if str_eqb c (lit "ENOENT")
              then Status 404
                     (lit "No se encontro el archivo del directorio interno")
              else Status 503 (lit "Directorio interno no disponible")
          | _ => Status 503 (lit "Directorio interno no disponible")
          end
      end
  end.

(** *** Calls of [refreshInternosCache] interleaved on the event loop

    A call runs in segments, each one uninterrupted: up to
    [await fs.stat], from there up to [await loadPromise] (or to a
    [return]), and from there to its end; the body of [loadPromise] runs
    when [readXlsxFile] settles. *)

Inductive Invocation : Type :=
| AwaitStat (force : bool)
| AwaitLoad (statMtimeMs : Z) (load : nat)
| Joined (load : nat)
| Done (result : Error + Payload).

Inductive Load : Type :=
| Decoding
| Settled (outcome : Error + Payload).

Record World : Type := {
  textNormalizationCache : Cache;
  internosCache : InternosCache;
  invocations : list Invocation;
  loads : list Load
}.

Inductive Event : Type :=
| Invoke (force : bool)
| StatSettles (invocation : nat) (stat : Error + Z)
| DecodeSettles (load : nat) (decoded : Error + list Row)
| OwnerResumes (invocation : nat) (now : Z).

Fixpoint replace {A : Type} (n : nat) (a : A) (l : list A) : list A :=
  match l, n with
  | [], _ => []
  | _ :: l', O => a :: l'
  | b :: l', S n' => b :: replace n' a l'
  end.

Definition step (w : World) (e : Event) : option World :=
  match e with
  | Invoke force =>
      Some {| textNormalizationCache := textNormalizationCache w;
              internosCache := internosCache w;
              invocations := invocations w ++ [AwaitStat force];
              loads := loads w |}
  | StatSettles i stat =>
      match nth_error (invocations w) i with
      | Some (AwaitStat force) =>
          match stat with
          | inl error =>
              Some {| textNormalizationCache := textNormalizationCache w;
                      internosCache := internosCache w;
                      invocations :=
                        replace i (Done (inl error)) (invocations w);
                      loads := loads w |}
          | inr statMtimeMs =>
              match afterStat force statMtimeMs (internosCache w) with
              | ServedFromCache cachedPayload =>
                  Some {| textNormalizationCache := textNormalizationCache w;
                          internosCache := internosCache w;
                          invocations :=
                            replace i (Done (inr cachedPayload))
                                    (invocations w);
                          loads := loads w |}
              | JoinedInflight load =>
                  Some {| textNormalizationCache := textNormalizationCache w;
                          internosCache := internosCache w;
                          invocations := replace i (Joined load)
                                                 (invocations w);
                          loads := loads w |}
              | StartedLoad =>
                  let load := length (loads w) in
                  Some {| textNormalizationCache := textNormalizationCache w;
                          internosCache :=
                            setInflight (Some load) (internosCache w);
                          invocations :=
                            replace i (AwaitLoad statMtimeMs load)
                                    (invocations w);
                          loads := loads w ++ [Decoding] |}
              end
          end
      | _ => None
      end
  | DecodeSettles l decoded =>
      match nth_error (loads w) l with
      | Some Decoding =>
          let (outcome, cache') :=
            run (loadBody decoded) (textNormalizationCache w) in
          Some {| textNormalizationCache := cache';
                  internosCache := internosCache w;
                  invocations := invocations w;
                  loads := replace l (Settled outcome) (loads w) |}
      | _ => None
      end
  | OwnerResumes i now =>
      match nth_error (invocations w) i with
      | Some (AwaitLoad statMtimeMs l) =>
          match nth_error (loads w) l with
          | Some (Settled outcome) =>
              let (result, cache') :=
                settle statMtimeMs now outcome (internosCache w) in
              Some {| textNormalizationCache := textNormalizationCache w;
                      internosCache := cache';
                      invocations := replace i (Done result) (invocations w);
                      loads := loads w |}
          | _ => None
          end
      | _ => None
      end
  end.

Fixpoint exec (w : World) (events : list Event) : option World :=
  match events with
  | [] => Some w
  | e :: rest =>
      match step w e with
      | Some w' => exec w' rest
      | None => None
      end
  end.

Definition initialWorld : World :=
  {| textNormalizationCache := initialCache;
     internosCache := emptyInternosCache;
     invocations := [];
     loads := [] |}.


End Parser.

(** *** The debtors' endpoints *)

(** [String(process.env.EDIT_PASSWORD ?? "40800554")] *)
Definition editPasscode (EDIT_PASSWORD : option jsstring) : jsstring :=
  match EDIT_PASSWORD with
  | Some configured => configured
  | None => lit "40800554"
  end.

(** [requirePasscode], for the passcode [passcode] and the header
    [x-deudores-passcode] of the request, when it has one: what it
    returns, and the answer it sends when it refuses. *)
Definition requirePasscode (passcode : jsstring) (header : option jsstring)
  : bool * option Response :=
  let provided := trim (match header with Some h => h | None => [] end) in
  if isEmpty provided || negb (str_eqb provided passcode)
  then (false, Some (Status 401 (lit "Clave incorrecta")))
  else (true, None).

Module Deudores.

(** A row of [SELECT id, nombre FROM deudores]. *)
Record DeudorRow : Type := {
  id : Z;
  nombre : jsstring
}.

(** A row of [SELECT id, deudor_id as deudorId, fecha, descripcion, monto
    FROM deudas]; [deudaId] is its [id]. *)
Record DeudaRow : Type := {
  deudaId : Z;
  deudorId : Z;
  fecha : jsstring;
  descripcion : jsstring;
  monto : option jsstring
}.

(** A debt of the answer: [{ id, fecha, descripcion, debe }]. *)
Record Deuda : Type := {
  jsonId : Z;
  jsonFecha : jsstring;
  jsonDescripcion : jsstring;
  debe : jsstring
}.

(** A debtor of the answer: [{ id, nombre, deudas }]. *)
Record Deudor : Type := {
  deudorJsonId : Z;
  deudorNombre : jsstring;
  deudas : list Deuda
}.

Definition toDeuda (deuda : DeudaRow) : Deuda :=
  {| jsonId := deudaId deuda;
     jsonFecha := fecha deuda;
     jsonDescripcion := descripcion deuda;
     debe := match monto deuda with Some m => m | None => [] end |}.

(** [deudasPorDeudor], a [Map] from debtor id to the list of his debts. *)
Definition DeudasPorDeudor := list (Z * list Deuda).

Definition mapGet (m : DeudasPorDeudor) (key : Z) : option (list Deuda) :=
  match find (fun e => Z.eqb (fst e) key) m with
  | Some e => Some (snd e)
  | None => None
  end.

Definition mapSet (key : Z) (lista : list Deuda) (m : DeudasPorDeudor)
  : DeudasPorDeudor :=
  match mapGet m key with
  | Some _ => map (fun e => if Z.eqb (fst e) key then (key, lista) else e) m
  | None => m ++ [(key, lista)]
  end.

(** The callback of [deudas.forEach]. *)
Definition addDeuda (m : DeudasPorDeudor) (deuda : DeudaRow)
  : DeudasPorDeudor :=
  let lista := match mapGet m (deudorId deuda) with
               | Some l => l
               | None => []
               end in
  mapSet (deudorId deuda) (lista ++ [toDeuda deuda]) m.

(** The [payload] of [GET /api/deudores] for the rows of its two
    queries. *)
Definition payload (deudores : list DeudorRow) (deudas : list DeudaRow)
  : list Deudor :=
  let deudasPorDeudor := fold_left addDeuda deudas [] in
  map (fun deudor =>
         {| deudorJsonId := id deudor;
            deudorNombre := nombre deudor;
            deudas := match mapGet deudasPorDeudor (id deudor) with
                      | Some l => l
                      | None => []
                      end |})
      deudores.

End Deudores.

End Server.

(** ** The search hook *)

Module Search.
Import JS.

Definition Personnel := Server.Personnel.

(** A record of the result: the person with the two search fields. *)
Record Hit : Type := {
  person : Personnel;
  searchTerms : list jsstring;
  searchScore : Z
}.

Section Hook.

(** The normalizer the hook imports from the module [lib/normalize]. *)
Variable cachedNormalizeText : jsstring -> jsstring.

(** [s.indexOf(",") >= 0 ? s.slice(0, s.indexOf(",")) : s.split(" ")[0]] *)
Definition surnameBase (nombre : jsstring) : jsstring :=
  if existsb (N.eqb 44) nombre
  then Server.takeWhile (fun c => negb (N.eqb c 44)) nombre
  else hd [] (split 32 nombre).

Definition normalizeApellido (nombre : jsstring) : jsstring :=
  if Server.isEmpty nombre then []
  else
    let base := surnameBase nombre in
    cachedNormalizeText (if Server.isEmpty base then nombre else base).

Definition nonEmpty (s : jsstring) : bool := negb (Server.isEmpty s).

Definition computeSearchScore (p : Personnel) (normalizedQuery : jsstring)
    (terms : list jsstring) : Z :=
  let apellido := normalizeApellido (Server.name p) in
  if nonEmpty apellido && str_eqb normalizedQuery apellido then 3
  else
    let words := filter nonEmpty (split 32 (Server.searchableName p)) in
    let startsWithAll :=
      forallb (fun term =>
                 existsb (fun word => startsWith word term || str_eqb word term)
                         words) terms in
    if startsWithAll then 2
    else
      let includesAll :=
        forallb (fun term => includes (Server.searchableName p) term) terms in
      if includesAll then 1 else 0.

(** [addResults]: [seen] and [results] before and after. *)
Fixpoint addResults (seen : list jsstring) (results : list Personnel)
    (items : list Personnel) : list jsstring * list Personnel :=
  match items with
  | [] => (seen, results)
  | item :: rest =>
      if existsb (str_eqb (Server.id item)) seen
      then addResults seen results rest
      else addResults (Server.id item :: seen) (results ++ [item]) rest
  end.

Definition normalizedQueryOf (query : jsstring) : jsstring :=
  cachedNormalizeText (trim query).

Definition searchTermsOf (query : jsstring) : list jsstring :=
  filter (fun term => Nat.ltb 0 (length term))
         (split 32 (normalizedQueryOf query)).

Definition numericQueryOf (query : jsstring) : jsstring :=
  filter (fun c => negb (isWhitespace c)) (normalizedQueryOf query).

(** [/^\d+$/.test(numericQuery)] *)
Definition isNumericQuery (numericQuery : jsstring) : bool :=
  nonEmpty numericQuery && forallb isDigit numericQuery.

Definition departmentMatches (allPersonnel : list Personnel)
    (query : jsstring) : list Personnel :=
  filter (fun p => includes (cachedNormalizeText (Server.department p))
                            (normalizedQueryOf query))
         allPersonnel.

Definition exactMatches (allPersonnel : list Personnel) (query : jsstring)
  : list Personnel :=
  filter (fun p =>
            forallb (fun term =>
                       existsb (fun word =>
                                  startsWith word term || str_eqb word term)
                               (split 32 (Server.searchableName p)))
                    (searchTermsOf query))
         allPersonnel.

Definition fallbackMatches (allPersonnel : list Personnel) (query : jsstring)
  : list Personnel :=
  filter (fun p => forallb (fun term => includes (Server.searchableName p) term)
                           (searchTermsOf query))
         allPersonnel.

Definition matchingPersonnel (allPersonnel : list Personnel)
    (query : jsstring) : list Personnel :=
  if isNumericQuery (numericQueryOf query) then
    filter (fun p => includes (Server.searchableExtension p)
                              (numericQueryOf query))
           allPersonnel
  else
    let exact := exactMatches allPersonnel query in
    let first :=
      match exact with
      | _ :: _ =>
          let matchingExtensions := map Server.extension exact in
          addResults [] []
            (filter (fun p => existsb (str_eqb (Server.extension p))
                                      matchingExtensions)
                    allPersonnel)
      | [] => addResults [] [] (fallbackMatches allPersonnel query)
      end in
    let byDepartment := departmentMatches allPersonnel query in
    if Nat.ltb 0 (length byDepartment)
       && Nat.eqb (length (searchTermsOf query)) 1
    then snd (addResults (fst first) (snd first) byDepartment)
    else snd first.

Definition filteredResults (allPersonnel : list Personnel) (query : jsstring)
  : list Hit :=
  if Server.isEmpty (trim query) || Nat.ltb (length query) 2 then []
  else
    map (fun p =>
           {| person := p;
              searchTerms := searchTermsOf query;
              searchScore :=
                computeSearchScore p (normalizedQueryOf query)
                                   (searchTermsOf query) |})
        (matchingPersonnel allPersonnel query).

End Hook.

End Search.

(** ** Grouping the hits by department *)

Module Grouping.
Import JS Search.

(** The names of the properties of [Object.prototype]: a read of one of
    them from an object written [{}] that has no own property of the name
    gives the inherited value, a function or, for [__proto__], the
    prototype. *)
Definition objectPrototypeNames : list jsstring :=
  [ lit "constructor"; lit "hasOwnProperty"; lit "isPrototypeOf";
    lit "propertyIsEnumerable"; lit "toLocaleString"; lit "toString";
    lit "valueOf"; lit "__proto__"; lit "__defineGetter__";
    lit "__defineSetter__"; lit "__lookupGetter__"; lit "__lookupSetter__" ].

(** The number a property key is the array index of: the key is the
    canonical numeral of a number below 2^32 - 1. *)
Definition arrayIndex (key : jsstring) : option N :=
  let n := fold_left (fun acc c => acc * 10 + (c - 48))%N key 0%N in
  if forallb isDigit key && str_eqb (decimal n) key && N.ltb n 4294967295
  then Some n else None.

(** [Array.prototype.sort] with the comparator [cmp]: the sort is stable,
    and for a consistent comparator the result is the one that insertion
    from the right gives. *)
Fixpoint insert {A : Type} (cmp : A -> A -> Z) (x : A) (l : list A)
  : list A :=
  match l with
  | [] => [x]
  | y :: rest =>
      if Z.leb (cmp x y) 0 then x :: l else y :: insert cmp x rest
  end.

Definition sort {A : Type} (cmp : A -> A -> Z) (l : list A) : list A :=
  fold_right (insert cmp) [] l.

(** The object [grouped]: its own properties, in the order of their
    creation. *)
Definition Grouped := list (jsstring * list Hit).

Definition own (grouped : Grouped) (key : jsstring) : option (list Hit) :=
  match find (fun e => str_eqb (fst e) key) grouped with
  | Some e => Some (snd e)
  | None => None
  end.

(** [grouped[key].push(person)] for an own property [key]. *)
Definition push (key : jsstring) (h : Hit) (grouped : Grouped) : Grouped :=
  map (fun e => if str_eqb (fst e) key then (fst e, snd e ++ [h]) else e)
      grouped.

(** The callback of [results.forEach].  [None] is the TypeError of the
    call of [push] on an inherited value, which is truthy and has no
    [push]. *)
Definition addPerson (grouped : Grouped) (h : Hit) : option Grouped :=
  let key := Server.department (person h) in
  match own grouped key with
  | Some _ => Some (push key h grouped)
  | None =>
      if existsb (str_eqb key) objectPrototypeNames then None
      else Some (push key h (grouped ++ [(key, [])]))
  end.

Fixpoint forEach (results : list Hit) (grouped : Grouped)
  : option Grouped :=
  match results with
  | [] => Some grouped
  | h :: rest =>
      match addPerson grouped h with
      | Some grouped' => forEach rest grouped'
      | None => None
      end
  end.

Definition isIndexKey (e : jsstring * list Hit) : bool :=
  match arrayIndex (fst e) with Some _ => true | None => false end.

Definition indexOfKey (e : jsstring * list Hit) : Z :=
  match arrayIndex (fst e) with Some n => Z.of_N n | None => 0 end.

(** [Object.entries(grouped)]: the array indices in ascending order, then
    the other keys in the order of their creation. *)
Definition entries (grouped : Grouped) : list (jsstring * list Hit) :=
  sort (fun a b => indexOfKey a - indexOfKey b)%Z (filter isIndexKey grouped)
  ++ filter (fun e => negb (isIndexKey e)) grouped.

(** [{ department, personnel }] *)
Record DepartmentGroup : Type := {
  department : jsstring;
  personnel : list Hit
}.

(** [{ department, personnel, maxScore }] *)
Record ScoredGroup : Type := {
  scoredDepartment : jsstring;
  sortedPersonnel : list Hit;
  maxScore : Z
}.

(** [({ department, personnel }) => ({ department, personnel })] *)
Definition toGroup (g : ScoredGroup) : DepartmentGroup :=
  {| department := scoredDepartment g; personnel := sortedPersonnel g |}.

Section Hook.

(** [a.localeCompare(b)], which the platform provides. *)
Variable localeCompare : jsstring -> jsstring -> Z.

Definition comparePersonnel (a b : Hit) : Z :=
  let scoreDiff := (searchScore b - searchScore a)%Z in
  if negb (Z.eqb scoreDiff 0) then scoreDiff
  else localeCompare (Server.name (person a)) (Server.name (person b)).

Definition scoreGroup (entry : jsstring * list Hit) : ScoredGroup :=
  let sorted := sort comparePersonnel (snd entry) in
  {| scoredDepartment := fst entry;
     sortedPersonnel := sorted;
     maxScore := match sorted with
                 | first :: _ => searchScore first
                 | [] => 0
                 end |}.

Definition compareGroups (a b : ScoredGroup) : Z :=
  let scoreDiff := (maxScore b - maxScore a)%Z in
  if negb (Z.eqb scoreDiff 0) then scoreDiff
  else localeCompare (scoredDepartment a) (scoredDepartment b).

(** [groupResultsByDepartment]; [None] when it throws. *)
Definition groupResultsByDepartment (results : list Hit)
  : option (list DepartmentGroup) :=
  match forEach results [] with
  | None => None
  | Some grouped =>
      Some (map toGroup
                (sort compareGroups (map scoreGroup (entries grouped))))
  end.

End Hook.

End Grouping.

(** ** The messages of a failed load *)

Module LoadErrors.
Import JS.

(** [{ message, isRetryable }] *)
Record Outcome : Type := {
  message : jsstring;
  isRetryable : bool
}.

(** The texts with a letter outside ASCII; the source writes them
    precomposed. *)
Definition noEstaDisponible : jsstring :=
  lit "no est" ++ [225%N] ++ lit " disponible".

Definition archivoNoEstaDisponible : jsstring :=
  lit "archivo del directorio no est" ++ [225%N] ++ lit " disponible".

Definition vacio : jsstring := lit "vac" ++ [237%N] ++ lit "o".

Definition notFoundMessage : jsstring :=
  lit "No se encontr" ++ [243%N] ++ lit " el archivo del directorio interno".

Definition loadMessage : jsstring := lit "Error al cargar el directorio".

Definition connectionMessage : jsstring :=
  lit "Error de conexi" ++ [243%N] ++ lit "n al cargar el directorio".

Definition processMessage : jsstring := lit "Error al procesar el directorio".

Definition emptyMessage : jsstring :=
  lit "El directorio est" ++ [225%N] ++ lit " vac" ++ [237%N] ++ lit "o".

(** The class of the last test: the eight letters and the two inverted
    marks it lists, whitespace, word characters, and the point, comma,
    colon, exclamation mark, parentheses and hyphen. *)
Definition friendlyUnit (c : N) : bool :=
  existsb (N.eqb c)
          [191; 225; 233; 237; 243; 250; 241; 252;
           46; 44; 58; 161; 33; 40; 41; 45]%N
  || isWhitespace c || isWordChar c.

(** The test of the last rule: the whole message, which is not empty, is
    made of the units of the class. *)
Definition isFriendly (s : jsstring) : bool :=
  match s with [] => false | _ :: _ => forallb friendlyUnit s end.

Section Hook.
Context `{Platform}.

(** [transformErrorMessage]; the argument is the message of the error
    when the value caught is an [Error], and [None] for any other
    value. *)
Definition transformErrorMessage (error : option jsstring) : Outcome :=
  let fallback := {| message := loadMessage; isRetryable := false |} in
  match error with
  | Some errorMessage =>
      let message := toLowerCase errorMessage in
      if includes message (lit "http 404")
         || includes message (lit "not found")
      then {| message := notFoundMessage; isRetryable := false |}
      else if includes message noEstaDisponible
              || includes message archivoNoEstaDisponible
      then {| message := loadMessage; isRetryable := false |}
      else if includes message (lit "network")
              || includes message (lit "fetch")
              || includes message (lit "connection")
      then {| message := connectionMessage; isRetryable := true |}
      else if includes message (lit "xlsx")
              || includes message (lit "excel")
              || includes message (lit "parse")
              || includes message (lit "corrupt")
              || includes message (lit "invalid html")
              || includes message (lit "<table>")
      then {| message := processMessage; isRetryable := false |}
      else if includes message vacio || includes message (lit "empty")
      then {| message := emptyMessage; isRetryable := false |}
      else if includes message (lit "hoja") || includes message (lit "sheet")
      then {| message := processMessage; isRetryable := false |}
      else if isFriendly errorMessage
      then {| message := errorMessage; isRetryable := false |}
      else fallback
  | None => fallback
  end.

End Hook.

(** The errors that [loadData] throws itself, in the order of the
    source. *)
Inductive LoadFailure : Type :=
| HttpStatus (status : N)
| HtmlContentType
| EmptyFile
| HtmlBody
| NoSheets
| MissingSheet (worksheetName : jsstring)
| NoData.

Definition messageOf (failure : LoadFailure) : jsstring :=
  match failure with
  | HttpStatus status =>
      lit "HTTP " ++ decimal status
      ++ lit ": No se pudo cargar el directorio interno"
  | HtmlContentType | HtmlBody =>
      lit "El archivo del directorio no est" ++ [225%N] ++ lit " disponible"
  | EmptyFile =>
      lit "El archivo Excel est" ++ [225%N] ++ lit " vac" ++ [237%N]
      ++ lit "o"
  | NoSheets =>
      lit "El archivo Excel no tiene hojas de c" ++ [225%N] ++ lit "lculo"
  | MissingSheet worksheetName =>
      lit "No se encontr" ++ [243%N] ++ lit " la hoja " ++ [34%N]
      ++ worksheetName ++ [34%N]
  | NoData => lit "No se encontraron datos en el archivo Excel"
  end.

End LoadErrors.

(** ** Properties stated about the program *)

Module Props.
Import JS Server.

Section Normalizer.
Context `{Platform}.

(** Every entry of the memo cache maps a text to its normal form. *)
Definition cache_ok (cache : Cache) : Prop :=
  Forall (fun e => snd e = normalizeText (fst e)) cache.

(** The normalized text of a cell, as header detection reads it. *)
Definition cellText (cell : Cell) : jsstring :=
  normalizeText (normalizeCellValue cell).

(** Some cell of the row matches the dictionary [tokens]. *)
Definition rowMatches (tokens : list jsstring) (row : Row) : bool :=
  existsb (fun cell => matchesHeaderToken (cellText cell) tokens) row.

(** The index of the first cell of the row that matches [tokens], counted
    from [idx]; -1 when there is none. *)
Fixpoint firstMatchFrom (tokens : list jsstring) (row : Row) (idx : Z) : Z :=
  match row with
  | [] => -1
  | cell :: rest =>
      if matchesHeaderToken (cellText cell) tokens then idx
      else firstMatchFrom tokens rest (idx + 1)
  end.

Definition firstMatchingColumn (tokens : list jsstring) (row : Row) : Z :=
  firstMatchFrom tokens row 0.

(** The row matches the name dictionary and the extension or the
    department dictionary. *)
Definition qualifies (row : Row) : bool :=
  rowMatches HEADER_TOKENS.name row
  && (rowMatches HEADER_TOKENS.extension row
      || rowMatches HEADER_TOKENS.department row).

Definition detectedMap (row : Row) : ColumnMap :=
  {| extensionIndex := firstMatchingColumn HEADER_TOKENS.extension row;
     departmentIndex := firstMatchingColumn HEADER_TOKENS.department row;
     titleIndex := firstMatchingColumn HEADER_TOKENS.title row;
     nameIndex := firstMatchingColumn HEADER_TOKENS.name row |}.

(** One category of the scan, the index after a cell whose text matches
    ([m]) or not: the first match is kept. *)
Definition markIf (found m : bool) (old idx : Z) : Z :=
  if negb found && m then idx else old.

(** One category of the scan, the index after a whole row. *)
Definition pick (found : bool) (old : Z) (tokens : list jsstring) (row : Row)
    (idx : Z) : Z :=
  if found then old
  else if rowMatches tokens row then firstMatchFrom tokens row idx else old.

(** The first qualifying row of [rows], whose first row has index [i]. *)
Fixpoint findHeader (rows : list Row) (i : Z) : option HeaderMapping :=
  match rows with
  | [] => None
  | row :: rest =>
      if qualifies row
      then Some {| headerRowIndex := i; columnMap := detectedMap row |}
      else findHeader rest (i + 1)
  end.

(** The name and the extension text of a row, as the extractor picks them
    with the column map [cm]. *)
Definition rowNameRaw (cm : ColumnMap) (row : Row) : jsstring :=
  pickCellText row
    (uniqueIndices [nameIndex cm; DEFAULT_COLUMN_INDICES.name;
                    DEFAULT_COLUMN_INDICES.title]).

Definition rowExtensionRaw (cm : ColumnMap) (row : Row) : jsstring :=
  pickCellText row
    (uniqueIndices [extensionIndex cm; DEFAULT_COLUMN_INDICES.extension;
                    0%Z]).

Definition rowDepartmentRaw (cm : ColumnMap) (row : Row) : jsstring :=
  pickCellText row
    (uniqueIndices [departmentIndex cm; DEFAULT_COLUMN_INDICES.department;
                    DEFAULT_COLUMN_INDICES.title]).

Definition sentinels : list jsstring :=
  map lit ["telefonos internos reserva"; "reserva 6000"]%string.

(** The normalized text of some cell of the row contains a sentinel. *)
Definition hasSentinel (row : Row) : bool :=
  existsb (fun cell =>
             existsb (fun token => includes (cellText cell) token) sentinels)
          row.

(** The answer of [shouldStopProcessing]. *)
Definition shouldStop (values : list jsstring)
    (hasName hasNumericExtension : bool) : bool :=
  if hasName || hasNumericExtension then false
  else
    existsb (fun v =>
               if isEmpty v then false
               else negb (isEmpty (normalizeText v))
                    && existsb (fun token => includes (normalizeText v) token)
                               STOP_TOKEN_NORMALIZED)
            values.

Definition hasDigit (s : jsstring) : bool := existsb isDigit s.

(** What holds of every record of a parse. *)
Definition recordInvariant (r : Personnel) : Prop :=
  searchableName r = normalizeText (name r)
  /\ ((extension r = lit "N/A" /\ searchableExtension r = [])
      \/ searchableExtension r
         = (if hasDigit (extension r) then filter isDigit (extension r)
            else toLowerCase (extension r)))
  /\ (forallb isDigit (searchableExtension r) = true ->
      forallb (fun c => isDigit c || inRange 97 122 c)
              (searchableExtension r) = true).

End Normalizer.

(** The records of [items] whose id is not in [seen] and not the id of a
    record before them: de-duplication by id in first-seen order. *)
Fixpoint dedupFrom (seen : list jsstring) (items : list Personnel)
  : list Personnel :=
  match items with
  | [] => []
  | item :: rest =>
      if existsb (str_eqb (id item)) seen then dedupFrom seen rest
      else item :: dedupFrom (id item :: seen) rest
  end.

Definition dedupById (items : list Personnel) : list Personnel :=
  dedupFrom [] items.

(** The ids seen after [items]. *)
Fixpoint seenAfter (seen : list jsstring) (items : list Personnel)
  : list jsstring :=
  match items with
  | [] => seen
  | item :: rest =>
      if existsb (str_eqb (id item)) seen then seenAfter seen rest
      else seenAfter (id item :: seen) rest
  end.

(** The extension of [p] is the extension of one of [matches]. *)
Definition sharesExtension (matches : list Personnel) (p : Personnel) : bool :=
  existsb (fun m => str_eqb (extension p) (extension m)) matches.


(** The texts 0, 1, ..., 1000 in decimal: 1001 different keys. *)
Definition manyTexts : list jsstring :=
  map (fun n => decimal (N.of_nat n)) (seq 0 1001).

(** The digits-only variant of a normalized query, in the words of the
    specification: its digits, everything else removed. *)
Definition digitsOnlyVariant (normalizedQuery : jsstring) : jsstring :=
  filter isDigit normalizedQuery.

(** The normalized query is made of digits and whitespace. *)
Definition digitsAndBlanks (normalizedQuery : jsstring) : bool :=
  forallb (fun c => isDigit c || isWhitespace c) normalizedQuery.

End Props.

(** ** Sample sheets *)

Module Samples.
Import JS Server.

Definition text (s : string) : Cell := CStr (lit s).

(** A sheet whose row 3 is the header. *)
Definition sheetWithHeader : list Row :=
  [ [text "Listado de internos"];
    [text ""; text "Servicoop"];
    [];
    [text "APELLIDO Y NOMBRE"; text "SECTOR"; text "INTERNO"];
    [text "Perez, Juan"; text "Ventas"; CNum 101] ].

(** A sheet without header tokens. *)
Definition sheetWithoutHeader : list Row :=
  [ [text ""; CNum 101; text "Ventas"; text ""; text "Juan Perez"];
    [text ""; CNum 102; text "Compras"; text ""; text "Ana Gomez"] ].

Definition stopRow : Row := [text "TELEFONOS INTERNOS RESERVA"].

(** A directory that ends with the sentinel row, and a row after it. *)
Definition sheetWithStopRow : list Row :=
  [ [text "INTERNO"; text "SECTOR"; text ""; text ""; text "NOMBRE"];
    [CNum 101; text "Ventas"; text ""; text ""; text "Juan Perez"];
    stopRow;
    [CNum 102; text "Compras"; text ""; text ""; text "Ana Gomez"] ].

(** A sentinel row that also reads as a repeated header: its last cell
    holds a name token. *)
Definition headerLikeStopRow : Row :=
  [text "TELEFONOS INTERNOS RESERVA"; text ""; text ""; text ""; text "";
   text "CONTACTO"].

Definition sheetWithHeaderLikeStopRow : list Row :=
  [ [text "INTERNO"; text "SECTOR"; text ""; text ""; text "NOMBRE"];
    headerLikeStopRow;
    [CNum 101; text "Ventas"; text ""; text ""; text "Juan Perez"] ].

(** A person without extension. *)
Definition sheetWithoutExtension : list Row :=
  [ [text ""; text ""; text "Ventas"; text ""; text "Juan Perez"] ].

Definition juan (dept : jsstring) : Personnel :=
  {| id := lit "1"; name := lit "Juan Perez"; department := dept;
     extension := lit "101"; searchableName := lit "juan perez";
     searchableExtension := lit "101" |}.

Definition ana (dept : jsstring) : Personnel :=
  {| id := lit "2"; name := lit "Ana Gomez"; department := dept;
     extension := lit "101"; searchableName := lit "ana gomez";
     searchableExtension := lit "101" |}.

(** Somebody at another extension, in a department named like Juan. *)
Definition luis : Personnel :=
  {| id := lit "3"; name := lit "Luis Diaz"; department := lit "Perez Hnos";
     extension := lit "102"; searchableName := lit "luis diaz";
     searchableExtension := lit "102" |}.


(** Two reloads whose stats resolve before the load has finished. *)
Definition promptStats : list Event :=
  [ Invoke true;
    Invoke true;
    StatSettles 0 (inr 5%Z);
    StatSettles 1 (inr 5%Z);
    DecodeSettles 0 (inr sheetWithoutHeader);
    OwnerResumes 0 9%Z ].

Definition enoent : Error :=
  {| code := Some (lit "ENOENT"); message := lit "no such file" |}.


Definition directory : list Personnel :=
  [juan (lit "Ventas"); ana (lit "Ventas"); luis].

Definition juanWithoutExtension : Personnel :=
  {| id := lit "1"; name := lit "Juan Perez"; department := lit "Ventas";
     extension := lit "N/A"; searchableName := lit "juan perez";
     searchableExtension := [] |}.

End Samples.

(** ** Further properties stated about the program *)

Module MoreProps.
Import JS Server.

(** The string neither starts nor ends with whitespace. *)
Definition noBlankEnds (s : jsstring) : Prop :=
  match s with [] => True | c :: _ => isWhitespace c = false end
  /\ match rev s with [] => True | c :: _ => isWhitespace c = false end.

(** The code units at which [splitNames] always cuts: slash, semicolon,
    bar and line feed. *)
Definition isCut (c : N) : bool :=
  N.eqb c 47 || N.eqb c 59 || N.eqb c 124 || N.eqb c 10.

(** The decimal numerals of [first], [first + 1], ..., [count] of them. *)
Fixpoint idsFrom (first : N) (count : nat) : list jsstring :=
  match count with
  | O => []
  | S k => decimal first :: idsFrom (first + 1) k
  end.

(** The ids given so far are 1, 2, ... and the next one follows. *)
Definition numbered (nextId : N) (acc : list Personnel) : Prop :=
  nextId = (1 + N.of_nat (length acc))%N
  /\ map id acc = idsFrom 1 (length acc).

(** The debts of the debtor [key] among the rows [deudas], in their
    order. *)
Definition deudasDe (key : Z) (deudas : list Deudores.DeudaRow)
  : list Deudores.Deuda :=
  map Deudores.toDeuda
      (filter (fun d => Z.eqb (Deudores.deudorId d) key) deudas).

Section Parser.
Context `{Platform}.

(** The names the extractor keeps for a row: the pieces of its name cell,
    or the placeholder, without the excluded ones. *)
Definition rowNames (cm : ColumnMap) (row : Row) : list jsstring :=
  filter keepName
         (if negb (isEmpty (Props.rowNameRaw cm row))
          then splitNames (Props.rowNameRaw cm row)
          else [lit "Sin Nombre"]).

Definition rowExtensionValue (cm : ColumnMap) (row : Row) : jsstring :=
  if isEmpty (Props.rowExtensionRaw cm row) then []
  else normalizeExtensionValue (Props.rowExtensionRaw cm row).

Definition rowDepartment (cm : ColumnMap) (row : Row) : jsstring :=
  if isEmpty (Props.rowDepartmentRaw cm row)
  then lit "Sector sin identificar"
  else Props.rowDepartmentRaw cm row.

(** The record [r] is one of the records of the row [row]. *)
Definition fromRow (cm : ColumnMap) (row : Row) (r : Personnel) : Prop :=
  In (name r) (rowNames cm row)
  /\ department r = rowDepartment cm row
  /\ extension r = (if isEmpty (rowExtensionValue cm row) then lit "N/A"
                    else rowExtensionValue cm row)
  /\ searchableName r = normalizeText (name r)
  /\ searchableExtension r
     = normalizeExtensionSearch (rowExtensionValue cm row).

(** The payload is the parse of the decoded sheet [rows]. *)
Definition parsedFrom (rows : list Row) (p : Payload) : Prop :=
  clampRows rows <> []
  /\ personnel p = value (processExcelData (clampRows rows)).

End Parser.

(** The hits of the department [dept] among [results], in their order. *)
Definition hitsOf (dept : jsstring) (results : list Search.Hit)
  : list Search.Hit :=
  filter (fun h => str_eqb (department (Search.person h)) dept) results.

(** The score of the first hit of a group. *)
Definition best (g : Grouping.DepartmentGroup) : Z :=
  match Grouping.personnel g with
  | first :: _ => Search.searchScore first
  | [] => 0
  end.

(** [a] has at least the score of [b]. *)
Definition scoresAbove (a b : Search.Hit) : Prop :=
  (Search.searchScore b <= Search.searchScore a)%Z.

(** What holds of the object [grouped] after the hits [done]. *)
Definition built (grouped : Grouping.Grouped) (done : list Search.Hit)
  : Prop :=
  NoDup (map fst grouped)
  /\ (forall e, In e grouped ->
                snd e = hitsOf (fst e) done /\ snd e <> []
                /\ existsb (str_eqb (fst e)) Grouping.objectPrototypeNames
                   = false)
  /\ (forall h, In h done ->
                In (department (Search.person h)) (map fst grouped)).

Section Parser.
Context `{Platform}.

(** The payload is the parse of the sheet that the decoder returned to
    some load of the run [events]. *)
Definition decodedIn (events : list Event) (p : Payload) : Prop :=
  exists (l : nat) (rows : list Row),
    In (DecodeSettles l (inr rows)) events /\ parsedFrom rows p.

(** What holds of every world the event loop reaches by the events
    [events], about what it stores: the memo cache is sound and bounded, a
    load that succeeded holds the parse of the sheet its decoder returned,
    the cached payload holds the parse of a sheet that a decoder of the run
    returned, and the last error is the error of a load that failed. *)
Definition sound (events : list Event) (w : World) : Prop :=
  Props.cache_ok (textNormalizationCache w)
  /\ (length (textNormalizationCache w) <= 1001)%nat
  /\ (forall l p, nth_error (loads w) l = Some (Settled (inr p)) ->
                  exists rows, In (DecodeSettles l (inr rows)) events
                               /\ parsedFrom rows p)
  /\ (forall p, payload (internosCache w) = Some p -> decodedIn events p)
  /\ (forall e, lastError (internosCache w) = Some e ->
                exists l, nth_error (loads w) l = Some (Settled (inl e))).

End Parser.

End MoreProps.

(** ** More samples *)

Module MoreSamples.
Import JS Server Samples.

(** A reload that succeeds. *)
Definition firstReload : list Event :=
  [ Invoke true;
    StatSettles 0 (inr 5%Z);
    DecodeSettles 0 (inr sheetWithoutHeader);
    OwnerResumes 0 9%Z ].

(** A forced reload whose decoder fails, after [firstReload]. *)
Definition failingReload : list Event :=
  [ Invoke true;
    StatSettles 1 (inr 6%Z);
    DecodeSettles 1 (inl enoent);
    OwnerResumes 1 12%Z ].

(** The hits of the query perez in the sample directory. *)
Definition hit (p : Personnel) (score : Z) : Search.Hit :=
  {| Search.person := p;
     Search.searchTerms := [lit "perez"];
     Search.searchScore := score |}.

Definition sampleHits : list Search.Hit :=
  [ hit (juan (lit "Ventas")) 2; hit (ana (lit "Ventas")) 0; hit luis 0 ].

(** A collation that compares code unit by code unit. *)
Fixpoint compareUnits (a b : jsstring) : Z :=
  match a, b with
  | [], [] => 0
  | [], _ :: _ => -1
  | _ :: _, [] => 1
  | x :: a', y :: b' =>
      if N.ltb x y then -1
      else if N.ltb y x then 1
      else compareUnits a' b'
  end.

End MoreSamples.

(** ** The platform on Latin-1 text *)

Module Latin1Facts.
Import JS Latin1.

Lemma lowerUnit_ascii (c : N) : (c < 128)%N -> lowerUnit c = asciiLower c.
Proof.
  intros Hc; unfold lowerUnit, asciiLower.
  destruct (inRange 65 90 c); [reflexivity|].
  unfold inRange; replace (N.leb 192 c) with false
    by (symmetry; apply N.leb_gt; lia).
  reflexivity.
Qed.

Lemma decomposeUnit_ascii (c : N) : (c < 128)%N -> decomposeUnit c = [c].
Proof.
  intros Hc.
  assert (Hle : forall k, (128 <= k)%N -> N.leb k c = false)
    by (intros k Hk; apply N.leb_gt; lia).
  assert (Heq : forall k, (128 <= k)%N -> N.eqb c k = false)
    by (intros k Hk; apply N.eqb_neq; lia).
  unfold decomposeUnit, decomposeLower, inRange.
  rewrite !Hle, !Heq by lia; reflexivity.
Qed.

Lemma latin1_laws : PlatformLaws platform.
Proof.
  split; intros s Hs; unfold isAscii in Hs; rewrite forallb_forall in Hs.
  - apply map_ext_in; intros c Hc.
    apply lowerUnit_ascii, N.ltb_lt, Hs, Hc.
  - simpl; induction s as [|c s IH]; [reflexivity|]; cbn [flat_map].
    rewrite decomposeUnit_ascii by (apply N.ltb_lt, Hs; left; reflexivity).
    rewrite IH by (intros x Hx; apply Hs; right; exact Hx); reflexivity.
Qed.

End Latin1Facts.

(** ** The text normalizer *)

Module NormalizerFacts.
Import JS Server Props.

Lemma str_eqb_eq (a b : jsstring) : str_eqb a b = true <-> a = b.
Proof.
  revert b; induction a as [|x a IH]; intros [|y b]; simpl;
    try (split; intro E; [discriminate E | discriminate E]);
    try (split; reflexivity).
  rewrite andb_true_iff, N.eqb_eq, IH.
  split.
  - intros [-> ->]; reflexivity.
  - intros E; injection E; auto.
Qed.

Lemma str_eqb_refl (a : jsstring) : str_eqb a a = true.
Proof. apply str_eqb_eq; reflexivity. Qed.

Section Memo.
Context `{Platform}.

Lemma cache_get_ok (cache : Cache) (key v : jsstring) :
  cache_ok cache -> cache_get cache key = Some v -> v = normalizeText key.
Proof.
  unfold cache_ok, cache_get; intros Hok Hget.
  destruct (find _ cache) as [e|] eqn:Hfind; [|discriminate].
  apply find_some in Hfind; destruct Hfind as [Hin Heq].
  apply str_eqb_eq in Heq.
  rewrite Forall_forall in Hok; specialize (Hok e Hin).
  injection Hget as <-; rewrite <- Heq; exact Hok.
Qed.

Lemma cache_delete_ok (cache : Cache) (key : jsstring) :
  cache_ok cache -> cache_ok (cache_delete key cache).
Proof.
  unfold cache_ok, cache_delete; rewrite !Forall_forall.
  intros Hok e Hin; apply filter_In in Hin; apply Hok, Hin.
Qed.

Lemma cache_set_ok (cache : Cache) (key : jsstring) :
  cache_ok cache -> cache_ok (cache_set key (normalizeText key) cache).
Proof.
  unfold cache_ok, cache_set; intros Hok.
  destruct (cache_has cache key).
  - induction Hok as [|e l He Hl IH]; simpl; constructor; auto.
    destruct (str_eqb (fst e) key); [reflexivity | exact He].
  - apply Forall_app; split; [exact Hok | constructor; [reflexivity | constructor]].
Qed.

Lemma cachedNormalizeText_ok (text : jsstring) (cache : Cache) :
  cache_ok cache ->
  fst (cachedNormalizeText text cache) = normalizeText text
  /\ cache_ok (snd (cachedNormalizeText text cache)).
Proof.
  intros Hok; unfold cachedNormalizeText.
  destruct (cache_get cache text) as [hit|] eqn:Hget; simpl.
  - split; [eapply cache_get_ok; eassumption | exact Hok].
  - split; [reflexivity|].
    apply cache_set_ok.
    destruct (Nat.ltb 1000 (length cache)); [|exact Hok].
    destruct (cache_firstKey cache); [apply cache_delete_ok|]; exact Hok.
Qed.

Lemma cacheAfter_snoc (texts : list jsstring) (text : jsstring) :
  cacheAfter (texts ++ [text])
  = snd (cachedNormalizeText text (cacheAfter texts)).
Proof. unfold cacheAfter; rewrite fold_left_app; reflexivity. Qed.

Lemma cacheAfter_ok (texts : list jsstring) : cache_ok (cacheAfter texts).
Proof.
  induction texts as [|text texts IH] using rev_ind.
  - constructor.
  - rewrite cacheAfter_snoc; apply cachedNormalizeText_ok, IH.
Qed.

(** Running a computation on a sound cache gives its [value], and leaves
    a sound cache. *)
Lemma run_value {A : Type} (p : Prog A) (cache : Cache) :
  cache_ok cache ->
  fst (run p cache) = value p /\ cache_ok (snd (run p cache)).
Proof.
  revert cache; induction p as [a|text k IH]; intros cache Hok; simpl.
  - split; [reflexivity | exact Hok].
  - destruct (cachedNormalizeText_ok text Hok) as [Hv Hc].
    destruct (cachedNormalizeText text cache) as [v cache']; simpl in *.
    subst v; apply IH, Hc.
Qed.

Lemma value_bind {A B : Type} (p : Prog A) (f : A -> Prog B) :
  value (bind p f) = value (f (value p)).
Proof. induction p as [a|text k IH]; simpl; [reflexivity | apply IH]. Qed.

Lemma value_mapM_cached (l : list jsstring) :
  value (mapM cached l) = map normalizeText l.
Proof.
  induction l as [|a l IH]; simpl; [reflexivity|].
  rewrite value_bind; simpl; rewrite IH; reflexivity.
Qed.

Lemma length_cache_delete (key : jsstring) (e : jsstring * jsstring)
    (cache : Cache) :
  fst e = key -> (length (cache_delete key (e :: cache)) <= length cache)%nat.
Proof.
  intros <-; unfold cache_delete; simpl.
  rewrite str_eqb_refl; simpl; apply filter_length_le.
Qed.

Lemma length_cache_set (key v : jsstring) (cache : Cache) :
  (length (cache_set key v cache) <= S (length cache))%nat.
Proof.
  unfold cache_set; destruct (cache_has cache key).
  - rewrite length_map; lia.
  - rewrite length_app; simpl; lia.
Qed.

(** The bound the eviction test [size > 1000] keeps. *)
Lemma cachedNormalizeText_size (text : jsstring) (cache : Cache) :
  (length cache <= 1001)%nat ->
  (length (snd (cachedNormalizeText text cache)) <= 1001)%nat.
Proof.
  intros Hlen; unfold cachedNormalizeText.
  destruct (cache_get cache text); simpl; [exact Hlen|].
  destruct (Nat.ltb 1000 (length cache)) eqn:Hfull.
  - destruct cache as [|e cache]; [discriminate|]; simpl cache_firstKey.
    pose proof (@length_cache_delete (fst e) e cache eq_refl) as Hdel.
    pose proof (length_cache_set text (normalizeText text)
                  (cache_delete (fst e) (e :: cache))) as Hset.
    simpl in Hlen; lia.
  - apply Nat.ltb_ge in Hfull.
    pose proof (length_cache_set text (normalizeText text) cache); lia.
Qed.

Lemma cacheAfter_size (texts : list jsstring) :
  (length (cacheAfter texts) <= 1001)%nat.
Proof.
  induction texts as [|text texts IH] using rev_ind.
  - simpl; lia.
  - rewrite cacheAfter_snoc; apply cachedNormalizeText_size, IH.
Qed.

(** C10. Whatever calls came before (hits, misses and evictions), the
    memoized normalizer [cachedNormalizeText] returns the string that the
    pure [normalizeText] returns for the same input. *)
Theorem cachedNormalizeText_is_normalizeText
    (calls : list jsstring) (text : jsstring) :
  fst (cachedNormalizeText text (cacheAfter calls)) = normalizeText text.
Proof. apply cachedNormalizeText_ok, cacheAfter_ok. Qed.

(** C8. After the 1001 different texts of [manyTexts] the memo cache of
    the normalizer holds 1001 entries, one more than the capacity of 1000:
    the test [size > 1000] lets the 1001st entry in before anything is
    evicted. *)
Theorem cache_holds_1001_entries :
  length (cacheAfter manyTexts) = 1001%nat.
Proof. vm_compute; reflexivity. Qed.

End Memo.

End NormalizerFacts.

(** ** Header detection *)

Module HeaderFacts.
Import JS Server Props NormalizerFacts.

Section Detection.
Context `{Platform}.

Lemma no_token_in_empty_text :
  matchesHeaderToken [] HEADER_TOKENS.extension = false
  /\ matchesHeaderToken [] HEADER_TOKENS.department = false
  /\ matchesHeaderToken [] HEADER_TOKENS.title = false
  /\ matchesHeaderToken [] HEADER_TOKENS.name = false.
Proof. repeat split; reflexivity. Qed.

Lemma scanCell_value (st : Scan) (cell : Cell) (idx : Z) :
  let me := matchesHeaderToken (cellText cell) HEADER_TOKENS.extension in
  let md := matchesHeaderToken (cellText cell) HEADER_TOKENS.department in
  let mt := matchesHeaderToken (cellText cell) HEADER_TOKENS.title in
  let mn := matchesHeaderToken (cellText cell) HEADER_TOKENS.name in
  value (scanCell st cell idx)
  = {| scanMap :=
         {| extensionIndex :=
              markIf (foundExtension st) me (extensionIndex (scanMap st)) idx;
            departmentIndex :=
              markIf (foundDepartment st) md (departmentIndex (scanMap st)) idx;
            titleIndex :=
              markIf (foundTitle st) mt (titleIndex (scanMap st)) idx;
            nameIndex :=
              markIf (foundName st) mn (nameIndex (scanMap st)) idx |};
       foundExtension := foundExtension st || me;
       foundDepartment := foundDepartment st || md;
       foundTitle := foundTitle st || mt;
       foundName := foundName st || mn |}.
Proof.
  unfold scanCell, cached, cellText; cbn [bind value].
  destruct st as [[e d t n] fe fd ft fn].
  destruct (normalizeText (normalizeCellValue cell)) as [|c text] eqn:E.
  - cbn [isEmpty value].
    destruct no_token_in_empty_text as (-> & -> & -> & ->).
    unfold markIf; simpl; rewrite !andb_false_r, !orb_false_r; reflexivity.
  - cbn [isEmpty].
    destruct (matchesHeaderToken (c :: text) HEADER_TOKENS.extension),
             (matchesHeaderToken (c :: text) HEADER_TOKENS.department),
             (matchesHeaderToken (c :: text) HEADER_TOKENS.title),
             (matchesHeaderToken (c :: text) HEADER_TOKENS.name);
      destruct fe, fd, ft, fn; reflexivity.
Qed.

Lemma pick_cons (found : bool) (old : Z) (tokens : list jsstring)
    (cell : Cell) (rest : Row) (idx : Z) :
  pick (found || matchesHeaderToken (cellText cell) tokens)
       (markIf found (matchesHeaderToken (cellText cell) tokens) old idx)
       tokens rest (idx + 1)
  = pick found old tokens (cell :: rest) idx.
Proof.
  unfold pick, markIf; simpl.
  destruct found; simpl; [reflexivity|].
  destruct (matchesHeaderToken (cellText cell) tokens); simpl; reflexivity.
Qed.

Lemma scanRow_value (row : Row) : forall (st : Scan) (idx : Z),
  value (scanRow st row idx)
  = {| scanMap :=
         {| extensionIndex :=
              pick (foundExtension st) (extensionIndex (scanMap st))
                   HEADER_TOKENS.extension row idx;
            departmentIndex :=
              pick (foundDepartment st) (departmentIndex (scanMap st))
                   HEADER_TOKENS.department row idx;
            titleIndex :=
              pick (foundTitle st) (titleIndex (scanMap st))
                   HEADER_TOKENS.title row idx;
            nameIndex :=
              pick (foundName st) (nameIndex (scanMap st))
                   HEADER_TOKENS.name row idx |};
       foundExtension := foundExtension st
                         || rowMatches HEADER_TOKENS.extension row;
       foundDepartment := foundDepartment st
                          || rowMatches HEADER_TOKENS.department row;
       foundTitle := foundTitle st || rowMatches HEADER_TOKENS.title row;
       foundName := foundName st || rowMatches HEADER_TOKENS.name row |}.
Proof.
  induction row as [|cell rest IH]; intros st idx.
  - destruct st as [[e d t n] fe fd ft fn]; unfold pick; simpl.
    rewrite !orb_false_r; destruct fe, fd, ft, fn; reflexivity.
  - cbn [scanRow]; rewrite value_bind, IH, scanCell_value; cbv zeta.
    cbn [scanMap extensionIndex departmentIndex titleIndex nameIndex
         foundExtension foundDepartment foundTitle foundName].
    rewrite !pick_cons.
    unfold rowMatches; cbn [existsb]; rewrite !orb_assoc; reflexivity.
Qed.

Lemma firstMatchFrom_none (tokens : list jsstring) (row : Row) :
  forall idx, rowMatches tokens row = false ->
              firstMatchFrom tokens row idx = (-1)%Z.
Proof.
  induction row as [|cell rest IH]; intros idx Hno; simpl; [reflexivity|].
  unfold rowMatches in Hno; simpl in Hno.
  apply orb_false_iff in Hno; destruct Hno as [-> Hrest].
  apply IH, Hrest.
Qed.

Lemma pick_initial (tokens : list jsstring) (row : Row) :
  pick false (-1) tokens row 0 = firstMatchingColumn tokens row.
Proof.
  unfold pick, firstMatchingColumn.
  destruct (rowMatches tokens row) eqn:E; [reflexivity|].
  symmetry; apply firstMatchFrom_none, E.
Qed.

Lemma detectFrom_value (rows : list Row) : forall i,
  value (detectFrom rows i) = findHeader rows i.
Proof.
  induction rows as [|row rest IH]; intros i; cbn [detectFrom findHeader];
    [reflexivity|].
  rewrite value_bind, scanRow_value.
  cbn [initialScan scanMap extensionIndex departmentIndex titleIndex nameIndex
       foundExtension foundDepartment foundTitle foundName orb].
  rewrite !pick_initial; fold (detectedMap row); fold (qualifies row).
  destruct (qualifies row); [reflexivity | apply IH].
Qed.

Lemma findHeader_at (rows : list Row) : forall (n : nat) (base : Z) (row : Row),
  nth_error rows n = Some row ->
  qualifies row = true ->
  (forall j row', (j < n)%nat -> nth_error rows j = Some row' ->
                  qualifies row' = false) ->
  findHeader rows base
  = Some {| headerRowIndex := base + Z.of_nat n;
            columnMap := detectedMap row |}.
Proof.
  induction rows as [|r rest IH]; intros n base row Hn Hq Hbefore.
  - destruct n; discriminate.
  - destruct n as [|n]; simpl in *.
    + injection Hn as ->; rewrite Hq, Z.add_0_r; reflexivity.
    + rewrite (Hbefore 0%nat r) by (simpl; auto; lia).
      rewrite (IH n (base + 1)%Z row Hn Hq).
      * do 2 f_equal; lia.
      * intros j row' Hj Hnth; apply (Hbefore (S j) row'); [lia | exact Hnth].
Qed.

Lemma findHeader_none (rows : list Row) : forall base,
  (forall row, In row rows -> qualifies row = false) ->
  findHeader rows base = None.
Proof.
  induction rows as [|r rest IH]; intros base Hno; simpl; [reflexivity|].
  rewrite (Hno r) by (left; reflexivity).
  apply IH; intros row Hin; apply Hno; right; exact Hin.
Qed.

Lemma detectHeaderMapping_value (rawData : list Row) :
  value (detectHeaderMapping rawData)
  = match findHeader (firstn HEADER_SCAN_ROWS rawData) 0 with
    | Some mapping => mapping
    | None => defaultMapping
    end.
Proof.
  unfold detectHeaderMapping; rewrite value_bind, detectFrom_value.
  replace (firstn (Nat.min (length rawData) HEADER_SCAN_ROWS) rawData)
    with (firstn HEADER_SCAN_ROWS rawData).
  - destruct (findHeader _ 0); reflexivity.
  - destruct (Nat.le_ge_cases (length rawData) HEADER_SCAN_ROWS) as [Hle|Hge].
    + rewrite Nat.min_l by exact Hle.
      rewrite !firstn_all2 by lia; reflexivity.
    + rewrite Nat.min_r by exact Hge; reflexivity.
Qed.

(** C1. Header detection returns the lowest-index row among the first 20
    rows that matches the name dictionary and the extension or department
    dictionary, with, for each of the four categories, the index of the
    first matching column of that row (-1 when none matches); when no row
    of the window qualifies it returns [headerRowIndex = -1] and the
    default columns extension 1, department 2, title 3, name 4. *)
Theorem detectHeaderMapping_first_qualifying_row
    (rawData : list Row) (cache : Cache) :
  cache_ok cache ->
  (forall (i : nat) (row : Row),
      (i < 20)%nat ->
      nth_error rawData i = Some row ->
      qualifies row = true ->
      (forall j row', (j < i)%nat -> nth_error rawData j = Some row' ->
                      qualifies row' = false) ->
      fst (run (detectHeaderMapping rawData) cache)
      = {| headerRowIndex := Z.of_nat i; columnMap := detectedMap row |})
  /\ ((forall (i : nat) (row : Row),
          (i < 20)%nat -> nth_error rawData i = Some row ->
          qualifies row = false) ->
      fst (run (detectHeaderMapping rawData) cache)
      = {| headerRowIndex := -1;
           columnMap := {| extensionIndex := 1; departmentIndex := 2;
                           titleIndex := 3; nameIndex := 4 |} |}).
Proof.
  intros Hok.
  rewrite (proj1 (run_value (detectHeaderMapping rawData) Hok)).
  rewrite detectHeaderMapping_value.
  split.
  - intros i row Hi Hnth Hq Hbefore.
    rewrite (@findHeader_at (firstn HEADER_SCAN_ROWS rawData) i 0 row).
    + reflexivity.
    + rewrite nth_error_firstn.
      replace (Nat.ltb i HEADER_SCAN_ROWS) with true
        by (symmetry; apply Nat.ltb_lt; exact Hi).
      exact Hnth.
    + exact Hq.
    + intros j row' Hj Hnth'.
      rewrite nth_error_firstn in Hnth'.
      destruct (Nat.ltb j HEADER_SCAN_ROWS); [|discriminate].
      apply (Hbefore j row' Hj Hnth').
  - intros Hnone.
    rewrite findHeader_none; [reflexivity|].
    intros row Hin.
    apply In_nth_error in Hin; destruct Hin as [i Hnth].
    rewrite nth_error_firstn in Hnth.
    destruct (Nat.ltb i HEADER_SCAN_ROWS) eqn:Hi; [|discriminate].
    apply Nat.ltb_lt in Hi. apply (Hnone i row Hi Hnth).
Qed.

End Detection.

Import Samples Latin1.

(** The theorem at the two sample sheets: row 3 of the first is its
    header, the second has none. *)
Lemma header_detection_on_samples :
  fst (run (detectHeaderMapping sheetWithHeader) [])
  = {| headerRowIndex := 3;
       columnMap := {| extensionIndex := 2; departmentIndex := 1;
                       titleIndex := -1; nameIndex := 0 |} |}
  /\ fst (run (detectHeaderMapping sheetWithoutHeader) [])
     = {| headerRowIndex := -1;
          columnMap := {| extensionIndex := 1; departmentIndex := 2;
                          titleIndex := 3; nameIndex := 4 |} |}.
Proof.
  split.
  - apply (proj1 (@detectHeaderMapping_first_qualifying_row Latin1.platform
                    sheetWithHeader [] (Forall_nil _))
                 3%nat
                 [text "APELLIDO Y NOMBRE"; text "SECTOR"; text "INTERNO"]).
    + lia.
    + reflexivity.
    + vm_compute; reflexivity.
    + intros j row' Hj Hnth.
      destruct j as [|[|[|j]]]; [| | | lia];
        injection Hnth as <-; vm_compute; reflexivity.
  - apply (proj2 (@detectHeaderMapping_first_qualifying_row Latin1.platform
                    sheetWithoutHeader [] (Forall_nil _))).
    intros i row Hi Hnth.
    destruct i as [|[|i]]; [| | destruct i; discriminate Hnth];
      injection Hnth as <-; vm_compute; reflexivity.
Defined.

End HeaderFacts.

(** ** Row extraction *)

Module ParserFacts.
Import JS Server Props NormalizerFacts HeaderFacts.

Lemma existsb_map {A B : Type} (f : B -> bool) (g : A -> B) (l : list A) :
  existsb f (map g l) = existsb (fun a => f (g a)) l.
Proof. induction l as [|a l IH]; simpl; [reflexivity | rewrite IH; reflexivity]. Qed.

Lemma existsb_same {A : Type} (f g : A -> bool) (l : list A) :
  (forall a, f a = g a) -> existsb f l = existsb g l.
Proof.
  intros E; induction l as [|a l IH]; simpl; [reflexivity|].
  rewrite E, IH; reflexivity.
Qed.

Lemma isEmpty_length (s : jsstring) : Nat.ltb 0 (length s) = negb (isEmpty s).
Proof. destruct s; reflexivity. Qed.

Section Extraction.
Context {P : Platform}.

Lemma value_someM {A : Type} (f : A -> Prog bool) (l : list A) :
  value (someM f l) = existsb (fun a => value (f a)) l.
Proof.
  induction l as [|a l IH]; cbn [someM existsb]; [reflexivity|].
  rewrite value_bind; destruct (value (f a)); [reflexivity | exact IH].
Qed.

Lemma shouldStopProcessing_value (values : list jsstring) (a b : bool) :
  value (shouldStopProcessing values a b) = shouldStop values a b.
Proof.
  unfold shouldStopProcessing, shouldStop.
  destruct (a || b); [reflexivity|].
  rewrite value_someM; apply existsb_same; intros v.
  destruct (isEmpty v); reflexivity.
Qed.

(** The value of one turn of the loop. *)
Lemma processRow_value (cm : ColumnMap) (row : Row) (nextId : N)
    (acc : list Personnel) :
  value (processRow cm row nextId acc)
  = if forallb isBlankCell row then Continue
    else if qualifies row then Continue
    else
      let extensionRaw := rowExtensionRaw cm row in
      let nameRaw := rowNameRaw cm row in
      let departmentRaw := rowDepartmentRaw cm row in
      let extensionValue :=
        if isEmpty extensionRaw then []
        else normalizeExtensionValue extensionRaw in
      if shouldStop (map normalizeCellValue row) (negb (isEmpty nameRaw))
           (if isEmpty extensionRaw then false
            else isNumericExtension extensionRaw)
      then Break
      else if negb (isEmpty nameRaw) || negb (isEmpty extensionValue) then
        match filter keepName
                (if negb (isEmpty nameRaw) then splitNames nameRaw
                 else [lit "Sin Nombre"]) with
        | [] => Continue
        | n :: ns =>
            let r :=
              value (pushRecords (n :: ns)
                       (if isEmpty departmentRaw
                        then lit "Sector sin identificar" else departmentRaw)
                       extensionValue nextId acc) in
            Pushed (fst r) (snd r)
        end
      else Continue.
Proof.
  unfold processRow, qualifies, rowMatches, cellText, rowExtensionRaw,
    rowNameRaw, rowDepartmentRaw; cbv zeta.
  destruct (forallb isBlankCell row); [reflexivity|].
  rewrite value_bind, value_mapM_cached, !map_map, !existsb_map.
  destruct (existsb _ row && _); [reflexivity|].
  rewrite value_bind, shouldStopProcessing_value, !isEmpty_length.
  destruct (shouldStop _ _ _); [reflexivity|].
  destruct (negb (isEmpty _) || _); [|reflexivity].
  destruct (filter keepName _); [reflexivity|].
  rewrite value_bind; reflexivity.
Qed.

Lemma processRows_cut (cm : ColumnMap) (row : Row) (post : list Row) :
  (forall nextId acc, value (processRow cm row nextId acc) = Break) ->
  forall (pre : list Row) (nextId : N) (acc : list Personnel),
    value (processRows cm (pre ++ row :: post) nextId acc)
    = value (processRows cm pre nextId acc).
Proof.
  intros Hbreak pre; induction pre as [|r pre IH]; intros nextId acc.
  - cbn [app processRows]; rewrite value_bind, Hbreak; reflexivity.
  - cbn [app processRows]; rewrite !value_bind.
    destruct (value (processRow cm r nextId acc)); [apply IH | reflexivity | apply IH].
Qed.

Lemma findHeader_index (rows : list Row) : forall base mapping,
  findHeader rows base = Some mapping -> (base <= headerRowIndex mapping)%Z.
Proof.
  induction rows as [|r rest IH]; intros base mapping; cbn [findHeader];
    [discriminate|].
  destruct (qualifies r).
  - intros E; injection E as <-; simpl; lia.
  - intros E; apply IH in E; lia.
Qed.

Lemma findHeader_firstn (rows : list Row) : forall (k : nat) base mapping,
  findHeader rows base = Some mapping ->
  (headerRowIndex mapping < base + Z.of_nat k)%Z ->
  findHeader (firstn k rows) base = Some mapping.
Proof.
  induction rows as [|r rest IH]; intros k base mapping; cbn [findHeader];
    [discriminate|].
  destruct (qualifies r) eqn:Hq.
  - intros E Hk; injection E as <-; simpl in Hk.
    destruct k as [|k]; [lia|]; cbn [firstn findHeader]; rewrite Hq; reflexivity.
  - intros E Hk; pose proof (findHeader_index _ _ E) as Hidx.
    destruct k as [|k]; [lia|]; cbn [firstn findHeader]; rewrite Hq.
    apply IH; [exact E | lia].
Qed.

Lemma findHeader_firstn_none (rows : list Row) : forall (k : nat) base,
  findHeader rows base = None -> findHeader (firstn k rows) base = None.
Proof.
  induction rows as [|r rest IH]; intros k base; destruct k as [|k];
    cbn [firstn findHeader]; try reflexivity.
  destruct (qualifies r); [discriminate | apply IH].
Qed.

(** Header detection reads the same on the grid cut at a row the data
    loop reaches. *)
Lemma detectHeaderMapping_firstn (rawData : list Row) (i : nat) :
  (dataStartIndex (value (detectHeaderMapping rawData)) <= i)%nat ->
  value (detectHeaderMapping (firstn i rawData))
  = value (detectHeaderMapping rawData).
Proof.
  rewrite !detectHeaderMapping_value, firstn_firstn, Nat.min_comm,
    <- firstn_firstn.
  destruct (findHeader (firstn HEADER_SCAN_ROWS rawData) 0) as [mapping|] eqn:E.
  - intros Hstart.
    pose proof (findHeader_index _ _ E) as Hidx.
    rewrite findHeader_firstn with (mapping := mapping);
      [reflexivity | exact E |].
    unfold dataStartIndex in Hstart.
    destruct (Z.leb 0 (headerRowIndex mapping)) eqn:Hpos; lia.
  - intros _; rewrite findHeader_firstn_none by exact E; reflexivity.
Qed.

Lemma processExcelData_value (rawData : list Row) :
  value (processExcelData rawData)
  = value (processRows (columnMap (value (detectHeaderMapping rawData)))
             (skipn (dataStartIndex (value (detectHeaderMapping rawData)))
                    rawData) 1 []).
Proof. unfold processExcelData; rewrite value_bind; reflexivity. Qed.

Lemma pushRecords_invariant (names : list jsstring) (dept ev : jsstring)
    (Q : Personnel -> Prop) :
  (forall n nextId,
      Q {| id := decimal nextId; name := n; department := dept;
           extension := if isEmpty ev then lit "N/A" else ev;
           searchableName := normalizeText n;
           searchableExtension := normalizeExtensionSearch ev |}) ->
  forall nextId acc,
    Forall Q acc ->
    Forall Q (snd (value (pushRecords names dept ev nextId acc))).
Proof.
  intros Hnew; induction names as [|n names IH]; intros nextId acc Hacc;
    cbn [pushRecords].
  - exact Hacc.
  - rewrite value_bind; cbn [cached value].
    apply IH, Forall_app; split; [exact Hacc|].
    constructor; [apply Hnew | constructor].
Qed.

Lemma processRows_invariant (cm : ColumnMap) (Q : Personnel -> Prop) :
  (forall names dept ev nextId acc,
      Forall Q acc ->
      Forall Q (snd (value (pushRecords names dept ev nextId acc)))) ->
  forall (rows : list Row) (nextId : N) (acc : list Personnel),
    Forall Q acc -> Forall Q (value (processRows cm rows nextId acc)).
Proof.
  intros Hpush rows; induction rows as [|row rows IH]; intros nextId acc Hacc;
    cbn [processRows].
  - exact Hacc.
  - rewrite value_bind.
    destruct (value (processRow cm row nextId acc)) as [| |nextId' acc'] eqn:E.
    + apply IH, Hacc.
    + exact Hacc.
    + apply IH.
      rewrite processRow_value in E.
      repeat match type of E with
             | (if ?b then _ else _) = _ => destruct b; try discriminate E
             | (let _ := _ in _) = _ => cbv zeta in E
             | match ?l with [] => _ | _ :: _ => _ end = _ =>
                 destruct l; try discriminate E
             end.
      all: match type of E with
           | context [value (pushRecords ?ns ?d ?e ?n ?a)] =>
               pose proof (Hpush ns d e n a Hacc) as Hp;
               remember (value (pushRecords ns d e n a)) as res
           end;
        injection E as _ <-; exact Hp.
Qed.

End Extraction.

Section Laws.
Context {P : Platform} {L : PlatformLaws P}.

Lemma asciiLower_ascii (s : jsstring) :
  isAscii s = true -> isAscii (map asciiLower s) = true.
Proof.
  unfold isAscii; induction s as [|c s IH]; simpl; [reflexivity|].
  rewrite !andb_true_iff; intros [Hc Hs]; split; [|apply IH, Hs].
  unfold asciiLower, inRange.
  destruct (N.leb 65 c && N.leb c 90) eqn:E; [|exact Hc].
  apply andb_true_iff in E; destruct E as [_ E].
  apply N.leb_le in E; apply N.ltb_lt; lia.
Qed.

Lemma normalizeText_ascii (s : jsstring) :
  isAscii s = true ->
  normalizeText s
  = trim (filter (fun c => isWordChar c || isWhitespace c)
            (collapseSeparators false
               (filter (fun c => negb (inRange 768 879 c))
                  (map asciiLower s)))).
Proof.
  intros Hs; unfold normalizeText.
  rewrite (toLowerCase_ascii s Hs).
  rewrite (normalizeNFD_ascii _ (asciiLower_ascii s Hs)); reflexivity.
Qed.

Lemma toLowerCase_nil : toLowerCase [] = [].
Proof. rewrite toLowerCase_ascii; reflexivity. Qed.

Lemma normalizeText_nil : normalizeText [] = [].
Proof. rewrite normalizeText_ascii; reflexivity. Qed.

Lemma STOP_TOKEN_NORMALIZED_value : STOP_TOKEN_NORMALIZED = sentinels.
Proof.
  unfold STOP_TOKEN_NORMALIZED.
  rewrite (proj1 (@run_value _ _ moduleInit [] (Forall_nil _))).
  unfold moduleInit; rewrite value_mapM_cached; unfold sentinels.
  cbn [map]; rewrite !normalizeText_ascii by reflexivity.
  vm_compute; reflexivity.
Qed.

Lemma blank_cell_no_sentinel (cell : Cell) :
  isBlankCell cell = true ->
  existsb (fun token => includes (cellText cell) token) sentinels = false.
Proof.
  unfold cellText.
  destruct cell as [| |s|n|[|]| |printed];
    cbn [isBlankCell normalizeCellValue];
    intros Hblank; try discriminate Hblank.
  - rewrite normalizeText_nil; reflexivity.
  - rewrite normalizeText_nil; reflexivity.
  - destruct s; [|discriminate Hblank].
    change (trim []) with (@nil N); rewrite normalizeText_nil; reflexivity.
  - apply Z.eqb_eq in Hblank; subst n.
    rewrite normalizeText_ascii by reflexivity; vm_compute; reflexivity.
  - rewrite normalizeText_ascii by reflexivity; vm_compute; reflexivity.
  - rewrite normalizeText_ascii by reflexivity; vm_compute; reflexivity.
Qed.

Lemma blank_row_no_sentinel (row : Row) :
  forallb isBlankCell row = true -> hasSentinel row = false.
Proof.
  unfold hasSentinel; induction row as [|cell row IH]; cbn [forallb existsb];
    [reflexivity|].
  rewrite andb_true_iff; intros [Hc Hr].
  rewrite (blank_cell_no_sentinel _ Hc), (IH Hr); reflexivity.
Qed.

Lemma sentinel_row_stops (row : Row) :
  hasSentinel row = true ->
  shouldStop (map normalizeCellValue row) false false = true.
Proof.
  unfold hasSentinel, shouldStop; cbn [orb].
  rewrite STOP_TOKEN_NORMALIZED_value, existsb_map.
  induction row as [|cell row IH]; cbn [existsb]; [discriminate|].
  intros Hs; apply orb_true_iff in Hs; apply orb_true_iff.
  destruct Hs as [Hs|Hs]; [left | right; apply IH, Hs].
  unfold cellText in Hs.
  destruct (normalizeCellValue cell) as [|c v] eqn:Ev.
  - rewrite normalizeText_nil in Hs; discriminate Hs.
  - cbn [isEmpty]; rewrite Hs.
    destruct (normalizeText (c :: v)); [discriminate Hs | reflexivity].
Qed.

(** C2. Once the row extractor reaches a row that it does not skip as a
    repeated header and that has no name, no numeric-looking extension and
    a cell whose normalized text contains one of the two sentinel phrases,
    no record is emitted for that row or for any later row: the parse
    gives the records of the grid cut before that row. *)
Theorem stop_row_discards_the_rest
    (rawData : list Row) (cache : Cache) (i : nat) (row : Row) :
  cache_ok cache ->
  nth_error rawData i = Some row ->
  (dataStartIndex (fst (run (detectHeaderMapping rawData) cache)) <= i)%nat ->
  qualifies row = false ->
  rowNameRaw (columnMap (fst (run (detectHeaderMapping rawData) cache))) row
  = [] ->
  isNumericExtension
    (rowExtensionRaw (columnMap (fst (run (detectHeaderMapping rawData) cache)))
                     row) = false ->
  hasSentinel row = true ->
  fst (run (processExcelData rawData) cache)
  = fst (run (processExcelData (firstn i rawData)) cache).
Proof.
  intros Hok Hnth.
  rewrite (proj1 (run_value (detectHeaderMapping rawData) Hok)).
  rewrite !(proj1 (run_value (processExcelData _) Hok)).
  intros Hstart Hq Hname Hnum Hsent.
  rewrite !processExcelData_value, (detectHeaderMapping_firstn _ Hstart).
  set (mapping := value (detectHeaderMapping rawData)) in *.
  rewrite skipn_firstn_comm.
  assert (Hrow : nth_error (skipn (dataStartIndex mapping) rawData)
                           (i - dataStartIndex mapping) = Some row).
  { rewrite nth_error_skipn.
    replace (dataStartIndex mapping + (i - dataStartIndex mapping))%nat
      with i by lia.
    exact Hnth. }
  rewrite <- (firstn_skipn_middle _ _ Hrow) at 1.
  apply processRows_cut; intros nextId acc.
  rewrite processRow_value.
  destruct (forallb isBlankCell row) eqn:Hblank.
  { rewrite (blank_row_no_sentinel _ Hblank) in Hsent; discriminate Hsent. }
  rewrite Hq; cbv zeta; rewrite Hname; cbn [isEmpty negb].
  replace (if isEmpty (rowExtensionRaw (columnMap mapping) row) then false
           else isNumericExtension (rowExtensionRaw (columnMap mapping) row))
    with false by (rewrite Hnum; destruct (isEmpty _); reflexivity).
  rewrite (sentinel_row_stops _ Hsent); reflexivity.
Qed.

Lemma isEmpty_filter_isDigit (s : jsstring) :
  isEmpty (filter isDigit s) = negb (hasDigit s).
Proof.
  unfold hasDigit; induction s as [|c s IH]; cbn [filter existsb];
    [reflexivity|].
  destruct (isDigit c); [reflexivity | exact IH].
Qed.

Lemma forallb_weaken {A : Type} (f g : A -> bool) (l : list A) :
  (forall a, f a = true -> g a = true) ->
  forallb f l = true -> forallb g l = true.
Proof.
  intros Hfg; rewrite !forallb_forall; intros Hf a Hin; apply Hfg, Hf, Hin.
Qed.

End Laws.

Import Samples Latin1.

(** The stop-row theorem at the sample directory, whose row 2 is the
    sentinel row: the row after it gives no record. *)
Lemma stop_row_on_sample :
  fst (run (processExcelData sheetWithStopRow) [])
  = fst (run (processExcelData (firstn 2 sheetWithStopRow)) []).
Proof.
  apply (@stop_row_discards_the_rest Latin1.platform Latin1Facts.latin1_laws
           sheetWithStopRow [] 2%nat stopRow).
  - constructor.
  - reflexivity.
  - vm_compute; lia.
  - vm_compute; reflexivity.
  - vm_compute; reflexivity.
  - vm_compute; reflexivity.
  - vm_compute; reflexivity.
Defined.

(** A sentinel row without name and without numeric extension that reads
    as a repeated header is skipped before the stop test: the row after it
    is emitted. *)
Lemma header_like_stop_row_does_not_stop :
  let mapping :=
    fst (run (detectHeaderMapping sheetWithHeaderLikeStopRow) initialCache) in
  nth_error sheetWithHeaderLikeStopRow 1 = Some headerLikeStopRow
  /\ dataStartIndex mapping = 1%nat
  /\ rowNameRaw (columnMap mapping) headerLikeStopRow = []
  /\ isNumericExtension (rowExtensionRaw (columnMap mapping) headerLikeStopRow)
     = false
  /\ hasSentinel headerLikeStopRow = true
  /\ map name
       (fst (run (processExcelData sheetWithHeaderLikeStopRow) initialCache))
     = [lit "Juan Perez"]
  /\ fst (run (processExcelData (firstn 1 sheetWithHeaderLikeStopRow))
              initialCache) = [].
Proof. vm_compute; repeat split; reflexivity. Qed.

End ParserFacts.

(** ** The search *)

Module SearchFacts.
Import JS Server Props Search NormalizerFacts.

Lemma length_dropWhile (p : N -> bool) (s : jsstring) :
  (length (dropWhile p s) <= length s)%nat.
Proof.
  induction s as [|c s IH]; simpl; [lia|].
  destruct (p c); simpl; lia.
Qed.

Lemma length_trim (s : jsstring) : (length (trim s) <= length s)%nat.
Proof.
  unfold trim; rewrite length_rev.
  pose proof (length_dropWhile isWhitespace (rev (dropWhile isWhitespace s))).
  pose proof (length_dropWhile isWhitespace s).
  rewrite length_rev in *; lia.
Qed.

Lemma addResults_dedup (items : list Personnel) :
  forall seen results,
    addResults seen results items
    = (seenAfter seen items, results ++ dedupFrom seen items).
Proof.
  induction items as [|item rest IH]; intros seen results;
    cbn [addResults seenAfter dedupFrom].
  - rewrite app_nil_r; reflexivity.
  - destruct (existsb (str_eqb (id item)) seen).
    + apply IH.
    + rewrite IH, <- app_assoc; reflexivity.
Qed.

Lemma dedupFrom_app (a b : list Personnel) : forall seen,
  dedupFrom seen (a ++ b) = dedupFrom seen a ++ dedupFrom (seenAfter seen a) b.
Proof.
  induction a as [|item a IH]; intros seen; cbn [app dedupFrom seenAfter];
    [reflexivity|].
  destruct (existsb (str_eqb (id item)) seen); [apply IH|].
  rewrite IH; reflexivity.
Qed.

Lemma isDigit_not_blank (c : N) :
  isDigit c = true -> isWhitespace c = false.
Proof.
  unfold isDigit, inRange; rewrite andb_true_iff, !N.leb_le; intros [Hlo Hhi].
  unfold isWhitespace, inRange.
  replace (N.leb c 13) with false by (symmetry; apply N.leb_gt; lia).
  replace (N.leb 8192 c) with false by (symmetry; apply N.leb_gt; lia).
  repeat match goal with
         | |- context [N.eqb c ?k] =>
             replace (N.eqb c k) with false
               by (symmetry; apply N.eqb_neq; lia)
         end.
  rewrite andb_false_r; reflexivity.
Qed.

Section Hook.
Variable norm : jsstring -> jsstring.

Lemma guard_passes (query : jsstring) :
  (2 <= length (trim query))%nat ->
  isEmpty (trim query) || Nat.ltb (length query) 2 = false.
Proof.
  intros Hlen; pose proof (length_trim query) as Hle.
  destruct (trim query); [simpl in Hlen; lia|]; cbn [isEmpty orb].
  apply Nat.ltb_ge; lia.
Qed.

Lemma map_person_hits (f : Personnel -> Hit) (l : list Personnel) :
  (forall p, person (f p) = p) -> map person (map f l) = l.
Proof.
  intros Hf; rewrite map_map; induction l as [|p l IH]; simpl;
    [reflexivity | rewrite Hf, IH; reflexivity].
Qed.

Lemma filteredResults_people (allPersonnel : list Personnel)
    (query : jsstring) :
  isEmpty (trim query) || Nat.ltb (length query) 2 = false ->
  map person (filteredResults norm allPersonnel query)
  = matchingPersonnel norm allPersonnel query.
Proof.
  intros Hguard; unfold filteredResults; rewrite Hguard.
  apply map_person_hits; reflexivity.
Qed.

(** The people of the name and department search when some record is an
    exact match. *)
Lemma matchingPersonnel_exact (allPersonnel : list Personnel)
    (query : jsstring) :
  isNumericQuery (numericQueryOf norm query) = false ->
  exactMatches norm allPersonnel query <> [] ->
  matchingPersonnel norm allPersonnel query
  = dedupById
      (filter (sharesExtension (exactMatches norm allPersonnel query))
              allPersonnel
       ++ (if Nat.eqb (length (searchTermsOf norm query)) 1
           then departmentMatches norm allPersonnel query else [])).
Proof.
  intros Hnum Hexact; unfold matchingPersonnel; rewrite Hnum.
  destruct (exactMatches norm allPersonnel query) as [|m ms] eqn:E;
    [contradiction|].
  assert (Hshare :
            filter (fun p => existsb (str_eqb (extension p))
                                     (map extension (m :: ms))) allPersonnel
            = filter (sharesExtension (m :: ms)) allPersonnel).
  { apply filter_ext; intros p; unfold sharesExtension.
    rewrite ParserFacts.existsb_map; reflexivity. }
  rewrite Hshare, !addResults_dedup; cbn [fst snd app].
  unfold dedupById; rewrite dedupFrom_app.
  destruct (Nat.eqb (length (searchTermsOf norm query)) 1).
  - rewrite andb_true_r.
    destruct (departmentMatches norm allPersonnel query) as [|d ds] eqn:Ed.
    + cbn [length Nat.ltb Nat.leb dedupFrom]; rewrite app_nil_r; reflexivity.
    + cbn [length Nat.ltb Nat.leb]; reflexivity.
  - rewrite andb_false_r; cbn [dedupFrom]; rewrite app_nil_r; reflexivity.
Qed.

(** The records of the name and department search before the
    de-duplication. *)
Lemma matchingPersonnel_text (allPersonnel : list Personnel)
    (query : jsstring) :
  isNumericQuery (numericQueryOf norm query) = false ->
  matchingPersonnel norm allPersonnel query
  = dedupById
      (match exactMatches norm allPersonnel query with
       | [] => fallbackMatches norm allPersonnel query
       | _ :: _ =>
           filter (sharesExtension (exactMatches norm allPersonnel query))
                  allPersonnel
       end
       ++ (if Nat.eqb (length (searchTermsOf norm query)) 1
           then departmentMatches norm allPersonnel query else [])).
Proof.
  intros Hnum.
  destruct (exactMatches norm allPersonnel query) as [|m ms] eqn:E.
  - unfold matchingPersonnel; rewrite Hnum, E, !addResults_dedup.
    cbn [fst snd app]; unfold dedupById; rewrite dedupFrom_app.
    destruct (Nat.eqb (length (searchTermsOf norm query)) 1).
    + rewrite andb_true_r.
      destruct (departmentMatches norm allPersonnel query) as [|d ds];
        [|reflexivity].
      cbn [length Nat.ltb Nat.leb dedupFrom]; rewrite app_nil_r; reflexivity.
    + rewrite andb_false_r; cbn [dedupFrom]; rewrite app_nil_r; reflexivity.
  - rewrite <- E; apply matchingPersonnel_exact; [exact Hnum|].
    rewrite E; discriminate.
Qed.

Lemma numericQuery_digits (s : jsstring) :
  digitsAndBlanks s = true ->
  filter (fun c => negb (isWhitespace c)) s = digitsOnlyVariant s.
Proof.
  unfold digitsAndBlanks, digitsOnlyVariant.
  induction s as [|c s IH]; cbn [forallb filter]; [reflexivity|].
  rewrite andb_true_iff; intros [Hc Hs]; rewrite (IH Hs).
  destruct (isDigit c) eqn:Hd.
  - rewrite (isDigit_not_blank _ Hd); reflexivity.
  - cbn [orb] in Hc; rewrite Hc; reflexivity.
Qed.

Lemma digits_without_blanks (s : jsstring) :
  forallb isDigit (filter (fun c => negb (isWhitespace c)) s)
  = digitsAndBlanks s.
Proof.
  unfold digitsAndBlanks.
  induction s as [|c s IH]; cbn [forallb filter]; [reflexivity|].
  destruct (isWhitespace c); cbn [negb forallb].
  - rewrite orb_true_r; exact IH.
  - rewrite orb_false_r, IH; reflexivity.
Qed.

(** The branch test of the search, on the normalized query. *)
Lemma isNumericQuery_test (query : jsstring) :
  isNumericQuery (numericQueryOf norm query)
  = digitsAndBlanks (normalizedQueryOf norm query)
    && hasDigit (normalizedQueryOf norm query).
Proof.
  unfold isNumericQuery, numericQueryOf; rewrite digits_without_blanks.
  destruct (digitsAndBlanks (normalizedQueryOf norm query)) eqn:E;
    [|apply andb_false_r].
  rewrite (numericQuery_digits _ E), andb_true_r; unfold digitsOnlyVariant.
  unfold nonEmpty; rewrite ParserFacts.isEmpty_filter_isDigit.
  apply negb_involutive.
Qed.

(** C4. For a query of trimmed length at least 2: when its normalized form
    is made of digits and whitespace only, with a digit at least, the
    search returns exactly the records whose [searchableExtension] contains
    the digits-only variant of the query, in the order of the directory,
    and names and departments play no part; when the normalized form holds
    any other character, or no digit, the search is the name and department
    search, whatever its digits-only variant. *)
Theorem numeric_query_is_extension_search
    (allPersonnel : list Personnel) (query : jsstring) :
  (2 <= length (trim query))%nat ->
  (digitsAndBlanks (normalizedQueryOf norm query) = true ->
   hasDigit (normalizedQueryOf norm query) = true ->
   map person (filteredResults norm allPersonnel query)
   = filter (fun p =>
               includes (searchableExtension p)
                        (digitsOnlyVariant (normalizedQueryOf norm query)))
            allPersonnel)
  /\ (digitsAndBlanks (normalizedQueryOf norm query)
      && hasDigit (normalizedQueryOf norm query) = false ->
      map person (filteredResults norm allPersonnel query)
      = dedupById
          (match exactMatches norm allPersonnel query with
           | [] => fallbackMatches norm allPersonnel query
           | _ :: _ =>
               filter (sharesExtension (exactMatches norm allPersonnel query))
                      allPersonnel
           end
           ++ (if Nat.eqb (length (searchTermsOf norm query)) 1
               then departmentMatches norm allPersonnel query else []))).
Proof.
  intros Hlen; rewrite filteredResults_people by (apply guard_passes, Hlen).
  split.
  - intros Hshape Hdigit; unfold matchingPersonnel.
    rewrite isNumericQuery_test, Hshape, Hdigit; cbn [andb].
    unfold numericQueryOf; rewrite (numericQuery_digits _ Hshape).
    reflexivity.
  - intros Hnot; apply matchingPersonnel_text.
    rewrite isNumericQuery_test; exact Hnot.
Qed.

(** What the guard of the search does give: for every query whose trimmed
    form is empty or whose length, blanks included, is below 2 the result
    is empty. *)
Theorem short_query_gives_nothing
    (allPersonnel : list Personnel) (query : jsstring) :
  trim query = [] \/ (length query < 2)%nat ->
  filteredResults norm allPersonnel query = [].
Proof.
  intros [Hblank|Hshort]; unfold filteredResults.
  - rewrite Hblank; reflexivity.
  - replace (Nat.ltb (length query) 2) with true
      by (symmetry; apply Nat.ltb_lt; exact Hshort).
    rewrite orb_true_r; reflexivity.
Qed.

End Hook.

Import Samples Latin1.

Lemma perez_finds_juan_and_ana (d1 d2 : jsstring) :
  matchingPersonnel normalizeText [juan d1; ana d2] (lit "perez")
  = [juan d1; ana d2].
Proof.
  rewrite matchingPersonnel_exact;
    [| vm_compute; reflexivity | vm_compute; discriminate].
  replace (exactMatches normalizeText [juan d1; ana d2] (lit "perez"))
    with [juan d1] by (vm_compute; reflexivity).
  replace (Nat.eqb (length (searchTermsOf normalizeText (lit "perez"))) 1)
    with true by (vm_compute; reflexivity).
  replace (filter (sharesExtension [juan d1]) [juan d1; ana d2])
    with [juan d1; ana d2] by (vm_compute; reflexivity).
  unfold departmentMatches; cbn [filter].
  destruct (includes _ _), (includes _ _); vm_compute; reflexivity.
Qed.

(** C3. In the name and department search (the query passes the length
    test and is not numeric), when some record is an exact match the
    result is, de-duplicated by id in first-seen order, the records whose
    extension is the extension of an exact match, followed, when the query
    has exactly one term, by the records whose department matches the
    query.  Over Juan Perez and Ana Gomez, both at extension 101 and in
    any departments, the query perez returns both, Juan Perez with score 2
    and Ana Gomez with score 0. *)
Theorem exact_matches_expand_by_extension :
  (forall (norm : jsstring -> jsstring) (allPersonnel : list Personnel)
          (query : jsstring),
      isEmpty (trim query) || Nat.ltb (length query) 2 = false ->
      isNumericQuery (numericQueryOf norm query) = false ->
      exactMatches norm allPersonnel query <> [] ->
      map person (filteredResults norm allPersonnel query)
      = dedupById
          (filter (sharesExtension (exactMatches norm allPersonnel query))
                  allPersonnel
           ++ (if Nat.eqb (length (searchTermsOf norm query)) 1
               then departmentMatches norm allPersonnel query else [])))
  /\ (forall d1 d2 : jsstring,
         map (fun h => (person h, searchScore h))
             (filteredResults normalizeText [juan d1; ana d2] (lit "perez"))
         = [(juan d1, 2%Z); (ana d2, 0%Z)]).
Proof.
  split.
  - intros norm allPersonnel query Hguard Hnum Hexact.
    rewrite filteredResults_people by exact Hguard.
    apply matchingPersonnel_exact; assumption.
  - intros d1 d2; unfold filteredResults.
    replace (isEmpty (trim (lit "perez")) || Nat.ltb (length (lit "perez")) 2)
      with false by (vm_compute; reflexivity).
    rewrite perez_finds_juan_and_ana; vm_compute; reflexivity.
Qed.

(** The theorem at the sample directory: Luis joins through his
    department. *)
Lemma expansion_on_sample :
  map person (filteredResults normalizeText directory (lit "perez"))
  = directory.
Proof.
  rewrite (proj1 exact_matches_expand_by_extension normalizeText directory
             (lit "perez"));
    [ vm_compute; reflexivity
    | vm_compute; reflexivity
    | vm_compute; reflexivity
    | vm_compute; discriminate ].
Defined.

(** The only exact match for perez is Juan, and Luis, who is at another
    extension, is returned too: his department matches the query. *)
Lemma department_match_joins_exact_matches :
  exactMatches normalizeText directory (lit "perez") = [juan (lit "Ventas")]
  /\ dedupById (filter (sharesExtension [juan (lit "Ventas")]) directory)
     = [juan (lit "Ventas"); ana (lit "Ventas")]
  /\ map person (filteredResults normalizeText directory (lit "perez"))
     = [juan (lit "Ventas"); ana (lit "Ventas"); luis]
  /\ extension luis <> extension (juan (lit "Ventas")).
Proof. vm_compute; repeat split; try reflexivity; discriminate. Qed.

(** The query 10 1 at the sample directory: the blank is dropped and the
    two people at extension 101 are found. *)
Lemma numeric_query_on_sample :
  map person (filteredResults normalizeText directory (lit "10 1"))
  = [juan (lit "Ventas"); ana (lit "Ventas")].
Proof.
  assert (Hlen : (2 <= length (trim (lit "10 1")))%nat)
    by (vm_compute; lia).
  rewrite (proj1 (@numeric_query_is_extension_search normalizeText directory
                    (lit "10 1") Hlen));
    vm_compute; reflexivity.
Defined.

(** The query a1: its digits-only variant is 1, non-empty and numeric,
    and every extension of the directory contains it; the search is by
    name and department all the same, and finds nobody. *)
Lemma letter_and_digit_is_searched_by_name :
  length (trim (lit "a1")) = 2%nat
  /\ digitsOnlyVariant (normalizedQueryOf normalizeText (lit "a1")) = lit "1"
  /\ filter (fun p => includes (searchableExtension p) (lit "1")) directory
     = directory
  /\ filteredResults normalizeText directory (lit "a1") = [].
Proof. vm_compute; repeat split; reflexivity. Qed.

(** The query of one letter at the sample directory. *)
Lemma short_query_on_sample :
  filteredResults normalizeText directory (lit "a") = [].
Proof.
  apply (@short_query_gives_nothing normalizeText directory (lit "a")).
  right; vm_compute; lia.
Defined.

(** C5. The query made of a blank and the letter a has a trimmed form of
    one character, and yet the search runs on it and returns records: the
    length test of the guard reads the query with its blanks. *)
Theorem padded_letter_is_searched :
  length (trim (lit " a")) = 1%nat
  /\ map (fun h => name (person h))
         (filteredResults normalizeText directory (lit " a"))
     = [lit "Juan Perez"; lit "Ana Gomez"].
Proof. vm_compute; split; reflexivity. Qed.

End SearchFacts.

(** ** The directory cache *)

Module CacheFacts.
Import JS Server Props.

Lemma nth_error_replace_other {A : Type} (a : A) (l : list A) :
  forall n k, k <> n -> nth_error (replace n a l) k = nth_error l k.
Proof.
  induction l as [|b l IH]; intros n k Hk; destruct n, k; simpl;
    try reflexivity; try contradiction.
  apply IH; intros E; apply Hk; f_equal; exact E.
Qed.

Lemma nth_error_replace_same {A : Type} (a b : A) (l : list A) :
  forall n, nth_error (replace n a l) n = Some b -> b = a.
Proof.
  induction l as [|c l IH]; intros n; destruct n; simpl; try discriminate.
  - intros E; injection E; auto.
  - apply IH.
Qed.

Lemma nth_error_replace {A : Type} (a b : A) (l : list A) (n k : nat) :
  nth_error (replace n a l) k = Some b ->
  (k = n /\ b = a) \/ (k <> n /\ nth_error l k = Some b).
Proof.
  intros E; destruct (Nat.eq_dec k n) as [->|Hk].
  - left; split; [reflexivity | eapply nth_error_replace_same; exact E].
  - right; split; [exact Hk|].
    rewrite nth_error_replace_other in E by exact Hk; exact E.
Qed.

Lemma nth_error_snoc {A : Type} (a b : A) (l : list A) (k : nat) :
  nth_error (l ++ [a]) k = Some b ->
  nth_error l k = Some b \/ (k = length l /\ b = a).
Proof.
  intros E; destruct (Nat.lt_ge_cases k (length l)) as [Hlt|Hge].
  - left; rewrite nth_error_app1 in E by exact Hlt; exact E.
  - right; rewrite nth_error_app2 in E by exact Hge.
    destruct (k - length l)%nat as [|d] eqn:Ed; simpl in E.
    + split; [lia | injection E; auto].
    + destruct d; discriminate E.
Qed.





Section EventLoop.
Context {P : Platform}.






End EventLoop.

Import Samples Latin1.




End CacheFacts.

(** ** Strings *)

Module StringFacts.
Import JS Server MoreProps.

Lemma dropWhile_head (p : N -> bool) (s : jsstring) (c : N) (r : jsstring) :
  dropWhile p s = c :: r -> p c = false.
Proof.
  induction s as [|d s IH]; simpl; [discriminate|].
  destruct (p d) eqn:E; [exact IH|].
  intros H; injection H as -> _; exact E.
Qed.

Lemma dropWhile_suffix (p : N -> bool) (s : jsstring) :
  exists pre, s = pre ++ dropWhile p s /\ forallb p pre = true.
Proof.
  induction s as [|d s (pre & E & Hp)]; simpl.
  - exists []; split; reflexivity.
  - destruct (p d) eqn:Ed.
    + exists (d :: pre); simpl; rewrite Ed, Hp, <- E; split; reflexivity.
    + exists []; split; reflexivity.
Qed.

Lemma dropWhile_same (p : N -> bool) (s : jsstring) :
  match s with [] => True | c :: _ => p c = false end -> dropWhile p s = s.
Proof. destruct s as [|c s]; simpl; [reflexivity | intros ->; reflexivity]. Qed.

Lemma In_dropWhile (p : N -> bool) (s : jsstring) (c : N) :
  In c (dropWhile p s) -> In c s.
Proof.
  destruct (dropWhile_suffix p s) as (pre & E & _); intros H.
  rewrite E; apply in_or_app; right; exact H.
Qed.

Lemma In_trim (s : jsstring) (c : N) : In c (trim s) -> In c s.
Proof.
  unfold trim; intros H; apply in_rev in H.
  apply In_dropWhile in H; apply in_rev in H.
  apply In_dropWhile in H; exact H.
Qed.

Lemma trim_noBlankEnds (s : jsstring) : noBlankEnds (trim s).
Proof.
  unfold noBlankEnds, trim; rewrite rev_involutive.
  set (t := dropWhile isWhitespace s).
  set (u := dropWhile isWhitespace (rev t)); split.
  - destruct (rev u) as [|c r] eqn:Er; [exact I|].
    destruct (dropWhile_suffix isWhitespace (rev t)) as (pre & E & _).
    fold u in E.
    assert (Et : t = (c :: r) ++ rev pre).
    { rewrite <- Er, <- rev_app_distr, <- E, rev_involutive; reflexivity. }
    apply (dropWhile_head isWhitespace s (r := r ++ rev pre)); exact Et.
  - destruct u as [|c r] eqn:Eu; [exact I|].
    apply (dropWhile_head isWhitespace (rev t) (r := r)); exact Eu.
Qed.

Lemma trim_same (s : jsstring) : noBlankEnds s -> trim s = s.
Proof.
  intros [Hhead Hlast]; unfold trim.
  rewrite (dropWhile_same isWhitespace s Hhead).
  rewrite (dropWhile_same isWhitespace (rev s) Hlast).
  apply rev_involutive.
Qed.

Lemma startsWith_app (w t : jsstring) :
  startsWith w t = true <-> exists post, w = t ++ post.
Proof.
  revert w; induction t as [|c t IH]; intros w; destruct w as [|d w];
    cbn [startsWith app].
  - split; [intros _; exists []; reflexivity | reflexivity].
  - split; [intros _; exists (d :: w); reflexivity | reflexivity].
  - split; [discriminate | intros (post & E); discriminate E].
  - rewrite andb_true_iff, N.eqb_eq, IH; split.
    + intros [-> (post & ->)]; exists post; reflexivity.
    + intros (post & E); injection E as -> ->; split; [reflexivity|].
      exists post; reflexivity.
Qed.

Lemma includes_app (s t : jsstring) :
  includes s t = true <-> exists pre post, s = pre ++ t ++ post.
Proof.
  induction s as [|c s IH]; cbn [includes].
  - rewrite orb_false_r, startsWith_app; split.
    + intros (post & E); exists [], post; exact E.
    + intros (pre & post & E).
      destruct pre; [exists post; exact E | discriminate E].
  - rewrite orb_true_iff, startsWith_app, IH; split.
    + intros [(post & E)|(pre & post & E)].
      * exists [], post; exact E.
      * exists (c :: pre), post; rewrite E; reflexivity.
    + intros (pre & post & E); destruct pre as [|d pre].
      * left; exists post; exact E.
      * right; injection E as _ E; exists pre, post; exact E.
Qed.

Lemma includes_trans (a b c : jsstring) :
  includes a b = true -> includes b c = true -> includes a c = true.
Proof.
  rewrite !includes_app.
  intros (p1 & q1 & ->) (p2 & q2 & ->).
  exists (p1 ++ p2), (q2 ++ q1); rewrite <- !app_assoc; reflexivity.
Qed.

Lemma startsWith_includes (w t : jsstring) :
  startsWith w t = true -> includes w t = true.
Proof.
  rewrite startsWith_app, includes_app.
  intros (post & ->); exists [], post; reflexivity.
Qed.

(** A piece of [s.split(sep)] is a part of [s]. *)
Lemma splitOn_part (sep : N) (s : jsstring) : forall cur w,
  In w (splitOn sep cur s) ->
  exists pre post, rev cur ++ s = pre ++ w ++ post.
Proof.
  induction s as [|c s IH]; intros cur w; cbn [splitOn].
  - intros [<-|[]]; exists [], []; rewrite !app_nil_r; reflexivity.
  - destruct (N.eqb c sep).
    + intros [<-|H].
      * exists [], (c :: s); reflexivity.
      * apply IH in H; destruct H as (pre & post & E); simpl in E.
        exists (rev cur ++ c :: pre), post.
        rewrite E, <- app_assoc; reflexivity.
    + intros H; apply IH in H; destruct H as (pre & post & E).
      exists pre, post; rewrite <- E; simpl; rewrite <- app_assoc; reflexivity.
Qed.

Lemma split_includes (sep : N) (s w : jsstring) :
  In w (split sep s) -> includes s w = true.
Proof.
  intros H; apply splitOn_part in H; apply includes_app; exact H.
Qed.

End StringFacts.

(** ** The helpers of the parser and the memo cache *)

Module HelperFacts.
Import JS Server Props MoreProps NormalizerFacts StringFacts.

Lemma uniqueIndicesFrom_spec (indices : list Z) : forall seen,
  NoDup (uniqueIndicesFrom seen indices)
  /\ forall x, In x (uniqueIndicesFrom seen indices)
               <-> In x indices /\ (0 <= x)%Z /\ ~ In x seen.
Proof.
  induction indices as [|a l IH]; intros seen; cbn [uniqueIndicesFrom].
  - split; [constructor|]; intros x; split; [intros [] | intros [[] _]].
  - destruct (Z.ltb a 0) eqn:Hneg.
    + destruct (IH seen) as [Hnd Hin]; split; [exact Hnd|].
      intros x; rewrite Hin; split.
      * intros (H1 & H2 & H3); repeat split; auto; right; exact H1.
      * intros ([<-|H1] & H2 & H3); [apply Z.ltb_lt in Hneg; lia | auto].
    + apply Z.ltb_ge in Hneg.
      destruct (existsb (Z.eqb a) seen) eqn:Hseen.
      * apply existsb_exists in Hseen; destruct Hseen as (y & Hy & Ey).
        apply Z.eqb_eq in Ey; subst y.
        destruct (IH seen) as [Hnd Hin]; split; [exact Hnd|].
        intros x; rewrite Hin; split.
        -- intros (H1 & H2 & H3); repeat split; auto; right; exact H1.
        -- intros ([<-|H1] & H2 & H3); [contradiction | auto].
      * assert (Hnew : ~ In a seen).
        { intros Hin; assert (existsb (Z.eqb a) seen = true)
            by (apply existsb_exists; exists a; split;
                [exact Hin | apply Z.eqb_refl]).
          congruence. }
        destruct (IH (a :: seen)) as [Hnd Hin]; split.
        -- constructor; [|exact Hnd].
           intros Ha; apply Hin in Ha; destruct Ha as (_ & _ & Ha).
           apply Ha; left; reflexivity.
        -- intros x; cbn [In]; rewrite Hin; cbn [In]; split.
           ++ intros [<-|(H1 & H2 & H3)]; [auto|].
              repeat split; auto.
           ++ intros ([<-|H1] & H2 & H3); [left; reflexivity|].
              destruct (Z.eq_dec a x) as [->|Hne]; [left; reflexivity|].
              right; repeat split; auto; intros [E|E]; auto.
Qed.

(** X1. [uniqueIndices] returns the non-negative indices of its argument,
    each one once; an argument that starts with a non-negative index gives
    a result that starts with it. *)
Theorem uniqueIndices_distinct (indices : list Z) :
  NoDup (uniqueIndices indices)
  /\ (forall x, In x (uniqueIndices indices)
                <-> In x indices /\ (0 <= x)%Z)
  /\ match indices with
     | first :: _ =>
         if Z.leb 0 first then hd_error (uniqueIndices indices) = Some first
         else True
     | [] => uniqueIndices indices = []
     end.
Proof.
  unfold uniqueIndices.
  destruct (uniqueIndicesFrom_spec indices []) as [Hnd Hin].
  split; [exact Hnd|]; split.
  - intros x; rewrite Hin; split; [intros (H1 & H2 & _); auto|].
    intros (H1 & H2); repeat split; auto.
  - destruct indices as [|first rest]; [reflexivity|].
    destruct (Z.leb 0 first) eqn:E; [|exact I].
    cbn [uniqueIndicesFrom]; apply Z.leb_le in E.
    replace (Z.ltb first 0) with false by (symmetry; apply Z.ltb_ge; exact E).
    reflexivity.
Qed.

(** X2. [pickCellText] returns the text of the first listed cell that lies
    inside the row and is not blank, and the empty string when there is
    none. *)
Theorem pickCellText_first_filled (row : Row) (indices : list Z) :
  (pickCellText row indices = []
   /\ forall idx, In idx indices -> (0 <= idx < Z.of_nat (length row))%Z ->
                  normalizeCellValue (nth (Z.to_nat idx) row CUndefined) = [])
  \/ exists before idx after,
       indices = before ++ idx :: after
       /\ (0 <= idx < Z.of_nat (length row))%Z
       /\ pickCellText row indices
          = normalizeCellValue (nth (Z.to_nat idx) row CUndefined)
       /\ pickCellText row indices <> []
       /\ forall j, In j before -> (0 <= j < Z.of_nat (length row))%Z ->
                    normalizeCellValue (nth (Z.to_nat j) row CUndefined) = [].
Proof.
  induction indices as [|a l IH]; cbn [pickCellText].
  - left; split; [reflexivity | intros idx []].
  - destruct (Z.ltb a 0 || Z.leb (Z.of_nat (length row)) a) eqn:Hout.
    + assert (Ha : ~ (0 <= a < Z.of_nat (length row))%Z).
      { apply orb_true_iff in Hout; destruct Hout as [H|H];
          [apply Z.ltb_lt in H | apply Z.leb_le in H]; lia. }
      destruct IH as [[E Hall]|(before & idx & after & -> & Hin & E & Hne & Hb)].
      * left; split; [exact E|].
        intros idx [<-|Hidx] Hr; [contradiction | apply Hall; assumption].
      * right; exists (a :: before), idx, after; repeat split; auto; try lia.
        intros j [<-|Hj] Hr; [contradiction | apply Hb; assumption].
    + apply orb_false_iff in Hout; destruct Hout as [H1 H2].
      apply Z.ltb_ge in H1; apply Z.leb_gt in H2.
      destruct (normalizeCellValue (nth (Z.to_nat a) row CUndefined))
        as [|c v] eqn:Ev; cbn [isEmpty].
      * destruct IH
          as [[E Hall]|(before & idx & after & -> & Hin & E & Hne & Hb)].
        -- left; split; [exact E|].
           intros idx [<-|Hidx] Hr; [exact Ev | apply Hall; assumption].
        -- right; exists (a :: before), idx, after; repeat split; auto;
             try lia.
           intros j [<-|Hj] Hr; [exact Ev | apply Hb; assumption].
      * right; exists [], a, l; repeat split; auto; try lia.
        -- discriminate.
        -- intros j [].
Qed.

Lemma matchSeparator_cut (c : N) (s : jsstring) :
  isCut c = true -> exists k, matchSeparator (c :: s) = Some (S k).
Proof.
  unfold isCut; intros Hc.
  destruct (N.eqb c 10) eqn:Hlf.
  - apply N.eqb_eq in Hlf; subst c; unfold matchSeparator.
    cbn [takeWhile dropWhile].
    change (isWhitespace 10) with true; change (N.eqb 10 10) with true.
    cbv iota; cbn [length Nat.add].
    destruct (dropWhile isWhitespace s) as [|d after]; [eauto|].
    destruct (N.eqb d 47 || N.eqb d 59 || N.eqb d 124); eauto.
  - rewrite orb_false_r in Hc.
    assert (Hws : isWhitespace c = false).
    { repeat (apply orb_true_iff in Hc; destruct Hc as [Hc|Hc]);
        apply N.eqb_eq in Hc; subst c; reflexivity. }
    unfold matchSeparator; cbn [takeWhile dropWhile]; rewrite Hws.
    cbn [length]; rewrite Hc; eauto.
Qed.

Lemma splitSeparators_no_cut (s : jsstring) : forall skip cur,
  forallb (fun c => negb (isCut c)) cur = true ->
  Forall (fun piece => forallb (fun c => negb (isCut c)) piece = true)
         (splitSeparators skip cur s).
Proof.
  induction s as [|c s IH]; intros skip cur Hcur; cbn [splitSeparators].
  - constructor; [|constructor].
    rewrite forallb_forall in *; intros x Hx; apply Hcur, in_rev, Hx.
  - destruct skip as [|k]; [|apply IH, Hcur].
    assert (Hrev : forallb (fun c => negb (isCut c)) (rev cur) = true).
    { rewrite forallb_forall in *; intros x Hx; apply Hcur, in_rev, Hx. }
    destruct (matchSeparator (c :: s)) as [[|k]|] eqn:Em.
    + apply IH; cbn [forallb]; rewrite Hcur, andb_true_r.
      destruct (isCut c) eqn:Hc; [|reflexivity].
      destruct (matchSeparator_cut c s Hc) as (k & E); congruence.
    + constructor; [exact Hrev | apply IH; reflexivity].
    + apply IH; cbn [forallb]; rewrite Hcur, andb_true_r.
      destruct (isCut c) eqn:Hc; [|reflexivity].
      destruct (matchSeparator_cut c s Hc) as (k & E); congruence.
Qed.

Lemma In_splitNames (value name : jsstring) :
  In name (splitNames value) ->
  name <> []
  /\ noBlankEnds name
  /\ forallb (fun c => negb (isCut c)) name = true.
Proof.
  unfold splitNames; intros H; apply filter_In in H; destruct H as [H Hne].
  apply in_map_iff in H; destruct H as (piece & <- & Hpiece).
  split; [destruct (trim piece); [discriminate Hne | discriminate]|].
  split; [apply trim_noBlankEnds|].
  pose proof (splitSeparators_no_cut value 0 [] eq_refl) as Hall.
  rewrite Forall_forall in Hall; specialize (Hall piece Hpiece).
  rewrite forallb_forall in *; intros c Hc; apply Hall, In_trim, Hc.
Qed.

(** X3. Every name [splitNames] returns is non-empty, neither starts nor
    ends with whitespace, and holds no slash, semicolon, bar or line
    feed. *)
Theorem splitNames_pieces (value name : jsstring) :
  In name (splitNames value) ->
  name <> []
  /\ noBlankEnds name
  /\ forallb (fun c => negb (isCut c)) name = true.
Proof.
  apply In_splitNames.
Qed.

(** X4. [normalizeExtensionValue] removes nothing, or a final point with
    the zeros after it (one at least); a value without point is returned
    as it is. *)
Theorem normalizeExtensionValue_suffix (value : jsstring) :
  (exists suffix,
      value = normalizeExtensionValue value ++ suffix
      /\ (suffix = []
          \/ exists zeros, suffix = 46%N :: zeros /\ zeros <> []
                           /\ forallb (N.eqb 48) zeros = true))
  /\ (~ In 46%N value -> normalizeExtensionValue value = value).
Proof.
  assert (Hshape : exists suffix,
             value = normalizeExtensionValue value ++ suffix
             /\ (suffix = []
                 \/ exists zeros, suffix = 46%N :: zeros /\ zeros <> []
                                  /\ forallb (N.eqb 48) zeros = true)).
  { unfold normalizeExtensionValue.
    destruct (rev value) as [|c r] eqn:Er;
      [exists []; rewrite app_nil_r; auto|].
    destruct (N.eqb c 48) eqn:Ec; [|exists []; rewrite app_nil_r; auto].
    destruct (dropWhile_suffix (N.eqb 48) (c :: r)) as (pre & E & Hpre).
    destruct (dropWhile (N.eqb 48) (c :: r)) as [|d before] eqn:Ed;
      [exists []; rewrite app_nil_r; auto|].
    destruct (N.eqb d 46) eqn:Edot; [|exists []; rewrite app_nil_r; auto].
    apply N.eqb_eq in Edot; subst d.
    exists (46%N :: rev pre); split.
    - rewrite <- (rev_involutive value), Er, E, rev_app_distr; cbn [rev].
      rewrite <- !app_assoc; reflexivity.
    - right; exists (rev pre); split; [reflexivity|]; split.
      + destruct pre as [|x pre]; [|cbn [rev]; intros H;
                                    apply app_eq_nil in H; destruct H;
                                    discriminate].
        cbn [app] in E; injection E as E _.
        apply N.eqb_eq in Ec; subst c; discriminate E.
      + rewrite forallb_forall in *; intros x Hx; apply Hpre, in_rev, Hx. }
  split; [exact Hshape|].
  intros Hno; destruct Hshape as (suffix & E & [->|(zeros & -> & _)]).
  - rewrite app_nil_r in E; symmetry; exact E.
  - exfalso; apply Hno; rewrite E; apply in_or_app; right; left; reflexivity.
Qed.

Section Normalizer.
Context {P : Platform}.

Lemma In_collapseSeparators (s : jsstring) : forall inRun c,
  In c (collapseSeparators inRun s) ->
  c = 32%N \/ isWhitespace c = false.
Proof.
  induction s as [|d s IH]; intros inRun c; cbn [collapseSeparators];
    [intros []|].
  destruct (N.eqb d 44 || isWhitespace d || N.eqb d 45) eqn:Hsep.
  - destruct inRun; [apply IH|].
    intros [<-|H]; [left; reflexivity | eapply IH; exact H].
  - intros [<-|H]; [|eapply IH; exact H].
    right; apply orb_false_iff in Hsep; destruct Hsep as [Hsep _].
    apply orb_false_iff in Hsep; destruct Hsep as [_ Hws]; exact Hws.
Qed.

(** X5. Whatever the text, its normalized form consists of word characters
    (letters A-Z and a-z, digits, underscore) and spaces, and neither
    starts nor ends with whitespace. *)
Theorem normalizeText_shape (text : jsstring) :
  Forall (fun c => isWordChar c = true \/ c = 32%N) (normalizeText text)
  /\ noBlankEnds (normalizeText text).
Proof.
  unfold normalizeText; split; [|apply trim_noBlankEnds].
  apply Forall_forall; intros c Hc; apply In_trim in Hc.
  apply filter_In in Hc; destruct Hc as [Hc Hkeep].
  apply In_collapseSeparators in Hc.
  destruct Hc as [->|Hws]; [right; reflexivity|].
  rewrite Hws, orb_false_r in Hkeep; left; exact Hkeep.
Qed.

Lemma find_app_none {A : Type} (f : A -> bool) (l l' : list A) :
  find f l = None -> find f (l ++ l') = find f l'.
Proof.
  induction l as [|a l IH]; cbn [find app]; [reflexivity|].
  destruct (f a); [discriminate | exact IH].
Qed.

Lemma find_filter_none {A : Type} (f g : A -> bool) (l : list A) :
  find f l = None -> find f (filter g l) = None.
Proof.
  induction l as [|a l IH]; cbn [find filter]; [reflexivity|].
  destruct (f a) eqn:Ef; [discriminate|]; intros H.
  destruct (g a); cbn [find]; [rewrite Ef|]; apply IH, H.
Qed.

Lemma cache_get_none_find (cache : Cache) (key : jsstring) :
  cache_get cache key = None ->
  find (fun e => str_eqb (fst e) key) cache = None.
Proof.
  unfold cache_get; destruct (find _ cache); [discriminate | reflexivity].
Qed.

(** The cache after a miss. *)
Lemma cachedNormalizeText_miss (text : jsstring) (cache : Cache) :
  cache_get cache text = None ->
  snd (cachedNormalizeText text cache)
  = (if Nat.ltb 1000 (length cache)
     then match cache_firstKey cache with
          | Some firstKey => cache_delete firstKey cache
          | None => cache
          end
     else cache) ++ [(text, normalizeText text)].
Proof.
  intros Hmiss; unfold cachedNormalizeText; rewrite Hmiss; cbn [snd].
  set (cache1 := if Nat.ltb 1000 (length cache) then _ else cache).
  assert (H1 : find (fun e => str_eqb (fst e) text) cache1 = None).
  { apply cache_get_none_find in Hmiss; unfold cache1.
    destruct (Nat.ltb 1000 (length cache)); [|exact Hmiss].
    destruct (cache_firstKey cache); [|exact Hmiss].
    apply find_filter_none, Hmiss. }
  unfold cache_set, cache_has, cache_get; rewrite H1; reflexivity.
Qed.

(** X6. A text that has just been normalized is a hit: the next call with
    it returns the same string and leaves the cache as it is. *)
Theorem cachedNormalizeText_again (text : jsstring) (cache : Cache) :
  cachedNormalizeText text (snd (cachedNormalizeText text cache))
  = cachedNormalizeText text cache.
Proof.
  destruct (cache_get cache text) as [hit|] eqn:Hget.
  - unfold cachedNormalizeText at 2 3; rewrite Hget; cbn [snd].
    unfold cachedNormalizeText; rewrite Hget; reflexivity.
  - assert (Hfst : fst (cachedNormalizeText text cache) = normalizeText text)
      by (unfold cachedNormalizeText; rewrite Hget; reflexivity).
    pose proof (cachedNormalizeText_miss _ _ Hget) as Hsnd.
    rewrite (surjective_pairing (cachedNormalizeText text cache)) at 2.
    rewrite Hfst, Hsnd.
    match goal with
    | |- context [?c ++ [(text, normalizeText text)]] => set (cache1 := c)
    end.
    assert (H1 : find (fun e => str_eqb (fst e) text) cache1 = None).
    { apply cache_get_none_find in Hget; unfold cache1.
      destruct (Nat.ltb 1000 (length cache)); [|exact Hget].
      destruct (cache_firstKey cache); [|exact Hget].
      apply find_filter_none, Hget. }
    assert (Hhit : cache_get (cache1 ++ [(text, normalizeText text)]) text
                   = Some (normalizeText text)).
    { unfold cache_get; rewrite find_app_none by exact H1.
      cbn [find fst snd]; rewrite str_eqb_refl; reflexivity. }
    unfold cachedNormalizeText; rewrite Hhit; reflexivity.
Qed.

Lemma filter_all {A : Type} (f : A -> bool) (l : list A) :
  (forall x, In x l -> f x = true) -> filter f l = l.
Proof.
  induction l as [|a l IH]; intros H; cbn [filter]; [reflexivity|].
  rewrite (H a) by (left; reflexivity).
  rewrite IH by (intros x Hx; apply H; right; exact Hx); reflexivity.
Qed.

Lemma find_none_not_key (cache : Cache) (key : jsstring) :
  find (fun e => str_eqb (fst e) key) cache = None ->
  ~ In key (map fst cache).
Proof.
  intros Hfind Hin; apply in_map_iff in Hin; destruct Hin as (e & <- & He).
  pose proof (find_none _ _ Hfind e He) as H; cbn in H.
  rewrite str_eqb_refl in H; discriminate H.
Qed.

Lemma cachedNormalizeText_keys (text : jsstring) (cache : Cache) :
  NoDup (map fst cache) ->
  NoDup (map fst (snd (cachedNormalizeText text cache))).
Proof.
  intros Hnd; destruct (cache_get cache text) as [hit|] eqn:Hget.
  - unfold cachedNormalizeText; rewrite Hget; exact Hnd.
  - rewrite (cachedNormalizeText_miss _ _ Hget).
    match goal with
    | |- context [?c ++ [(text, normalizeText text)]] => set (cache1 := c)
    end.
    assert (H1 : find (fun e => str_eqb (fst e) text) cache1 = None).
    { apply cache_get_none_find in Hget; unfold cache1.
      destruct (Nat.ltb 1000 (length cache)); [|exact Hget].
      destruct (cache_firstKey cache); [|exact Hget].
      apply find_filter_none, Hget. }
    assert (Hnd1 : NoDup (map fst cache1)).
    { unfold cache1; destruct (Nat.ltb 1000 (length cache)); [|exact Hnd].
      destruct (cache_firstKey cache); [|exact Hnd].
      unfold cache_delete; clear - Hnd.
      induction cache as [|e cache IH]; cbn [filter map]; [constructor|].
      inversion Hnd as [|x l Hx Hl]; subst.
      destruct (negb (str_eqb (fst e) j)); [|apply IH, Hl].
      cbn [map]; constructor; [|apply IH, Hl].
      intros Hin; apply Hx; apply in_map_iff in Hin.
      destruct Hin as (y & Ey & Hy); apply filter_In in Hy.
      apply in_map_iff; exists y; split; [exact Ey | apply Hy]. }
    rewrite map_app; cbn [map fst].
    apply NoDup_app; [exact Hnd1 | constructor; [intros []|constructor] |].
    intros x Hx [<-|[]]; eapply find_none_not_key; eassumption.
Qed.

Lemma cacheAfter_keys (texts : list jsstring) :
  NoDup (map fst (cacheAfter texts)).
Proof.
  induction texts as [|text texts IH] using rev_ind.
  - constructor.
  - rewrite cacheAfter_snoc; apply cachedNormalizeText_keys, IH.
Qed.

(** X7. Eviction is first in, first out: in the cache after any calls, a
    miss on a cache of more than 1000 entries drops the oldest entry,
    keeps the others in their order and puts the new text last; on a
    smaller cache it only puts the new text last. *)
Theorem cachedNormalizeText_fifo (calls : list jsstring) (text : jsstring) :
  cache_get (cacheAfter calls) text = None ->
  snd (cachedNormalizeText text (cacheAfter calls))
  = (if Nat.ltb 1000 (length (cacheAfter calls))
     then tl (cacheAfter calls) else cacheAfter calls)
    ++ [(text, normalizeText text)].
Proof.
  intros Hmiss; rewrite (cachedNormalizeText_miss _ _ Hmiss).
  pose proof (cacheAfter_keys calls) as Hnd.
  destruct (Nat.ltb 1000 (length (cacheAfter calls))); [|reflexivity].
  destruct (cacheAfter calls) as [|e cache]; [reflexivity|].
  cbn [cache_firstKey tl]; f_equal.
  unfold cache_delete; cbn [filter]; rewrite str_eqb_refl; cbn [negb].
  apply filter_all; intros x Hx.
  inversion Hnd as [|k l Hk Hl]; subst.
  destruct (str_eqb (fst x) (fst e)) eqn:E; [|reflexivity].
  apply str_eqb_eq in E; exfalso; apply Hk; rewrite <- E.
  apply in_map; exact Hx.
Qed.

End Normalizer.

End HelperFacts.

(** ** More on header detection and row extraction *)

Module ParserMoreFacts.
Import JS Server Props MoreProps NormalizerFacts StringFacts HeaderFacts
       ParserFacts HelperFacts.

Section Extraction.
Context {P : Platform}.

Lemma firstMatchFrom_bounds (tokens : list jsstring) (row : Row) :
  forall idx, rowMatches tokens row = true ->
    (idx <= firstMatchFrom tokens row idx < idx + Z.of_nat (length row))%Z.
Proof.
  induction row as [|cell rest IH]; intros idx; unfold rowMatches;
    cbn [existsb firstMatchFrom length]; [discriminate|].
  destruct (matchesHeaderToken (cellText cell) tokens); [lia|].
  cbn [orb]; intros H; specialize (IH (idx + 1)%Z H); lia.
Qed.

Lemma firstMatchingColumn_bounds (tokens : list jsstring) (row : Row) :
  (-1 <= firstMatchingColumn tokens row < Z.of_nat (length row))%Z
  /\ (rowMatches tokens row = true ->
      (0 <= firstMatchingColumn tokens row)%Z).
Proof.
  unfold firstMatchingColumn.
  destruct (rowMatches tokens row) eqn:E.
  - pose proof (firstMatchFrom_bounds tokens row 0 E); split; [lia|].
    intros _; lia.
  - rewrite (firstMatchFrom_none tokens row 0 E); split; [lia | discriminate].
Qed.

Lemma findHeader_found (rows : list Row) : forall base mapping,
  findHeader rows base = Some mapping ->
  exists h row,
    nth_error rows h = Some row
    /\ qualifies row = true
    /\ headerRowIndex mapping = (base + Z.of_nat h)%Z
    /\ columnMap mapping = detectedMap row.
Proof.
  induction rows as [|r rest IH]; intros base mapping; cbn [findHeader];
    [discriminate|].
  destruct (qualifies r) eqn:Hq.
  - intros E; injection E as <-; exists 0%nat, r; cbn; repeat split; auto.
    lia.
  - intros E; apply IH in E; destruct E as (h & row & Hn & Hr & Hi & Hc).
    exists (S h), row; cbn [nth_error]; repeat split; auto; lia.
Qed.

(** X8. Header detection returns either the default mapping with row -1
    or a row of the sheet among its first 20; then the name column lies
    inside that row, the three other columns are -1 or lie inside it, and
    the extension or the department column is found. *)
Theorem detectHeaderMapping_bounds (rawData : list Row) (cache : Cache) :
  cache_ok cache ->
  fst (run (detectHeaderMapping rawData) cache) = defaultMapping
  \/ exists (h : nat) (row : Row),
       (h < 20)%nat
       /\ nth_error rawData h = Some row
       /\ headerRowIndex (fst (run (detectHeaderMapping rawData) cache))
          = Z.of_nat h
       /\ (let cm := columnMap (fst (run (detectHeaderMapping rawData) cache))
           in
           (0 <= nameIndex cm < Z.of_nat (length row))%Z
           /\ (-1 <= extensionIndex cm < Z.of_nat (length row))%Z
           /\ (-1 <= departmentIndex cm < Z.of_nat (length row))%Z
           /\ (-1 <= titleIndex cm < Z.of_nat (length row))%Z
           /\ (0 <= extensionIndex cm \/ 0 <= departmentIndex cm)%Z).
Proof.
  intros Hok.
  rewrite (proj1 (run_value (detectHeaderMapping rawData) Hok)).
  rewrite detectHeaderMapping_value.
  destruct (findHeader (firstn HEADER_SCAN_ROWS rawData) 0)
    as [mapping|] eqn:E; [right | left; reflexivity].
  apply findHeader_found in E; destruct E as (h & row & Hn & Hq & Hi & Hc).
  rewrite nth_error_firstn in Hn.
  destruct (Nat.ltb h HEADER_SCAN_ROWS) eqn:Hh; [|discriminate Hn].
  apply Nat.ltb_lt in Hh.
  exists h, row; split; [exact Hh|]; split; [exact Hn|]; split; [lia|].
  cbv zeta; rewrite Hc; cbn [detectedMap nameIndex extensionIndex
                              departmentIndex titleIndex].
  unfold qualifies in Hq; apply andb_true_iff in Hq; destruct Hq as [Hname He].
  pose proof (firstMatchingColumn_bounds HEADER_TOKENS.name row) as [N1 N2].
  pose proof (firstMatchingColumn_bounds HEADER_TOKENS.extension row)
    as [E1 E2].
  pose proof (firstMatchingColumn_bounds HEADER_TOKENS.department row)
    as [D1 D2].
  pose proof (firstMatchingColumn_bounds HEADER_TOKENS.title row) as [T1 _].
  specialize (N2 Hname).
  repeat split; try lia.
  apply orb_true_iff in He; destruct He as [He|He];
    [left; apply E2, He | right; apply D2, He].
Qed.

(** The three ways a turn of the row loop ends. *)
Lemma processRow_cases (cm : ColumnMap) (row : Row) (nextId : N)
    (acc : list Personnel) :
  value (processRow cm row nextId acc) = Continue
  \/ value (processRow cm row nextId acc) = Break
  \/ (forallb isBlankCell row = false
      /\ qualifies row = false
      /\ rowNames cm row <> []
      /\ value (processRow cm row nextId acc)
         = Pushed
             (fst (value (pushRecords (rowNames cm row) (rowDepartment cm row)
                            (rowExtensionValue cm row) nextId acc)))
             (snd (value (pushRecords (rowNames cm row) (rowDepartment cm row)
                            (rowExtensionValue cm row) nextId acc)))).
Proof.
  rewrite processRow_value.
  unfold rowNames, rowDepartment, rowExtensionValue; cbv zeta.
  destruct (forallb isBlankCell row); [left; reflexivity|].
  destruct (qualifies row); [left; reflexivity|].
  destruct (shouldStop _ _ _); [right; left; reflexivity|].
  destruct (negb (isEmpty (rowNameRaw cm row)) || _); [|left; reflexivity].
  destruct (filter keepName _) as [|n ns]; [left; reflexivity|].
  right; right; repeat split; try reflexivity; discriminate.
Qed.

Lemma idsFrom_app (a b : nat) : forall first,
  idsFrom first (a + b)
  = idsFrom first a ++ idsFrom (first + N.of_nat a) b.
Proof.
  induction a as [|a IH]; intros first; cbn [idsFrom Nat.add app].
  - rewrite N.add_0_r; reflexivity.
  - rewrite IH; do 3 f_equal; lia.
Qed.

Lemma pushRecords_ids (names : list jsstring) (dept ev : jsstring) :
  forall nextId acc,
    fst (value (pushRecords names dept ev nextId acc))
    = (nextId + N.of_nat (length names))%N
    /\ exists news,
         snd (value (pushRecords names dept ev nextId acc)) = acc ++ news
         /\ map id news = idsFrom nextId (length names).
Proof.
  induction names as [|n names IH]; intros nextId acc; cbn [pushRecords].
  - cbn [value fst snd length]; split; [lia|].
    exists []; rewrite app_nil_r; split; reflexivity.
  - rewrite value_bind; cbn [cached value].
    match goal with
    | |- context [pushRecords names dept ev ?i ?a] =>
        destruct (IH i a) as (Hfst & news & Hsnd & Hids)
    end.
    rewrite Hfst, Hsnd; split; [cbn [length]; lia|].
    eexists; rewrite <- app_assoc; split; [reflexivity|].
    cbn [app map id length idsFrom]; rewrite Hids; reflexivity.
Qed.

Lemma processRows_numbered (cm : ColumnMap) (rows : list Row) :
  forall nextId acc,
    numbered nextId acc ->
    map id (value (processRows cm rows nextId acc))
    = idsFrom 1 (length (value (processRows cm rows nextId acc))).
Proof.
  induction rows as [|row rows IH]; intros nextId acc Hn; cbn [processRows].
  - apply Hn.
  - rewrite value_bind.
    destruct (processRow_cases cm row nextId acc)
      as [E|[E|(_ & _ & _ & E)]]; rewrite E.
    + apply IH, Hn.
    + apply Hn.
    + apply IH.
      destruct (pushRecords_ids (rowNames cm row) (rowDepartment cm row)
                  (rowExtensionValue cm row) nextId acc)
        as (Hfst & news & Hsnd & Hids).
      rewrite Hfst, Hsnd; destruct Hn as [Hnext Hacc]; split.
      * rewrite length_app, <- (length_map id news), Hids.
        assert (Hlen : forall k f, length (idsFrom f k) = k)
          by (induction k; intros f; cbn; [reflexivity | rewrite IHk; reflexivity]).
        rewrite Hlen; lia.
      * rewrite map_app, length_app, idsFrom_app, Hacc, Hids.
        assert (Hlen : length news = length (rowNames cm row)).
        { rewrite <- (length_map id news), Hids.
          clear; generalize nextId; induction (length (rowNames cm row));
            intros f; cbn; [reflexivity | rewrite IHn; reflexivity]. }
        rewrite Hlen, Hnext; reflexivity.
Qed.

Lemma uint_digits_inj (d d' : Decimal.uint) :
  uint_digits d = uint_digits d' -> d = d'.
Proof.
  revert d'; induction d as [|d IH|d IH|d IH|d IH|d IH|d IH|d IH|d IH|d IH|d IH];
    intros d'; destruct d'; cbn [uint_digits]; intros E;
    try discriminate E; try reflexivity;
    injection E as E; f_equal; apply IH, E.
Qed.

Lemma decimal_inj (n n' : N) : decimal n = decimal n' -> n = n'.
Proof.
  unfold decimal; intros E; apply uint_digits_inj in E.
  apply DecimalN.Unsigned.to_uint_inj, E.
Qed.

Lemma idsFrom_In (count : nat) : forall first x,
  In x (idsFrom first count) ->
  exists n, (first <= n)%N /\ x = decimal n.
Proof.
  induction count as [|k IH]; intros first x; cbn [idsFrom]; [intros []|].
  intros [<-|H]; [exists first; split; [lia | reflexivity]|].
  apply IH in H; destruct H as (n & Hn & ->); exists n; split; [lia|].
  reflexivity.
Qed.

Lemma idsFrom_NoDup (count : nat) : forall first,
  NoDup (idsFrom first count).
Proof.
  induction count as [|k IH]; intros first; cbn [idsFrom]; constructor;
    [|apply IH].
  intros H; apply idsFrom_In in H; destruct H as (n & Hn & E).
  apply decimal_inj in E; lia.
Qed.

Lemma value_ids_sequential (rawData : list Row) :
  map id (value (processExcelData rawData))
  = idsFrom 1 (length (value (processExcelData rawData))).
Proof.
  rewrite processExcelData_value.
  apply processRows_numbered; split; reflexivity.
Qed.

(** X9. The ids of the records of a parse are the numerals 1, 2, ... in
    the order of the records; no two records share an id. *)
Theorem parsed_ids_sequential (rawData : list Row) (cache : Cache) :
  cache_ok cache ->
  map id (fst (run (processExcelData rawData) cache))
  = idsFrom 1 (length (fst (run (processExcelData rawData) cache)))
  /\ NoDup (map id (fst (run (processExcelData rawData) cache))).
Proof.
  intros Hok; rewrite (proj1 (run_value (processExcelData rawData) Hok)).
  split; [apply value_ids_sequential|].
  rewrite value_ids_sequential; apply idsFrom_NoDup.
Qed.

Lemma pushRecords_In (names : list jsstring) (dept ev : jsstring)
    (r : Personnel) : forall nextId acc,
  In r (snd (value (pushRecords names dept ev nextId acc))) ->
  In r acc
  \/ (In (name r) names
      /\ department r = dept
      /\ extension r = (if isEmpty ev then lit "N/A" else ev)
      /\ searchableName r = normalizeText (name r)
      /\ searchableExtension r = normalizeExtensionSearch ev).
Proof.
  induction names as [|n names IH]; intros nextId acc; cbn [pushRecords].
  - cbn [value snd]; auto.
  - rewrite value_bind; cbn [cached value]; intros H.
    apply IH in H; destruct H as [H|(H1 & H2)].
    + apply in_app_or in H; destruct H as [H|[<-|[]]]; [left; exact H|].
      right; cbn; repeat split; auto.
    + right; split; [right; exact H1 | exact H2].
Qed.

Lemma processRows_In (cm : ColumnMap) (rows : list Row) (r : Personnel) :
  forall nextId acc,
    In r (value (processRows cm rows nextId acc)) ->
    In r acc
    \/ exists row, In row rows
                   /\ forallb isBlankCell row = false
                   /\ qualifies row = false
                   /\ fromRow cm row r.
Proof.
  induction rows as [|row rows IH]; intros nextId acc; cbn [processRows].
  - cbn [value]; auto.
  - rewrite value_bind.
    assert (Hlater : forall i a,
               In r (value (processRows cm rows i a)) ->
               In r a
               \/ exists row', In row' (row :: rows)
                               /\ forallb isBlankCell row' = false
                               /\ qualifies row' = false
                               /\ fromRow cm row' r).
    { intros i a H; apply IH in H.
      destruct H as [H|(row' & Hin & Hrest)]; [left; exact H|].
      right; exists row'; split; [right; exact Hin | exact Hrest]. }
    destruct (processRow_cases cm row nextId acc)
      as [E|[E|(Hb & Hq & _ & E)]]; rewrite E.
    + apply Hlater.
    + cbn [value]; auto.
    + intros H; apply Hlater in H; destruct H as [H|H]; [|right; exact H].
      apply pushRecords_In in H; destruct H as [H|H]; [left; exact H|].
      right; exists row; split; [left; reflexivity|].
      split; [exact Hb|]; split; [exact Hq | exact H].
Qed.

Lemma value_records_from_rows (rawData : list Row) (r : Personnel) :
  In r (value (processExcelData rawData)) ->
  exists (i : nat) (row : Row),
    (dataStartIndex (value (detectHeaderMapping rawData)) <= i)%nat
    /\ nth_error rawData i = Some row
    /\ forallb isBlankCell row = false
    /\ qualifies row = false
    /\ fromRow (columnMap (value (detectHeaderMapping rawData))) row r.
Proof.
  rewrite processExcelData_value; intros H.
  apply processRows_In in H; destruct H as [[]|(row & Hin & Hrest)].
  apply In_nth_error in Hin; destruct Hin as (k & Hk).
  rewrite nth_error_skipn in Hk.
  eexists; exists row; split; [|split; [exact Hk | exact Hrest]]; lia.
Qed.

(** X10. Every record of a parse comes from a row at or below the start
    of the data that is neither blank nor a repeated header: its name is
    one of the names kept from the name cell of that row (or the
    placeholder), and its department and extension are those of the
    row. *)
Theorem parsed_records_come_from_rows
    (rawData : list Row) (cache : Cache) (r : Personnel) :
  cache_ok cache ->
  In r (fst (run (processExcelData rawData) cache)) ->
  exists (i : nat) (row : Row),
    (dataStartIndex (fst (run (detectHeaderMapping rawData) cache)) <= i)%nat
    /\ nth_error rawData i = Some row
    /\ forallb isBlankCell row = false
    /\ qualifies row = false
    /\ fromRow (columnMap (fst (run (detectHeaderMapping rawData) cache)))
               row r.
Proof.
  intros Hok; rewrite (proj1 (run_value (processExcelData rawData) Hok)).
  rewrite (proj1 (run_value (detectHeaderMapping rawData) Hok)).
  apply value_records_from_rows.
Qed.

(** C6. Every record of a parse has [searchableName] equal to the
    normalized form of [name], and comes from a row of the sheet whose raw
    extension string (the text of the extension cell picked, without a
    final point and zeros; empty when the row has none) gives its two
    extension fields: [extension] is the raw string, or the placeholder N/A
    when that is empty; [searchableExtension] is the digits of the raw
    string when [extension] contains a digit, the raw string being
    [extension] itself then, and otherwise the lowercase raw string; an
    all-digit [searchableExtension] has no character outside 0-9 and
    a-z. *)
Theorem parsed_records_invariant
    (rawData : list Row) (cache : Cache) (r : Personnel) :
  cache_ok cache ->
  In r (fst (run (processExcelData rawData) cache)) ->
  searchableName r = normalizeText (name r)
  /\ (exists (i : nat) (row : Row),
         nth_error rawData i = Some row
         /\ let raw :=
              rowExtensionValue
                (columnMap (fst (run (detectHeaderMapping rawData) cache)))
                row in
            extension r = (if isEmpty raw then lit "N/A" else raw)
            /\ (hasDigit (extension r) = true -> extension r = raw)
            /\ searchableExtension r
               = (if hasDigit (extension r) then filter isDigit raw
                  else toLowerCase raw))
  /\ (forallb isDigit (searchableExtension r) = true ->
      forallb (fun c => isDigit c || inRange 97 122 c)
              (searchableExtension r) = true).
Proof.
  intros Hok; rewrite (proj1 (run_value (processExcelData rawData) Hok)).
  rewrite (proj1 (run_value (detectHeaderMapping rawData) Hok)).
  intros Hin.
  destruct (value_records_from_rows rawData r Hin)
    as (i & row & _ & Hrow & _ & _ & _ & _ & Hext & Hname & Hsearch).
  split; [exact Hname|]; split.
  - exists i, row; split; [exact Hrow|]; cbv zeta.
    set (raw := rowExtensionValue
                  (columnMap (value (detectHeaderMapping rawData))) row) in *.
    split; [exact Hext|].
    rewrite Hsearch, Hext; unfold normalizeExtensionSearch.
    destruct raw as [|c raw]; cbn [isEmpty].
    + split; [intros H; vm_compute in H; discriminate H|].
      replace (hasDigit (lit "N/A")) with false by reflexivity.
      reflexivity.
    + split; [reflexivity|].
      rewrite isEmpty_filter_isDigit.
      destruct (hasDigit (c :: raw)); reflexivity.
  - apply forallb_weaken; intros c ->; reflexivity.
Qed.

(** X11. The rows above the detected header row play no part: the parse
    of the sheet is the parse of the sheet without them. *)
Theorem rows_above_header_are_ignored (rawData : list Row) (cache : Cache) :
  cache_ok cache ->
  (0 <= headerRowIndex (fst (run (detectHeaderMapping rawData) cache)))%Z ->
  fst (run (processExcelData rawData) cache)
  = fst (run (processExcelData
                (skipn (Z.to_nat
                          (headerRowIndex
                             (fst (run (detectHeaderMapping rawData) cache))))
                       rawData))
             cache).
Proof.
  intros Hok.
  rewrite (proj1 (run_value (detectHeaderMapping rawData) Hok)).
  rewrite !(proj1 (run_value (processExcelData _) Hok)).
  rewrite !processExcelData_value, !detectHeaderMapping_value.
  destruct (findHeader (firstn HEADER_SCAN_ROWS rawData) 0)
    as [mapping|] eqn:E; [|cbn; lia].
  intros Hpos; apply findHeader_found in E.
  destruct E as (h & row & Hn & Hq & Hi & Hc).
  rewrite nth_error_firstn in Hn.
  destruct (Nat.ltb h HEADER_SCAN_ROWS); [|discriminate Hn].
  assert (Hh : Z.to_nat (headerRowIndex mapping) = h) by lia.
  rewrite Hh.
  assert (Hskip : skipn h rawData = row :: skipn (S h) rawData).
  { rewrite <- (firstn_skipn_middle _ _ Hn) at 1.
    rewrite skipn_app, skipn_all2 by (rewrite length_firstn; lia).
    replace (h - length (firstn h rawData))%nat with 0%nat
      by (rewrite length_firstn;
          pose proof (proj1 (nth_error_Some rawData h));
          rewrite Hn in *; assert (h < length rawData)%nat
            by (apply H; discriminate); lia).
    reflexivity. }
  rewrite Hskip; cbn [firstn HEADER_SCAN_ROWS findHeader]; rewrite Hq.
  cbn [columnMap]; rewrite Hc.
  unfold dataStartIndex; cbn [headerRowIndex].
  replace (Z.leb 0 (headerRowIndex mapping)) with true
    by (symmetry; apply Z.leb_le; exact Hpos).
  cbn [Z.leb Z.compare].
  replace (Z.to_nat (headerRowIndex mapping + 1)) with (S h) by lia.
  reflexivity.
Qed.

End Extraction.

Section Laws.
Context {P : Platform} {L : PlatformLaws P}.

(** X12. Every record of a parse has a name that is not empty and neither
    starts nor ends with whitespace, a department that is not empty and an
    extension that is not empty. *)
Theorem parsed_records_display_fields
    (rawData : list Row) (cache : Cache) (r : Personnel) :
  cache_ok cache ->
  In r (fst (run (processExcelData rawData) cache)) ->
  name r <> [] /\ noBlankEnds (name r)
  /\ department r <> [] /\ extension r <> [].
Proof.
  intros Hok; rewrite (proj1 (run_value (processExcelData rawData) Hok)).
  intros Hin.
  destruct (value_records_from_rows rawData r Hin)
    as (i & row & _ & _ & _ & _ & Hname & Hdept & Hext & _).
  set (cm := columnMap (value (detectHeaderMapping rawData))) in *.
  unfold rowNames in Hname; apply filter_In in Hname.
  destruct Hname as [Hname Hkeep].
  split; [|split; [|split]].
  - unfold keepName in Hkeep; destruct (name r); [discriminate Hkeep|].
    discriminate.
  - destruct (negb (isEmpty (rowNameRaw cm row))).
    + apply (In_splitNames _ _ Hname).
    + destruct Hname as [<-|[]]; split; reflexivity.
  - rewrite Hdept; unfold rowDepartment.
    destruct (rowDepartmentRaw cm row); [discriminate | discriminate].
  - rewrite Hext; destruct (rowExtensionValue cm row);
      [discriminate | discriminate].
Qed.

End Laws.

End ParserMoreFacts.

(** ** More on the directory cache *)

Module CacheMoreFacts.
Import JS Server Props MoreProps NormalizerFacts ParserFacts ParserMoreFacts
       CacheFacts.

Section EventLoop.
Context {P : Platform}.

Lemma run_size {A : Type} (p : Prog A) : forall cache,
  (length cache <= 1001)%nat -> (length (snd (run p cache)) <= 1001)%nat.
Proof.
  induction p as [a|text k IH]; intros cache Hlen; cbn [run]; [exact Hlen|].
  pose proof (cachedNormalizeText_size text cache Hlen) as Hnext.
  destruct (cachedNormalizeText text cache) as [v cache']; apply IH, Hnext.
Qed.

Lemma loadBody_value (decoded : Error + list Row) (p : Payload) :
  value (loadBody decoded) = inr p ->
  exists rows, decoded = inr rows /\ parsedFrom rows p.
Proof.
  destruct decoded as [error|rows]; cbn [loadBody value]; [discriminate|].
  unfold parsedFrom.
  destruct (clampRows rows) as [|row rest] eqn:E; cbn [value];
    [discriminate|].
  rewrite value_bind; cbn [value]; intros H; injection H as <-.
  exists rows; rewrite E; split; [reflexivity|]; split;
    [discriminate | reflexivity].
Qed.

Lemma sound_more (done more : list Event) (w : World) :
  sound done w -> sound (done ++ more) w.
Proof.
  intros (Hok & Hsize & Hloads & Hpay & Herr).
  split; [exact Hok|]; split; [exact Hsize|]; split; [|split; [|exact Herr]].
  - intros l p Hl; destruct (Hloads l p Hl) as (rows & Hin & Hp).
    exists rows; split; [apply in_or_app; left; exact Hin | exact Hp].
  - intros p Hp; destruct (Hpay p Hp) as (l & rows & Hin & Hparse).
    exists l, rows; split; [apply in_or_app; left; exact Hin | exact Hparse].
Qed.

Lemma step_sound (done : list Event) (w w' : World) (e : Event) :
  step w e = Some w' -> sound done w -> sound (done ++ [e]) w'.
Proof.
  intros Hstep Hsound.
  destruct (sound_more [e] Hsound) as (Hok & Hsize & Hloads & Hpay & Herr).
  destruct e as [force|i stat|l decoded|i now]; cbn [step] in Hstep.
  - injection Hstep as <-; repeat split; assumption.
  - destruct (nth_error (invocations w) i) as [[force| | |]|];
      try discriminate Hstep.
    destruct stat as [error|mt];
      [injection Hstep as <-; repeat split; assumption|].
    destruct (afterStat force mt (internosCache w)) as [p|l|];
      injection Hstep as <-; try (repeat split; assumption).
    unfold sound; cbn [textNormalizationCache internosCache loads
                       setInflight payload lastError].
    split; [exact Hok|]; split; [exact Hsize|]; split; [|split].
    + intros l p Hl; apply nth_error_snoc in Hl.
      destruct Hl as [Hl|[_ Hl]]; [eapply Hloads; exact Hl | discriminate Hl].
    + exact Hpay.
    + intros e He; destruct (Herr e He) as (l & Hl); exists l.
      rewrite nth_error_app1; [exact Hl|].
      apply nth_error_Some; rewrite Hl; discriminate.
  - destruct (nth_error (loads w) l) as [[|outcome]|] eqn:Hload;
      try discriminate Hstep.
    pose proof (run_value (loadBody decoded) Hok) as [Hv Hok'].
    pose proof (run_size (loadBody decoded) _ Hsize) as Hsize'.
    destruct (run (loadBody decoded) (textNormalizationCache w))
      as [outcome cache']; cbn [fst snd] in *.
    injection Hstep as <-; unfold sound;
      cbn [textNormalizationCache internosCache loads].
    split; [exact Hok'|]; split; [exact Hsize'|]; split; [|split].
    + intros k p Hk; apply nth_error_replace in Hk.
      destruct Hk as [[Hkl Hk]|[_ Hk]]; [|eapply Hloads; exact Hk].
      injection Hk as Hk; rewrite Hv in Hk; symmetry in Hk.
      apply loadBody_value in Hk; destruct Hk as (rows & -> & Hk).
      exists rows; split; [|exact Hk].
      apply in_or_app; right; left; rewrite Hkl; reflexivity.
    + exact Hpay.
    + intros e He; destruct (Herr e He) as (k & Hk); exists k.
      rewrite nth_error_replace_other; [exact Hk|].
      intros ->; rewrite Hload in Hk; discriminate Hk.
  - destruct (nth_error (invocations w) i) as [[force|mt l|l|r]|];
      try discriminate Hstep.
    destruct (nth_error (loads w) l) as [[|outcome]|] eqn:Hload;
      try discriminate Hstep.
    destruct outcome as [error|loaded]; cbn [settle] in Hstep;
      injection Hstep as <-; unfold sound;
      cbn [textNormalizationCache internosCache loads payload lastError].
    + split; [exact Hok|]; split; [exact Hsize|]; split; [exact Hloads|].
      split; [exact Hpay|].
      intros e He; injection He as <-; exists l; exact Hload.
    + split; [exact Hok|]; split; [exact Hsize|]; split; [exact Hloads|].
      split; [|discriminate].
      intros p Hp; injection Hp as <-.
      destruct (Hloads l loaded Hload) as (rows & Hin & Hparse).
      exists l, rows; split; assumption.
Qed.

Lemma initialWorld_sound : sound [] initialWorld.
Proof.
  unfold sound, initialWorld;
    cbn [textNormalizationCache internosCache loads payload lastError
         emptyInternosCache].
  unfold initialCache.
  split; [apply (run_value moduleInit (cache := [])); constructor|].
  split; [apply run_size; simpl; lia|].
  split; [intros l p Hl; destruct l; discriminate Hl|].
  split; discriminate.
Qed.

Lemma exec_sound (events : list Event) : forall done w w',
  exec w events = Some w' -> sound done w -> sound (done ++ events) w'.
Proof.
  induction events as [|e events IH]; intros done w w'; cbn [exec].
  - intros E; injection E as <-; rewrite app_nil_r; auto.
  - destruct (step w e) as [w1|] eqn:Hstep; [|discriminate].
    intros E Hw.
    replace (done ++ e :: events) with ((done ++ [e]) ++ events)
      by (rewrite <- app_assoc; reflexivity).
    eapply IH; [exact E | eapply step_sound; eassumption].
Qed.

Lemma reachable_sound (events : list Event) (w : World) :
  exec initialWorld events = Some w -> sound events w.
Proof.
  intros Hexec; apply (@exec_sound events [] _ _ Hexec initialWorld_sound).
Qed.

Lemma step_keeps_payload (w w' : World) (e : Event) (p : Payload) :
  step w e = Some w' ->
  payload (internosCache w) = Some p ->
  exists p', payload (internosCache w') = Some p'.
Proof.
  intros Hstep Hp; destruct e as [force|i stat|l decoded|i now];
    cbn [step] in Hstep.
  - injection Hstep as <-; eauto.
  - destruct (nth_error (invocations w) i) as [[force| | |]|];
      try discriminate Hstep.
    destruct stat as [error|mt]; [injection Hstep as <-; eauto|].
    destruct (afterStat force mt (internosCache w));
      injection Hstep as <-; cbn; eauto.
  - destruct (nth_error (loads w) l) as [[|outcome]|];
      try discriminate Hstep.
    destruct (run (loadBody decoded) (textNormalizationCache w)).
    injection Hstep as <-; eauto.
  - destruct (nth_error (invocations w) i) as [[force|mt l|l|r]|];
      try discriminate Hstep.
    destruct (nth_error (loads w) l) as [[|outcome]|];
      try discriminate Hstep.
    destruct outcome; cbn [settle] in Hstep; injection Hstep as <-; cbn;
      eauto.
Qed.

(** X13. A cached list is never lost: from a world with a cached payload,
    whatever calls, stats, decodes and failures follow, the cache holds a
    payload and the endpoint answers with it. *)
Theorem cached_payload_is_kept (events : list Event) (w w' : World)
    (p : Payload) :
  exec w events = Some w' ->
  payload (internosCache w) = Some p ->
  exists p', payload (internosCache w') = Some p'
             /\ apiInternos (internosCache w') = Json p'.
Proof.
  revert w p; induction events as [|e events IH]; intros w p; cbn [exec].
  - intros E Hp; injection E as <-; exists p; split; [exact Hp|].
    unfold apiInternos; rewrite Hp; reflexivity.
  - destruct (step w e) as [w1|] eqn:Hstep; [|discriminate].
    intros E Hp; destruct (@step_keeps_payload _ _ _ _ Hstep Hp) as (p1 & Hp1).
    eapply IH; eassumption.
Qed.

Lemma served_payload_parsed (events : list Event) (w : World)
    (p : Payload) :
  exec initialWorld events = Some w ->
  apiInternos (internosCache w) = Json p ->
  decodedIn events p.
Proof.
  intros Hexec Hapi.
  destruct (reachable_sound _ Hexec) as (_ & _ & _ & Hpay & _).
  apply Hpay; unfold apiInternos in Hapi.
  destruct (payload (internosCache w)) as [q|]; [congruence|].
  destruct (inflight (internosCache w)); [discriminate Hapi|].
  destruct (lastError (internosCache w)) as [[[c|] m]|];
    [destruct (str_eqb c _)| |]; discriminate Hapi.
Qed.

(** X14. What the endpoint serves is the parse of a sheet the decoder has
    returned: in the world the event loop reaches by a run, a JSON answer
    holds the records that [processExcelData] gives on the clamped,
    non-empty rows of a sheet that the decoder returned to one of the loads
    in that run, whatever the memo cache held when the parse ran. *)
Theorem endpoint_serves_a_parse (events : list Event) (w : World)
    (p : Payload) :
  exec initialWorld events = Some w ->
  apiInternos (internosCache w) = Json p ->
  exists (l : nat) (rows : list Row),
    In (DecodeSettles l (inr rows)) events
    /\ clampRows rows <> []
    /\ personnel p = value (processExcelData (clampRows rows)).
Proof.
  apply served_payload_parsed.
Qed.

(** X15. The last error the cache records is the error of a load that
    failed; a stat that fails ends its call and leaves the cache and the
    loads as they are, so it is not recorded. *)
Theorem last_error_is_a_load_failure (events : list Event) (w : World) :
  exec initialWorld events = Some w ->
  (forall e, lastError (internosCache w) = Some e ->
             exists l, nth_error (loads w) l = Some (Settled (inl e)))
  /\ (forall i force error w',
         nth_error (invocations w) i = Some (AwaitStat force) ->
         step w (StatSettles i (inl error)) = Some w' ->
         internosCache w' = internosCache w
         /\ loads w' = loads w
         /\ invocations w' = replace i (Done (inl error)) (invocations w)).
Proof.
  intros Hexec; split.
  - apply (reachable_sound _ Hexec).
  - intros i force error w' Hinv Hstep; cbn [step] in Hstep.
    rewrite Hinv in Hstep; injection Hstep as <-; repeat split.
Qed.

End EventLoop.

Section Laws.
Context {P : Platform} {L : PlatformLaws P}.

(** X16. Every record the endpoint serves, in any world the event loop
    reaches, satisfies the record invariant of the parser, and the ids of
    the records served are 1, 2, ... in order. *)
Theorem endpoint_serves_sound_records (events : list Event) (w : World)
    (p : Payload) :
  exec initialWorld events = Some w ->
  apiInternos (internosCache w) = Json p ->
  Forall recordInvariant (personnel p)
  /\ map id (personnel p) = idsFrom 1 (length (personnel p)).
Proof.
  intros Hexec Hapi.
  destruct (served_payload_parsed _ Hexec Hapi) as (l & rows & _ & _ & E).
  rewrite E; split; [|apply value_ids_sequential].
  rewrite processExcelData_value.
  apply processRows_invariant; [|constructor].
  intros names dept ev nextId acc; apply pushRecords_invariant.
  intros n nid; unfold recordInvariant; cbn [searchableName name extension
                                            searchableExtension].
  split; [reflexivity|]; split.
  - unfold normalizeExtensionSearch.
    destruct ev as [|c ev]; cbn [isEmpty].
    + left; split; [reflexivity|]; cbn [filter isEmpty]; apply toLowerCase_nil.
    + right; rewrite isEmpty_filter_isDigit.
      destruct (hasDigit (c :: ev)); reflexivity.
  - apply forallb_weaken; intros c ->; reflexivity.
Qed.

End Laws.

End CacheMoreFacts.

(** ** The debtors' endpoints *)

Module DeudoresFacts.
Import JS Server MoreProps NormalizerFacts StringFacts.

(** X17. [requirePasscode] lets a request through exactly when it has the
    header, the passcode is not empty and the header, trimmed, is the
    passcode; it sends nothing then, and the answer 401 in every other
    case. *)
Theorem requirePasscode_authorises
    (passcode : jsstring) (header : option jsstring) :
  (fst (requirePasscode passcode header) = true
   <-> exists h, header = Some h /\ trim h = passcode /\ passcode <> [])
  /\ (fst (requirePasscode passcode header) = true ->
      snd (requirePasscode passcode header) = None)
  /\ (fst (requirePasscode passcode header) = false ->
      snd (requirePasscode passcode header)
      = Some (Status 401 (lit "Clave incorrecta"))).
Proof.
  unfold requirePasscode.
  destruct (isEmpty _ || negb (str_eqb _ passcode)) eqn:E; cbn [fst snd].
  - split; [|split; [discriminate | reflexivity]].
    split; [discriminate|]; intros (h & -> & Hh & Hne); exfalso.
    rewrite Hh, str_eqb_refl in E.
    destruct passcode; [contradiction | discriminate E].
  - split; [|split; [reflexivity | discriminate]].
    split; [intros _ | reflexivity].
    apply orb_false_iff in E; destruct E as [Hne Heq].
    apply negb_false_iff, str_eqb_eq in Heq.
    destruct header as [h|].
    + exists h; split; [reflexivity|]; split; [exact Heq|].
      intros ->; rewrite Heq in Hne; discriminate Hne.
    + vm_compute in Hne; discriminate Hne.
Qed.

(** X18. With a passcode that is empty, or that starts or ends with
    whitespace, [requirePasscode] refuses every request: the header is
    trimmed before the comparison and the passcode is not. *)
Theorem requirePasscode_blank_passcode
    (passcode : jsstring) (header : option jsstring) :
  passcode = [] \/ ~ noBlankEnds passcode ->
  requirePasscode passcode header
  = (false, Some (Status 401 (lit "Clave incorrecta"))).
Proof.
  intros Hbad; unfold requirePasscode.
  destruct (isEmpty _ || negb (str_eqb _ passcode)) eqn:E; [reflexivity|].
  exfalso; apply orb_false_iff in E; destruct E as [Hne Heq].
  apply negb_false_iff, str_eqb_eq in Heq.
  destruct Hbad as [->|Hblank].
  - rewrite Heq in Hne; discriminate Hne.
  - apply Hblank; rewrite <- Heq; apply trim_noBlankEnds.
Qed.

Lemma mapGet_mapSet (m : Deudores.DeudasPorDeudor) (k key : Z)
    (lista : list Deudores.Deuda) :
  Deudores.mapGet (Deudores.mapSet k lista m) key
  = if Z.eqb k key then Some lista else Deudores.mapGet m key.
Proof.
  unfold Deudores.mapSet, Deudores.mapGet.
  destruct (find (fun e => Z.eqb (fst e) k) m) as [e0|] eqn:Hfind.
  - revert e0 Hfind.
    induction m as [|e m IH]; intros e0 Hfind; cbn [find] in Hfind;
      [discriminate|]; cbn [map find].
    destruct (Z.eqb (fst e) k) eqn:Hk; cbn [fst].
    + destruct (Z.eqb k key) eqn:Hkey; [reflexivity|].
      apply Z.eqb_eq in Hk; rewrite Hk, Hkey.
      clear IH Hfind; induction m as [|e' m IH]; cbn [map find];
        [destruct (Z.eqb k key); [discriminate | reflexivity]|].
      destruct (Z.eqb (fst e') k) eqn:Hk'; cbn [fst].
      * rewrite Hkey; apply Z.eqb_eq in Hk'; rewrite Hk', Hkey; exact IH.
      * destruct (Z.eqb (fst e') key); [reflexivity | exact IH].
    + destruct (Z.eqb (fst e) key) eqn:Hkey.
      * apply Z.eqb_eq in Hkey; rewrite <- Hkey, Z.eqb_sym, Hk; reflexivity.
      * apply (IH e0 Hfind).
  - induction m as [|e m IH]; cbn [app find fst snd].
    + destruct (Z.eqb k key); reflexivity.
    + cbn [find] in Hfind.
      destruct (Z.eqb (fst e) k) eqn:Hk; [discriminate Hfind|].
      destruct (Z.eqb (fst e) key) eqn:Hkey.
      * apply Z.eqb_eq in Hkey; rewrite <- Hkey, Z.eqb_sym, Hk; reflexivity.
      * apply IH, Hfind.
Qed.

(** The list [deudasPorDeudor.get(key) ?? []]. *)
Lemma lista_addDeuda (m : Deudores.DeudasPorDeudor)
    (deuda : Deudores.DeudaRow) (key : Z) :
  match Deudores.mapGet (Deudores.addDeuda m deuda) key with
  | Some l => l
  | None => []
  end
  = match Deudores.mapGet m key with Some l => l | None => [] end
    ++ deudasDe key [deuda].
Proof.
  unfold Deudores.addDeuda, deudasDe; rewrite mapGet_mapSet; cbn [filter].
  destruct (Z.eqb (Deudores.deudorId deuda) key) eqn:Hkey; cbn [map].
  - apply Z.eqb_eq in Hkey; rewrite Hkey; reflexivity.
  - rewrite app_nil_r; reflexivity.
Qed.

Lemma lista_fold (deudas : list Deudores.DeudaRow) (key : Z) :
  forall m,
    match Deudores.mapGet (fold_left Deudores.addDeuda deudas m) key with
    | Some l => l
    | None => []
    end
    = match Deudores.mapGet m key with Some l => l | None => [] end
      ++ deudasDe key deudas.
Proof.
  induction deudas as [|deuda deudas IH]; intros m; cbn [fold_left].
  - unfold deudasDe; cbn [filter map]; rewrite app_nil_r; reflexivity.
  - rewrite IH, lista_addDeuda, <- app_assoc; f_equal.
    unfold deudasDe; cbn [filter].
    destruct (Z.eqb (Deudores.deudorId deuda) key); reflexivity.
Qed.

(** X19. The answer of [GET /api/deudores] has one entry for each debtor
    row, in the order of the rows, with the id and the name of the row and
    exactly the debts of that debtor, in the order of the debt rows; a
    debt of no listed debtor appears nowhere. *)
Theorem payload_groups_debts
    (deudores : list Deudores.DeudorRow) (deudas : list Deudores.DeudaRow) :
  Deudores.payload deudores deudas
  = map (fun deudor =>
           {| Deudores.deudorJsonId := Deudores.id deudor;
              Deudores.deudorNombre := Deudores.nombre deudor;
              Deudores.deudas := deudasDe (Deudores.id deudor) deudas |})
        deudores.
Proof.
  unfold Deudores.payload; apply map_ext; intros deudor.
  rewrite (lista_fold deudas (Deudores.id deudor) []); reflexivity.
Qed.

End DeudoresFacts.

(** ** More on the search *)

Module SearchMoreFacts.
Import JS Server Props Search NormalizerFacts StringFacts SearchFacts.

Lemma dedupFrom_In (items : list Personnel) (p : Personnel) : forall seen,
  In p (dedupFrom seen items) -> In p items.
Proof.
  induction items as [|item rest IH]; intros seen; cbn [dedupFrom];
    [intros []|].
  destruct (existsb (str_eqb (id item)) seen).
  - intros H; right; apply (IH _ H).
  - intros [<-|H]; [left; reflexivity | right; apply (IH _ H)].
Qed.

Lemma dedupFrom_fresh (items : list Personnel) : forall seen,
  NoDup (map id (dedupFrom seen items))
  /\ (forall p, In p (dedupFrom seen items) ->
                existsb (str_eqb (id p)) seen = false).
Proof.
  induction items as [|item rest IH]; intros seen; cbn [dedupFrom].
  - split; [constructor | intros p []].
  - destruct (existsb (str_eqb (id item)) seen) eqn:Hseen; [apply IH|].
    destruct (IH (id item :: seen)) as [Hnodup Hfresh].
    split.
    + cbn [map]; constructor; [|exact Hnodup].
      intros Hin; apply in_map_iff in Hin; destruct Hin as (p & Hid & Hp).
      specialize (Hfresh p Hp); cbn [existsb] in Hfresh.
      rewrite Hid, str_eqb_refl in Hfresh; discriminate Hfresh.
    + intros p [<-|Hp]; [exact Hseen|].
      specialize (Hfresh p Hp); cbn [existsb] in Hfresh.
      apply orb_false_iff in Hfresh; apply Hfresh.
Qed.

(** A record that the de-duplication drops has the id of one it keeps. *)
Lemma dedupFrom_keeps_id (items : list Personnel) (p : Personnel) :
  forall seen,
    In p items ->
    existsb (str_eqb (id p)) seen = true
    \/ exists p', In p' (dedupFrom seen items) /\ id p' = id p.
Proof.
  induction items as [|item rest IH]; intros seen; cbn [dedupFrom];
    [intros []|].
  intros [->|Hin].
  - destruct (existsb (str_eqb (id p)) seen) eqn:Hseen; [left; reflexivity|].
    right; exists p; split; [left; reflexivity | reflexivity].
  - destruct (existsb (str_eqb (id item)) seen) eqn:Hseen.
    + destruct (IH seen Hin) as [H|(p' & Hp' & Hid)]; [left; exact H|].
      right; exists p'; split; assumption.
    + destruct (IH (id item :: seen) Hin) as [H|(p' & Hp' & Hid)].
      * cbn [existsb] in H; apply orb_true_iff in H; destruct H as [H|H];
          [|left; exact H].
        apply str_eqb_eq in H.
        right; exists item; split; [left; reflexivity | symmetry; exact H].
      * right; exists p'; split; [right; exact Hp' | exact Hid].
Qed.

Lemma NoDup_map_filter {A B : Type} (f : A -> B) (g : A -> bool)
    (l : list A) :
  NoDup (map f l) -> NoDup (map f (filter g l)).
Proof.
  induction l as [|a l IH]; cbn [map filter]; [intros H; exact H|].
  intros H; inversion H as [|x xs Hnotin Hrest]; subst.
  destruct (g a); [|apply IH, Hrest].
  cbn [map]; constructor; [|apply IH, Hrest].
  intros Hin; apply Hnotin.
  apply in_map_iff in Hin; destruct Hin as (b & Hb & Hin).
  apply filter_In in Hin; apply in_map_iff; exists b; split;
    [exact Hb | apply Hin].
Qed.

Lemma existsb_filter {A : Type} (f g : A -> bool) (l : list A) :
  (forall a, g a = false -> f a = false) ->
  existsb f (filter g l) = existsb f l.
Proof.
  intros Hfg; induction l as [|a l IH]; cbn [filter existsb]; [reflexivity|].
  destruct (g a) eqn:Hg; cbn [existsb]; [rewrite IH; reflexivity|].
  rewrite (Hfg a Hg); exact IH.
Qed.

Section Hook.
Variable norm : jsstring -> jsstring.

Lemma matchingPersonnel_In (allPersonnel : list Personnel)
    (query : jsstring) (p : Personnel) :
  In p (matchingPersonnel norm allPersonnel query) -> In p allPersonnel.
Proof.
  destruct (isNumericQuery (numericQueryOf norm query)) eqn:Hnum.
  - unfold matchingPersonnel; rewrite Hnum; intros H.
    apply filter_In in H; apply H.
  - rewrite (@matchingPersonnel_text norm _ _ Hnum); intros H.
    apply dedupFrom_In, in_app_or in H; destruct H as [H|H].
    + destruct (exactMatches norm allPersonnel query);
        apply filter_In in H; apply H.
    + destruct (Nat.eqb _ 1); [|destruct H].
      apply filter_In in H; apply H.
Qed.

(** X20. Every hit of the search is a record of the directory, with the
    terms of the query and the score that [computeSearchScore] gives the
    record for the query. *)
Theorem hits_come_from_directory (allPersonnel : list Personnel)
    (query : jsstring) (h : Hit) :
  In h (filteredResults norm allPersonnel query) ->
  In (person h) allPersonnel
  /\ searchTerms h = searchTermsOf norm query
  /\ searchScore h
     = computeSearchScore norm (person h) (normalizedQueryOf norm query)
                          (searchTermsOf norm query).
Proof.
  unfold filteredResults.
  destruct (isEmpty (trim query) || Nat.ltb (length query) 2); [intros []|].
  intros H; apply in_map_iff in H; destruct H as (p & <- & Hp).
  cbn [person searchTerms searchScore]; split; [|split; reflexivity].
  apply (matchingPersonnel_In _ _ _ Hp).
Qed.

(** X21. No two hits share an id, in the name and department search
    always, and in the search by extension when no two records of the
    directory share one. *)
Theorem hits_have_distinct_ids (allPersonnel : list Personnel)
    (query : jsstring) :
  isNumericQuery (numericQueryOf norm query) = false
  \/ NoDup (map id allPersonnel) ->
  NoDup (map (fun h => id (person h))
             (filteredResults norm allPersonnel query)).
Proof.
  intros Hcase; unfold filteredResults.
  destruct (isEmpty (trim query) || Nat.ltb (length query) 2);
    [constructor|].
  rewrite map_map; cbn [person].
  destruct (isNumericQuery (numericQueryOf norm query)) eqn:Hnum.
  - destruct Hcase as [Hcase|Hcase]; [discriminate Hcase|].
    unfold matchingPersonnel; rewrite Hnum.
    apply NoDup_map_filter, Hcase.
  - rewrite (@matchingPersonnel_text norm _ _ Hnum).
    apply (dedupFrom_fresh _ []).
Qed.

(** X22. When no record is an exact match, the name and department search
    returns, de-duplicated by id in first-seen order, the records whose
    [searchableName] contains every term of the query, followed, when the
    query has exactly one term, by the records whose department matches
    the query. *)
Theorem no_exact_match_falls_back (allPersonnel : list Personnel)
    (query : jsstring) :
  isEmpty (trim query) || Nat.ltb (length query) 2 = false ->
  isNumericQuery (numericQueryOf norm query) = false ->
  exactMatches norm allPersonnel query = [] ->
  map person (filteredResults norm allPersonnel query)
  = dedupById
      (fallbackMatches norm allPersonnel query
       ++ (if Nat.eqb (length (searchTermsOf norm query)) 1
           then departmentMatches norm allPersonnel query else [])).
Proof.
  intros Hguard Hnum Hexact.
  rewrite filteredResults_people by exact Hguard.
  rewrite (@matchingPersonnel_text norm _ _ Hnum), Hexact; reflexivity.
Qed.

Lemma word_match_includes (sn term : jsstring) :
  existsb (fun word => startsWith word term || str_eqb word term)
          (split 32 sn) = true ->
  includes sn term = true.
Proof.
  intros H; apply existsb_exists in H; destruct H as (w & Hw & Hmatch).
  apply (includes_trans sn w term); [apply (split_includes _ _ _ Hw)|].
  apply orb_true_iff in Hmatch; destruct Hmatch as [H|H].
  - apply startsWith_includes, H.
  - apply str_eqb_eq in H; subst w.
    apply startsWith_includes, startsWith_app; exists [].
    rewrite app_nil_r; reflexivity.
Qed.

(** X23. An exact match is a fallback match: a record some word of whose
    [searchableName] starts with each term of the query has a
    [searchableName] that contains each term. *)
Theorem exact_match_is_fallback_match (allPersonnel : list Personnel)
    (query : jsstring) (p : Personnel) :
  In p (exactMatches norm allPersonnel query) ->
  In p (fallbackMatches norm allPersonnel query).
Proof.
  unfold exactMatches, fallbackMatches; rewrite !filter_In.
  intros [Hin Hall]; split; [exact Hin|].
  rewrite forallb_forall in *; intros term Hterm.
  apply word_match_includes, Hall, Hterm.
Qed.

Lemma searchTermsOf_nonempty (query term : jsstring) :
  In term (searchTermsOf norm query) -> term <> [].
Proof.
  unfold searchTermsOf; rewrite filter_In; intros [_ H] ->.
  discriminate H.
Qed.

Lemma words_of_score (sn : jsstring) (terms : list jsstring) :
  (forall term, In term terms -> term <> []) ->
  forallb (fun term =>
             existsb (fun word => startsWith word term || str_eqb word term)
                     (filter nonEmpty (split 32 sn))) terms
  = forallb (fun term =>
               existsb (fun word => startsWith word term || str_eqb word term)
                       (split 32 sn)) terms.
Proof.
  intros Hterms; induction terms as [|term terms IH]; cbn [forallb];
    [reflexivity|].
  rewrite IH by (intros t Ht; apply Hterms; right; exact Ht).
  f_equal; apply existsb_filter.
  intros [|c w]; [|discriminate]; intros _.
  destruct term as [|t term]; [|reflexivity].
  exfalso; apply (Hterms []); [left|]; reflexivity.
Qed.

(** X24. The score of a record of the directory is 0, 1, 2 or 3; it is at
    least 2 for an exact match and at least 1 for a fallback match, a
    score of 2 is the score of an exact match, a score of 1 that of a
    fallback match that is no exact match, and a score of 0 that of a
    record that is not even a fallback match. *)
Theorem score_follows_the_tiers (allPersonnel : list Personnel)
    (query : jsstring) (p : Personnel) :
  In p allPersonnel ->
  let score := computeSearchScore norm p (normalizedQueryOf norm query)
                                  (searchTermsOf norm query) in
  (0 <= score <= 3)%Z
  /\ (In p (exactMatches norm allPersonnel query) -> (2 <= score)%Z)
  /\ (In p (fallbackMatches norm allPersonnel query) -> (1 <= score)%Z)
  /\ (score = 2%Z -> In p (exactMatches norm allPersonnel query))
  /\ (score = 1%Z ->
      In p (fallbackMatches norm allPersonnel query)
      /\ ~ In p (exactMatches norm allPersonnel query))
  /\ (score = 0%Z -> ~ In p (fallbackMatches norm allPersonnel query)).
Proof.
  intros Hin; unfold computeSearchScore, exactMatches, fallbackMatches.
  rewrite (words_of_score _ _ (searchTermsOf_nonempty query)).
  rewrite !filter_In.
  destruct (nonEmpty (normalizeApellido norm (name p))
            && str_eqb (normalizedQueryOf norm query)
                       (normalizeApellido norm (name p))).
  - cbv zeta; intuition (try lia; try discriminate).
  - destruct (forallb _ (searchTermsOf norm query)) eqn:Hexact.
    + cbv zeta; intuition (try lia; try discriminate).
    + destruct (forallb (fun term => includes (searchableName p) term)
                        (searchTermsOf norm query)) eqn:Hfall;
        cbv zeta; intuition (try lia; try discriminate).
Qed.

End Hook.

End SearchMoreFacts.

(** ** Grouping the hits *)

Module GroupingFacts.
Import JS Server Search Grouping MoreProps NormalizerFacts.
Import Permutation.

Lemma insert_perm {A : Type} (cmp : A -> A -> Z) (x : A) (l : list A) :
  Permutation (insert cmp x l) (x :: l).
Proof.
  induction l as [|y l IH]; cbn [insert]; [apply Permutation_refl|].
  destruct (Z.leb (cmp x y) 0); [apply Permutation_refl|].
  apply perm_trans with (y :: x :: l); [|apply perm_swap].
  apply perm_skip, IH.
Qed.

Lemma sort_perm {A : Type} (cmp : A -> A -> Z) (l : list A) :
  Permutation (sort cmp l) l.
Proof.
  induction l as [|x l IH]; cbn [sort fold_right]; [apply perm_nil|].
  apply perm_trans with (x :: sort cmp l); [apply insert_perm|].
  apply perm_skip, IH.
Qed.

Lemma insert_sorted {A : Type} (cmp : A -> A -> Z) (R : A -> A -> Prop)
    (x : A) (l : list A) :
  (forall a b, Z.leb (cmp a b) 0 = true -> R a b) ->
  (forall a b, Z.leb (cmp a b) 0 = false -> R b a) ->
  (forall a b c, R a b -> R b c -> R a c) ->
  Sorted.StronglySorted R l -> Sorted.StronglySorted R (insert cmp x l).
Proof.
  intros Hle Hgt Htrans; induction l as [|y l IH]; cbn [insert]; intros Hl.
  - constructor; [constructor | constructor].
  - inversion Hl as [|y' l' Hrest Hall]; subst.
    destruct (Z.leb (cmp x y) 0) eqn:E.
    + constructor; [exact Hl|].
      constructor; [apply Hle, E|].
      apply Forall_forall; intros z Hz.
      apply Htrans with y; [apply Hle, E|].
      rewrite Forall_forall in Hall; apply Hall, Hz.
    + constructor; [apply IH, Hrest|].
      apply Forall_forall; intros z Hz.
      apply (Permutation_in _ (insert_perm cmp x l)) in Hz.
      destruct Hz as [<-|Hz]; [apply Hgt, E|].
      rewrite Forall_forall in Hall; apply Hall, Hz.
Qed.

Lemma sort_sorted {A : Type} (cmp : A -> A -> Z) (R : A -> A -> Prop)
    (l : list A) :
  (forall a b, Z.leb (cmp a b) 0 = true -> R a b) ->
  (forall a b, Z.leb (cmp a b) 0 = false -> R b a) ->
  (forall a b c, R a b -> R b c -> R a c) ->
  Sorted.StronglySorted R (sort cmp l).
Proof.
  intros Hle Hgt Htrans; induction l as [|x l IH]; cbn [sort fold_right];
    [constructor|].
  apply insert_sorted; assumption.
Qed.

Lemma StronglySorted_map {A B : Type} (f : A -> B) (R : B -> B -> Prop)
    (l : list A) :
  Sorted.StronglySorted (fun a b => R (f a) (f b)) l -> Sorted.StronglySorted R (map f l).
Proof.
  induction 1 as [|a l Hl IH Hall]; cbn [map]; constructor; [exact IH|].
  apply Forall_forall; intros b Hb.
  apply in_map_iff in Hb; destruct Hb as (a' & <- & Ha').
  rewrite Forall_forall in Hall; apply Hall, Ha'.
Qed.

Lemma entries_perm (grouped : Grouped) :
  Permutation (entries grouped) grouped.
Proof.
  unfold entries.
  apply perm_trans with (filter isIndexKey grouped
                         ++ filter (fun e => negb (isIndexKey e)) grouped).
  - apply Permutation_app_tail, sort_perm.
  - induction grouped as [|e grouped IH]; cbn [filter]; [apply perm_nil|].
    destruct (isIndexKey e); cbn [negb app].
    + apply perm_skip, IH.
    + apply Permutation_sym, Permutation_cons_app, Permutation_sym, IH.
Qed.

(** *** The object that [forEach] builds *)

Lemma own_none (grouped : Grouped) (key : jsstring) :
  own grouped key = None <-> ~ In key (map fst grouped).
Proof.
  unfold own; induction grouped as [|e grouped IH]; cbn [find map In].
  - split; [intros _ [] | reflexivity].
  - destruct (str_eqb (fst e) key) eqn:E.
    + apply str_eqb_eq in E; split; [discriminate|].
      intros Hn; exfalso; apply Hn; left; exact E.
    + rewrite IH; split.
      * intros Hn [Heq|Hin]; [|apply Hn, Hin].
        rewrite Heq, str_eqb_refl in E; discriminate E.
      * intros Hn Hin; apply Hn; right; exact Hin.
Qed.

Lemma push_absent (key : jsstring) (h : Hit) (grouped : Grouped) :
  ~ In key (map fst grouped) -> push key h grouped = grouped.
Proof.
  unfold push; induction grouped as [|e grouped IH]; cbn [map In];
    [reflexivity|].
  intros Hn; rewrite IH by (intros Hin; apply Hn; right; exact Hin).
  destruct (str_eqb (fst e) key) eqn:E; [|reflexivity].
  apply str_eqb_eq in E; exfalso; apply Hn; left; exact E.
Qed.

Lemma push_keys (key : jsstring) (h : Hit) (grouped : Grouped) :
  map fst (push key h grouped) = map fst grouped.
Proof.
  unfold push; rewrite map_map; apply map_ext; intros e.
  destruct (str_eqb (fst e) key); reflexivity.
Qed.

Lemma hitsOf_snoc (dept : jsstring) (done : list Hit) (h : Hit) :
  hitsOf dept (done ++ [h])
  = hitsOf dept done
    ++ (if str_eqb (Server.department (person h)) dept then [h] else []).
Proof.
  unfold hitsOf; rewrite filter_app; reflexivity.
Qed.

Lemma hitsOf_nil (dept : jsstring) (done : list Hit) :
  (forall h, In h done -> Server.department (person h) <> dept) ->
  hitsOf dept done = [].
Proof.
  unfold hitsOf; induction done as [|h done IH]; cbn [filter];
    [reflexivity|]; intros Hall.
  destruct (str_eqb (Server.department (person h)) dept) eqn:E.
  - apply str_eqb_eq in E; exfalso; apply (Hall h); [left; reflexivity|].
    exact E.
  - apply IH; intros h' Hin; apply Hall; right; exact Hin.
Qed.

Lemma addPerson_built (grouped : Grouped) (done : list Hit) (h : Hit) :
  built grouped done ->
  (existsb (str_eqb (Server.department (person h))) objectPrototypeNames = true ->
   addPerson grouped h = None)
  /\ (existsb (str_eqb (Server.department (person h))) objectPrototypeNames = false ->
      exists grouped', addPerson grouped h = Some grouped'
                       /\ built grouped' (done ++ [h])).
Proof.
  intros (Hnodup & Hentries & Hkeys); unfold addPerson.
  set (key := Server.department (person h)).
  destruct (own grouped key) as [l|] eqn:Hown.
  - assert (Hin : In key (map fst grouped)).
    { destruct (in_dec (list_eq_dec N.eq_dec) key (map fst grouped))
        as [Hin|Hn]; [exact Hin|].
      apply own_none in Hn; rewrite Hn in Hown; discriminate Hown. }
    split.
    + intros Hproto; exfalso.
      apply in_map_iff in Hin; destruct Hin as (e & He & Hin).
      destruct (Hentries e Hin) as (_ & _ & Hn).
      rewrite He, Hproto in Hn; discriminate Hn.
    + intros _; eexists; split; [reflexivity|].
      split; [rewrite push_keys; exact Hnodup|]; split.
      * intros e' He'; unfold push in He'; apply in_map_iff in He'.
        destruct He' as (e & <- & He).
        destruct (Hentries e He) as (Hsnd & Hne & Hn).
        destruct (str_eqb (fst e) key) eqn:E; cbn [fst snd].
        -- rewrite hitsOf_snoc; fold key.
           apply str_eqb_eq in E; rewrite E, str_eqb_refl, <- E, <- Hsnd.
           split; [reflexivity|]; split; [|exact Hn].
           destruct (snd e); discriminate.
        -- rewrite hitsOf_snoc; fold key.
           replace (str_eqb key (fst e)) with false.
           ++ rewrite app_nil_r; split; [exact Hsnd|]; split; assumption.
           ++ symmetry; destruct (str_eqb key (fst e)) eqn:E'; [|reflexivity].
              apply str_eqb_eq in E'; rewrite E', str_eqb_refl in E.
              discriminate E.
      * rewrite push_keys; intros h' Hh'; apply in_app_or in Hh'.
        destruct Hh' as [Hh'|[<-|[]]]; [apply Hkeys, Hh' | exact Hin].
  - pose proof (proj1 (own_none grouped key) Hown) as Hn.
    split; [intros ->; reflexivity|].
    intros Hproto; rewrite Hproto; eexists; split; [reflexivity|].
    unfold push; rewrite map_app; fold (push key h grouped).
    rewrite (@push_absent key h grouped Hn); cbn [map fst snd app].
    rewrite str_eqb_refl.
    split; [|split].
    + rewrite map_app; cbn [map fst].
      apply NoDup_app; [exact Hnodup | constructor; [intros [] | constructor]|].
      intros k Hk [<-|[]]; apply Hn, Hk.
    + intros e He; apply in_app_or in He; destruct He as [He|[<-|[]]].
      * destruct (Hentries e He) as (Hsnd & Hne & Hnp).
        rewrite hitsOf_snoc; fold key.
        replace (str_eqb key (fst e)) with false.
        -- rewrite app_nil_r; split; [exact Hsnd|]; split; assumption.
        -- symmetry; destruct (str_eqb key (fst e)) eqn:E'; [|reflexivity].
           apply str_eqb_eq in E'; exfalso; apply Hn; rewrite E'.
           apply in_map, He.
      * cbn [fst snd]; rewrite hitsOf_snoc; fold key.
        rewrite str_eqb_refl, hitsOf_nil.
        -- split; [reflexivity|]; split; [discriminate | exact Hproto].
        -- intros h' Hh' E; apply Hn; rewrite <- E; apply Hkeys, Hh'.
    + rewrite map_app; cbn [map fst]; intros h' Hh'; apply in_or_app.
      apply in_app_or in Hh'; destruct Hh' as [Hh'|[<-|[]]].
      * left; apply Hkeys, Hh'.
      * right; left; reflexivity.
Qed.

Lemma forEach_built (results : list Hit) : forall grouped done,
  built grouped done ->
  (forEach results grouped = None
   <-> exists h, In h results
                 /\ existsb (str_eqb (Server.department (person h)))
                            objectPrototypeNames = true)
  /\ (forall grouped', forEach results grouped = Some grouped' ->
                       built grouped' (done ++ results)).
Proof.
  induction results as [|h results IH]; intros grouped done Hbuilt;
    cbn [forEach].
  - split.
    + split; [discriminate | intros (h & [] & _)].
    + intros grouped' E; injection E as <-; rewrite app_nil_r; exact Hbuilt.
  - destruct (addPerson_built h Hbuilt) as [Hthrow Hgo].
    destruct (existsb (str_eqb (Server.department (person h))) objectPrototypeNames)
      eqn:Hproto.
    + rewrite (Hthrow eq_refl); split; [|discriminate].
      split; [intros _ | reflexivity].
      exists h; split; [left; reflexivity | exact Hproto].
    + destruct (Hgo eq_refl) as (g1 & -> & Hbuilt1).
      destruct (IH g1 (done ++ [h]) Hbuilt1) as [Hnone Hsome].
      rewrite <- app_assoc in Hsome; cbn [app] in Hsome.
      split; [|exact Hsome].
      rewrite Hnone; split.
      * intros (h' & Hin & Hp); exists h'; split; [right; exact Hin|exact Hp].
      * intros (h' & [<-|Hin] & Hp); [rewrite Hp in Hproto; discriminate|].
        exists h'; split; assumption.
Qed.

Lemma built_nil : built [] [].
Proof.
  split; [constructor|]; split; [intros e [] | intros h []].
Qed.

Section Hook.
Variable localeCompare : jsstring -> jsstring -> Z.

Lemma groups_perm (results : list Hit) (groups : list DepartmentGroup) :
  groupResultsByDepartment localeCompare results = Some groups ->
  exists grouped,
    built grouped results
    /\ Permutation
         groups
         (map (fun e => {| department := fst e;
                           personnel :=
                             sort (comparePersonnel localeCompare) (snd e) |})
              grouped).
Proof.
  unfold groupResultsByDepartment.
  destruct (forEach results []) as [grouped|] eqn:E; [|discriminate].
  intros H; injection H as <-; exists grouped; split.
  - apply (proj2 (forEach_built results built_nil) grouped E).
  - apply perm_trans
      with (map toGroup (map (scoreGroup localeCompare) (entries grouped))).
    + apply Permutation_map, sort_perm.
    + rewrite map_map; unfold toGroup;
        cbn [scoreGroup scoredDepartment sortedPersonnel].
      apply Permutation_map, entries_perm.
Qed.

(** X25. [groupResultsByDepartment] throws exactly when the department of
    some hit is the name of a property of [Object.prototype], such as
    constructor or toString. *)
Theorem grouping_throws_on_inherited_names (results : list Hit) :
  groupResultsByDepartment localeCompare results = None
  <-> exists h, In h results
                /\ In (Server.department (person h)) objectPrototypeNames.
Proof.
  unfold groupResultsByDepartment.
  pose proof (proj1 (forEach_built results built_nil)) as Hnone.
  assert (Hiff : forEach results [] = None
                 <-> exists h, In h results
                               /\ In (Server.department (person h))
                                     objectPrototypeNames).
  { rewrite Hnone; split; intros (h & Hin & Hp); exists h; (split; [exact Hin|]).
    - apply existsb_exists in Hp; destruct Hp as (n & Hn & E).
      apply str_eqb_eq in E; rewrite E; exact Hn.
    - apply existsb_exists; exists (Server.department (person h)); split;
        [exact Hp | apply str_eqb_refl]. }
  rewrite <- Hiff; destruct (forEach results []); split; try discriminate;
    reflexivity.
Qed.

(** X26. The groups that [groupResultsByDepartment] returns split the
    hits by department: no two groups have the same department, no group
    is empty, the hits of a group are exactly the hits of its department,
    in some order, and every hit has the group of its department. *)
Theorem groups_split_the_hits (results : list Hit)
    (groups : list DepartmentGroup) :
  groupResultsByDepartment localeCompare results = Some groups ->
  NoDup (map department groups)
  /\ (forall g, In g groups ->
                personnel g <> []
                /\ Permutation (personnel g) (hitsOf (department g) results))
  /\ (forall h, In h results ->
                In (Server.department (person h)) (map department groups)).
Proof.
  intros Hgroups; destruct (groups_perm _ Hgroups)
    as (grouped & (Hnodup & Hentries & Hkeys) & Hperm).
  assert (Hdepts : Permutation (map department groups) (map fst grouped)).
  { apply perm_trans with (1 := Permutation_map department Hperm).
    rewrite map_map; apply Permutation_refl. }
  split; [|split].
  - apply (Permutation_NoDup (Permutation_sym Hdepts) Hnodup).
  - intros g Hg; apply (Permutation_in _ Hperm) in Hg.
    apply in_map_iff in Hg; destruct Hg as (e & <- & He).
    cbn [department personnel].
    destruct (Hentries e He) as (Hsnd & Hne & _).
    pose proof (sort_perm (comparePersonnel localeCompare) (snd e)) as Hs.
    split.
    + intros Hnil; rewrite Hnil in Hs; apply Permutation_nil in Hs.
      apply Hne, Hs.
    + rewrite <- Hsnd; exact Hs.
  - intros h Hh.
    apply (Permutation_in _ (Permutation_sym Hdepts)), Hkeys, Hh.
Qed.

Lemma comparePersonnel_le (a b : Hit) :
  Z.leb (comparePersonnel localeCompare a b) 0 = true -> scoresAbove a b.
Proof.
  unfold comparePersonnel, scoresAbove.
  destruct (Z.eqb (searchScore b - searchScore a) 0) eqn:E; cbn [negb].
  - apply Z.eqb_eq in E; lia.
  - intros H; apply Z.leb_le in H; lia.
Qed.

Lemma comparePersonnel_gt (a b : Hit) :
  Z.leb (comparePersonnel localeCompare a b) 0 = false -> scoresAbove b a.
Proof.
  unfold comparePersonnel, scoresAbove.
  destruct (Z.eqb (searchScore b - searchScore a) 0) eqn:E; cbn [negb].
  - apply Z.eqb_eq in E; lia.
  - intros H; apply Z.leb_gt in H; lia.
Qed.

Lemma personnel_sorted (l : list Hit) :
  Sorted.StronglySorted scoresAbove (sort (comparePersonnel localeCompare) l).
Proof.
  apply sort_sorted;
    [apply comparePersonnel_le | apply comparePersonnel_gt|].
  unfold scoresAbove; intros a b c; lia.
Qed.

Lemma groups_sorted (scored : list ScoredGroup) :
  Sorted.StronglySorted (fun a b => (maxScore b <= maxScore a)%Z)
                 (sort (compareGroups localeCompare) scored).
Proof.
  apply sort_sorted.
  - intros a b; unfold compareGroups.
    destruct (Z.eqb (maxScore b - maxScore a) 0) eqn:E; cbn [negb].
    + apply Z.eqb_eq in E; lia.
    + intros H; apply Z.leb_le in H; lia.
  - intros a b; unfold compareGroups.
    destruct (Z.eqb (maxScore b - maxScore a) 0) eqn:E; cbn [negb].
    + apply Z.eqb_eq in E; lia.
    + intros H; apply Z.leb_gt in H; lia.
  - intros a b c; lia.
Qed.

Lemma groups_sorted_by_best (results : list Hit)
    (groups : list DepartmentGroup) :
  groupResultsByDepartment localeCompare results = Some groups ->
  (forall g, In g groups -> Sorted.StronglySorted scoresAbove (personnel g))
  /\ Sorted.StronglySorted (fun a b => (best b <= best a)%Z) groups.
Proof.
  intros Hgroups; split.
  - destruct (groups_perm _ Hgroups) as (grouped & _ & Hperm).
    intros g Hg; apply (Permutation_in _ Hperm) in Hg.
    apply in_map_iff in Hg; destruct Hg as (e & <- & _).
    apply personnel_sorted.
  - unfold groupResultsByDepartment in Hgroups.
    destruct (forEach results []) as [grouped|]; [|discriminate].
    injection Hgroups as <-.
    apply StronglySorted_map.
    assert (Hbest : forall s,
               In s (map (scoreGroup localeCompare) (entries grouped)) ->
               best (toGroup s) = maxScore s).
    { intros s Hs; apply in_map_iff in Hs; destruct Hs as (e & <- & _).
      reflexivity. }
    pose proof (groups_sorted (map (scoreGroup localeCompare)
                                   (entries grouped))) as Hsorted.
    pose proof (sort_perm (compareGroups localeCompare)
                          (map (scoreGroup localeCompare) (entries grouped)))
      as Hperm.
    revert Hsorted Hperm Hbest.
    generalize (map (scoreGroup localeCompare) (entries grouped)) as scored.
    generalize (sort (compareGroups localeCompare)) as sorter.
    intros sorter scored Hsorted Hperm Hbest.
    assert (Hall : forall s, In s (sorter scored) ->
                             best (toGroup s) = maxScore s)
      by (intros s Hs; apply Hbest, (Permutation_in _ Hperm), Hs).
    clear Hperm Hbest; induction Hsorted as [|a l Hl IH Hfa];
      constructor.
    + apply IH; intros s Hs; apply Hall; right; exact Hs.
    + apply Forall_forall; intros b Hb.
      rewrite Forall_forall in Hfa.
      rewrite (Hall a (or_introl eq_refl)), (Hall b (or_intror Hb)).
      apply Hfa, Hb.
Qed.

(** X27. In the result of [groupResultsByDepartment] the hits of every
    group are in descending order of score, and the groups are in
    descending order of the score of their first hit. *)
Theorem groups_in_score_order (results : list Hit)
    (groups : list DepartmentGroup) :
  groupResultsByDepartment localeCompare results = Some groups ->
  (forall g, In g groups -> Sorted.StronglySorted scoresAbove (personnel g))
  /\ Sorted.StronglySorted (fun a b => (best b <= best a)%Z) groups.
Proof.
  apply groups_sorted_by_best.
Qed.

(** X28. The first hit of the first group has the best score of all the
    hits. *)
Theorem first_hit_has_best_score (results : list Hit)
    (g : DepartmentGroup) (groups : list DepartmentGroup)
    (first : Hit) (others : list Hit) (h : Hit) :
  groupResultsByDepartment localeCompare results = Some (g :: groups) ->
  personnel g = first :: others ->
  In h results ->
  (searchScore h <= searchScore first)%Z.
Proof.
  intros Hgroups Hfirst Hh.
  destruct (groups_perm _ Hgroups)
    as (grouped & (Hnodup & Hentries & Hkeys) & Hperm).
  assert (Hin : exists g', In g' (g :: groups)
                           /\ In h (personnel g')
                           /\ Sorted.StronglySorted scoresAbove (personnel g')).
  { specialize (Hkeys h Hh); apply in_map_iff in Hkeys.
    destruct Hkeys as (e & He & Hin).
    exists {| department := fst e;
              personnel := sort (comparePersonnel localeCompare) (snd e) |}.
    split; [|split; [|apply personnel_sorted]].
    - apply (Permutation_in _ (Permutation_sym Hperm)).
      apply in_map_iff; exists e; split; [reflexivity | exact Hin].
    - cbn [personnel].
      apply (Permutation_in _ (Permutation_sym (sort_perm _ _))).
      rewrite (proj1 (Hentries e Hin)); unfold hitsOf; apply filter_In.
      split; [exact Hh | rewrite He; apply str_eqb_refl]. }
  destruct Hin as (g' & Hg' & Hhg' & Hsorted).
  assert (Hbest : (searchScore h <= best g')%Z).
  { unfold best; destruct (personnel g') as [|top rest]; [destruct Hhg'|].
    destruct Hhg' as [<-|Hrest]; [lia|].
    inversion Hsorted as [|x l _ Hall]; subst.
    rewrite Forall_forall in Hall; apply (Hall h Hrest). }
  assert (Hg : (best g' <= best g)%Z).
  { pose proof (proj2 (groups_sorted_by_best _ Hgroups)) as Hs.
    destruct Hg' as [<-|Hg']; [lia|].
    inversion Hs as [|x l _ Hall]; subst.
    rewrite Forall_forall in Hall; apply (Hall g' Hg'). }
  unfold best in Hg at 2; rewrite Hfirst in Hg; lia.
Qed.

End Hook.

End GroupingFacts.

(** ** The messages of a failed load *)

Module LoadErrorsFacts.
Import JS LoadErrors NormalizerFacts StringFacts.

Lemma includes_tail (s a b : jsstring) :
  includes s (a ++ b) = true -> includes s b = true.
Proof.
  rewrite !includes_app; intros (pre & post & ->).
  exists (pre ++ a), post; rewrite <- !app_assoc; reflexivity.
Qed.

Section Hook.
Context {P : Platform}.

(** X29. A failed load is marked retryable exactly when the error is an
    [Error] whose message, in lower case, names the network (network,
    fetch or connection) and names neither a missing file (http 404, not
    found) nor an unavailable one; the text shown is then the connection
    message.  The text shown is always one of five fixed texts, or the
    message of the error itself when that is made of the letters, marks
    and blanks of the last rule. *)
Theorem retry_only_for_network_errors (error : option jsstring) :
  (isRetryable (transformErrorMessage error) = true
   <-> exists errorMessage,
         error = Some errorMessage
         /\ existsb (includes (toLowerCase errorMessage))
                    [lit "network"; lit "fetch"; lit "connection"] = true
         /\ existsb (includes (toLowerCase errorMessage))
                    [lit "http 404"; lit "not found"; noEstaDisponible]
            = false)
  /\ (isRetryable (transformErrorMessage error) = true ->
      message (transformErrorMessage error) = connectionMessage)
  /\ (In (message (transformErrorMessage error))
         [notFoundMessage; loadMessage; connectionMessage; processMessage;
          emptyMessage]
      \/ exists errorMessage,
           error = Some errorMessage
           /\ isFriendly errorMessage = true
           /\ message (transformErrorMessage error) = errorMessage).
Proof.
  destruct error as [m|]; cbn [transformErrorMessage].
  2:{ cbn [isRetryable message]; split; [|split].
      - split; [discriminate | intros (x & E & _); discriminate E].
      - discriminate.
      - left; right; left; reflexivity. }
  cbv zeta.
  assert (Htail : includes (toLowerCase m) archivoNoEstaDisponible = true ->
                  includes (toLowerCase m) noEstaDisponible = true)
    by (apply (includes_tail _ (lit "archivo del directorio ")
                             noEstaDisponible)).
  assert (Hsame : forall Q : jsstring -> Prop,
             (exists x, Some m = Some x /\ Q x) <-> Q m).
  { intros Q; split; [intros (x & E & H); injection E as <-; exact H|].
    intros H; exists m; split; [reflexivity | exact H]. }
  rewrite Hsame; cbn [existsb]; rewrite !orb_false_r.
  destruct (includes (toLowerCase m) (lit "http 404")) eqn:H404;
    [ cbn [orb isRetryable message]; split; [|split];
      [ split; [discriminate | intros [_ H]; discriminate H]
      | discriminate
      | left; left; reflexivity ] |].
  destruct (includes (toLowerCase m) (lit "not found")) eqn:Hnf;
    [ cbn [orb isRetryable message]; split; [|split];
      [ split; [discriminate | intros [_ H]; discriminate H]
      | discriminate
      | left; left; reflexivity ] |].
  destruct (includes (toLowerCase m) noEstaDisponible) eqn:Hned;
    [ cbn [orb isRetryable message]; split; [|split];
      [ split; [discriminate | intros [_ H]; discriminate H]
      | discriminate
      | left; right; left; reflexivity ] |].
  destruct (includes (toLowerCase m) archivoNoEstaDisponible) eqn:Hand;
    [specialize (Htail eq_refl); discriminate Htail|].
  cbn [orb]; rewrite <- orb_assoc.
  destruct (includes (toLowerCase m) (lit "network")
            || (includes (toLowerCase m) (lit "fetch")
                || includes (toLowerCase m) (lit "connection"))) eqn:Hnet.
  - cbn [isRetryable message]; split; [|split].
    + split; [intros _; split; reflexivity | reflexivity].
    + reflexivity.
    + left; right; right; left; reflexivity.
  - repeat match goal with
           | |- context [if ?b then _ else _] => destruct b eqn:?
           end;
      cbn [isRetryable message];
      (split; [|split];
       [ split; [discriminate | intros [H _]; discriminate H]
       | discriminate
       | ]).
    all: try (left; cbn [In]; tauto).
    right; exists m; split; [reflexivity|]; split; [|reflexivity].
    assumption.
Qed.

End Hook.

Lemma below_1000 (f : N -> bool) :
  forallb f (map N.of_nat (seq 0 1000)) = true ->
  forall n, (n < 1000)%N -> f n = true.
Proof.
  intros Hall n Hn; rewrite forallb_forall in Hall; apply Hall.
  apply in_map_iff; exists (N.to_nat n); split; [apply N2Nat.id|].
  apply in_seq; lia.
Qed.

Lemma outcome_eq (o : Outcome) (text : jsstring) (retry : bool) :
  str_eqb (message o) text && Bool.eqb (isRetryable o) retry = true ->
  o = {| message := text; isRetryable := retry |}.
Proof.
  destruct o as [m r]; cbn [message isRetryable]; intros H.
  apply andb_true_iff in H; destruct H as [Hm Hr].
  apply str_eqb_eq in Hm; apply Bool.eqb_prop in Hr; subst; reflexivity.
Qed.

Import Latin1.

(** X30. What the user sees for the failures that [loadData] raises
    itself, on Latin-1 text: none is offered for retry; a status 404
    gives the missing-file text and any other status below 1000 the
    message of the error as it is; an answer in HTML gives the load text;
    an empty file, a workbook without sheets and a sheet without data give
    the processing text, the empty file never the text for an empty
    directory. *)
Theorem loader_failures_are_final :
  (forall status,
      (status < 1000)%N ->
      transformErrorMessage (Some (messageOf (HttpStatus status)))
      = {| message := if N.eqb status 404 then notFoundMessage
                      else messageOf (HttpStatus status);
           isRetryable := false |})
  /\ transformErrorMessage (Some (messageOf HtmlContentType))
     = {| message := loadMessage; isRetryable := false |}
  /\ transformErrorMessage (Some (messageOf HtmlBody))
     = {| message := loadMessage; isRetryable := false |}
  /\ transformErrorMessage (Some (messageOf EmptyFile))
     = {| message := processMessage; isRetryable := false |}
  /\ transformErrorMessage (Some (messageOf NoSheets))
     = {| message := processMessage; isRetryable := false |}
  /\ transformErrorMessage (Some (messageOf NoData))
     = {| message := processMessage; isRetryable := false |}
  /\ processMessage <> emptyMessage.
Proof.
  split; [|vm_compute; repeat split; discriminate].
  intros status Hstatus; apply outcome_eq; revert status Hstatus.
  apply (below_1000
           (fun status =>
              str_eqb (message (transformErrorMessage
                                  (Some (messageOf (HttpStatus status)))))
                      (if N.eqb status 404 then notFoundMessage
                       else messageOf (HttpStatus status))
              && Bool.eqb (isRetryable
                             (transformErrorMessage
                                (Some (messageOf (HttpStatus status)))))
                          false)).
  vm_compute; reflexivity.
Qed.

End LoadErrorsFacts.

(** ** The theorems at the samples *)

Module ParserExamples.
Import JS Server Props MoreProps Samples MoreSamples Latin1.
Import NormalizerFacts HelperFacts ParserMoreFacts.

(** The pieces of a name cell with two people. *)
Lemma splitNames_on_sample :
  lit "Perez, Juan" <> []
  /\ noBlankEnds (lit "Perez, Juan")
  /\ forallb (fun c => negb (isCut c)) (lit "Perez, Juan") = true.
Proof.
  apply (splitNames_pieces (lit "Perez, Juan / Gomez, Ana")).
  vm_compute; left; reflexivity.
Defined.

(** A miss on the cache of 1001 entries drops the entry of the text 0. *)
Lemma eviction_on_sample :
  snd (cachedNormalizeText (lit "x") (cacheAfter manyTexts))
  = tl (cacheAfter manyTexts) ++ [(lit "x", normalizeText (lit "x"))].
Proof.
  pose proof (@cachedNormalizeText_fifo platform manyTexts (lit "x")) as E.
  assert (Hfull : Nat.ltb 1000 (length (cacheAfter manyTexts)) = true)
    by (vm_compute; reflexivity).
  rewrite Hfull in E.
  assert (Hmiss : cache_get (cacheAfter manyTexts) (lit "x") = None)
    by (vm_compute; reflexivity).
  exact (E Hmiss).
Defined.

(** The header of the sample sheet is its row 3. *)
Lemma header_bounds_on_sample :
  fst (run (detectHeaderMapping sheetWithHeader) []) = defaultMapping
  \/ exists (h : nat) (row : Row),
       (h < 20)%nat
       /\ nth_error sheetWithHeader h = Some row
       /\ headerRowIndex (fst (run (detectHeaderMapping sheetWithHeader) []))
          = Z.of_nat h
       /\ (let cm :=
             columnMap (fst (run (detectHeaderMapping sheetWithHeader) []))
           in
           (0 <= nameIndex cm < Z.of_nat (length row))%Z
           /\ (-1 <= extensionIndex cm < Z.of_nat (length row))%Z
           /\ (-1 <= departmentIndex cm < Z.of_nat (length row))%Z
           /\ (-1 <= titleIndex cm < Z.of_nat (length row))%Z
           /\ (0 <= extensionIndex cm \/ 0 <= departmentIndex cm)%Z).
Proof.
  apply (@detectHeaderMapping_bounds platform sheetWithHeader []).
  constructor.
Defined.

(** The ids of the two records of the sample sheet. *)
Lemma ids_on_sample :
  map id (fst (run (processExcelData sheetWithoutHeader) []))
  = idsFrom 1 (length (fst (run (processExcelData sheetWithoutHeader) [])))
  /\ NoDup (map id (fst (run (processExcelData sheetWithoutHeader) []))).
Proof.
  apply (@parsed_ids_sequential platform sheetWithoutHeader []).
  constructor.
Defined.

(** The record of the sample sheet without extension comes from its
    row. *)
Lemma record_row_on_sample :
  exists (i : nat) (row : Row),
    (dataStartIndex (fst (run (detectHeaderMapping sheetWithoutExtension) []))
     <= i)%nat
    /\ nth_error sheetWithoutExtension i = Some row
    /\ forallb isBlankCell row = false
    /\ qualifies row = false
    /\ fromRow (columnMap
                  (fst (run (detectHeaderMapping sheetWithoutExtension) [])))
               row juanWithoutExtension.
Proof.
  apply (@parsed_records_come_from_rows platform sheetWithoutExtension []
           juanWithoutExtension).
  - constructor.
  - vm_compute; left; reflexivity.
Defined.

(** The three rows above the header of the sample sheet. *)
Lemma rows_above_header_on_sample :
  fst (run (processExcelData sheetWithHeader) [])
  = fst (run (processExcelData
                (skipn (Z.to_nat
                          (headerRowIndex
                             (fst (run (detectHeaderMapping sheetWithHeader)
                                       []))))
                       sheetWithHeader))
             []).
Proof.
  apply (@rows_above_header_are_ignored platform sheetWithHeader []).
  - constructor.
  - vm_compute; discriminate.
Defined.

(** The invariant at the record of the sample sheet without extension:
    the raw extension string of its row is empty, [extension] is N/A and
    [searchableExtension] is the lowercase raw string, which is empty. *)
Lemma invariant_on_sample :
  searchableName juanWithoutExtension
  = normalizeText (name juanWithoutExtension)
  /\ (exists (i : nat) (row : Row),
         nth_error sheetWithoutExtension i = Some row
         /\ let raw :=
              rowExtensionValue
                (columnMap
                   (fst (run (detectHeaderMapping sheetWithoutExtension) [])))
                row in
            extension juanWithoutExtension
            = (if isEmpty raw then lit "N/A" else raw)
            /\ (hasDigit (extension juanWithoutExtension) = true ->
                extension juanWithoutExtension = raw)
            /\ searchableExtension juanWithoutExtension
               = (if hasDigit (extension juanWithoutExtension)
                  then filter isDigit raw
                  else toLowerCase raw))
  /\ (forallb isDigit (searchableExtension juanWithoutExtension) = true ->
      forallb (fun c => isDigit c || inRange 97 122 c)
              (searchableExtension juanWithoutExtension) = true).
Proof.
  apply (@parsed_records_invariant platform sheetWithoutExtension []
           juanWithoutExtension).
  - constructor.
  - vm_compute; left; reflexivity.
Defined.

(** The fields of the record of the sample sheet without extension. *)
Lemma display_fields_on_sample :
  name juanWithoutExtension <> []
  /\ noBlankEnds (name juanWithoutExtension)
  /\ department juanWithoutExtension <> []
  /\ extension juanWithoutExtension <> [].
Proof.
  apply (@parsed_records_display_fields platform sheetWithoutExtension []
           juanWithoutExtension).
  - constructor.
  - vm_compute; left; reflexivity.
Defined.

End ParserExamples.

Module CacheExamples.
Import JS Server Props MoreProps Samples MoreSamples Latin1.
Import NormalizerFacts CacheMoreFacts.

Ltac known w E :=
  vm_compute in E; injection E as E; subst w.

(** The list of the first reload stays when the second one fails. *)
Lemma cached_payload_on_sample :
  exists w w' p',
    exec initialWorld firstReload = Some w
    /\ exec w failingReload = Some w'
    /\ payload (internosCache w') = Some p'
    /\ apiInternos (internosCache w') = Json p'.
Proof.
  destruct (exec initialWorld firstReload) as [w|] eqn:E;
    [|vm_compute in E; discriminate E].
  destruct (exec w failingReload) as [w'|] eqn:E';
    [|exfalso; known w E; vm_compute in E'; discriminate E'].
  destruct (payload (internosCache w)) as [p|] eqn:Hp;
    [|exfalso; known w E; vm_compute in Hp; discriminate Hp].
  destruct (@cached_payload_is_kept platform failingReload w w' p E' Hp)
    as (p' & H1 & H2).
  exists w, w', p'; repeat split; assumption.
Defined.

(** What the endpoint serves after two prompt reloads. *)
Lemma served_parse_on_sample :
  exists w p l rows,
    exec initialWorld promptStats = Some w
    /\ apiInternos (internosCache w) = Json p
    /\ In (DecodeSettles l (inr rows)) promptStats
    /\ clampRows rows <> []
    /\ personnel p = value (processExcelData (clampRows rows)).
Proof.
  destruct (exec initialWorld promptStats) as [w|] eqn:E;
    [|vm_compute in E; discriminate E].
  destruct (apiInternos (internosCache w)) as [p|code text] eqn:Ha;
    [|exfalso; known w E; vm_compute in Ha; discriminate Ha].
  destruct (@endpoint_serves_a_parse platform promptStats w p E Ha)
    as (l & rows & H0 & H1 & H2).
  exists w, p, l, rows; repeat split; assumption.
Defined.

(** The error recorded after the failed reload. *)
Lemma last_error_on_sample :
  exists w,
    exec initialWorld (firstReload ++ failingReload) = Some w
    /\ (forall e, lastError (internosCache w) = Some e ->
                  exists l, nth_error (loads w) l = Some (Settled (inl e)))
    /\ (forall i force error w',
           nth_error (invocations w) i = Some (AwaitStat force) ->
           step w (StatSettles i (inl error)) = Some w' ->
           internosCache w' = internosCache w
           /\ loads w' = loads w
           /\ invocations w'
              = replace i (Done (inl error)) (invocations w)).
Proof.
  destruct (exec initialWorld (firstReload ++ failingReload)) as [w|] eqn:E;
    [|vm_compute in E; discriminate E].
  exists w; split; [reflexivity|].
  apply (@last_error_is_a_load_failure platform
           (firstReload ++ failingReload) w E).
Defined.

(** The records the endpoint serves after two prompt reloads. *)
Lemma served_records_on_sample :
  exists w p,
    exec initialWorld promptStats = Some w
    /\ apiInternos (internosCache w) = Json p
    /\ Forall recordInvariant (personnel p)
    /\ map id (personnel p) = idsFrom 1 (length (personnel p)).
Proof.
  destruct (exec initialWorld promptStats) as [w|] eqn:E;
    [|vm_compute in E; discriminate E].
  destruct (apiInternos (internosCache w)) as [p|code text] eqn:Ha;
    [|exfalso; known w E; vm_compute in Ha; discriminate Ha].
  destruct (@endpoint_serves_sound_records platform Latin1Facts.latin1_laws
              promptStats w p E Ha) as [H1 H2].
  exists w, p; repeat split; assumption.
Defined.

End CacheExamples.

Module DeudoresExamples.
Import JS Server MoreProps DeudoresFacts.

(** A passcode written with a blank before it. *)
Lemma blank_passcode_on_sample :
  requirePasscode (lit " 1234") (Some (lit " 1234"))
  = (false, Some (Status 401 (lit "Clave incorrecta"))).
Proof.
  apply (@requirePasscode_blank_passcode (lit " 1234")
           (Some (lit " 1234"))).
  right; intros [H _]; vm_compute in H; discriminate H.
Defined.

End DeudoresExamples.

Module SearchExamples.
Import JS Server Props Search Samples MoreSamples Latin1.
Import NormalizerFacts SearchMoreFacts.

(** Luis among the hits of perez. *)
Lemma hit_on_sample :
  In (person (hit luis 0)) directory
  /\ searchTerms (hit luis 0) = searchTermsOf normalizeText (lit "perez")
  /\ searchScore (hit luis 0)
     = computeSearchScore normalizeText (person (hit luis 0))
                          (normalizedQueryOf normalizeText (lit "perez"))
                          (searchTermsOf normalizeText (lit "perez")).
Proof.
  apply (@hits_come_from_directory normalizeText directory (lit "perez")
           (hit luis 0)).
  vm_compute; right; right; left; reflexivity.
Defined.

(** The ids of the hits of perez. *)
Lemma distinct_ids_on_sample :
  NoDup (map (fun h => id (person h))
             (filteredResults normalizeText directory (lit "perez"))).
Proof.
  apply (@hits_have_distinct_ids normalizeText directory (lit "perez")).
  left; vm_compute; reflexivity.
Defined.

(** No word starts with ere: Juan is found by the part of his name and
    Luis by his department. *)
Lemma fallback_on_sample :
  map person (filteredResults normalizeText directory (lit "ere"))
  = dedupById
      (fallbackMatches normalizeText directory (lit "ere")
       ++ (if Nat.eqb (length (searchTermsOf normalizeText (lit "ere"))) 1
           then departmentMatches normalizeText directory (lit "ere")
           else [])).
Proof.
  apply (@no_exact_match_falls_back normalizeText directory (lit "ere"));
    vm_compute; reflexivity.
Defined.

(** Juan, the exact match of perez. *)
Lemma exact_match_on_sample :
  In (juan (lit "Ventas"))
     (fallbackMatches normalizeText directory (lit "perez")).
Proof.
  apply (@exact_match_is_fallback_match normalizeText directory (lit "perez")
           (juan (lit "Ventas"))).
  vm_compute; left; reflexivity.
Defined.

(** The score of Juan for perez. *)
Lemma score_on_sample :
  let score :=
    computeSearchScore normalizeText (juan (lit "Ventas"))
                       (normalizedQueryOf normalizeText (lit "perez"))
                       (searchTermsOf normalizeText (lit "perez")) in
  (0 <= score <= 3)%Z
  /\ (In (juan (lit "Ventas"))
         (exactMatches normalizeText directory (lit "perez")) ->
      (2 <= score)%Z)
  /\ (In (juan (lit "Ventas"))
         (fallbackMatches normalizeText directory (lit "perez")) ->
      (1 <= score)%Z)
  /\ (score = 2%Z ->
      In (juan (lit "Ventas"))
         (exactMatches normalizeText directory (lit "perez")))
  /\ (score = 1%Z ->
      In (juan (lit "Ventas"))
         (fallbackMatches normalizeText directory (lit "perez"))
      /\ ~ In (juan (lit "Ventas"))
              (exactMatches normalizeText directory (lit "perez")))
  /\ (score = 0%Z ->
      ~ In (juan (lit "Ventas"))
           (fallbackMatches normalizeText directory (lit "perez"))).
Proof.
  apply (@score_follows_the_tiers normalizeText directory (lit "perez")
           (juan (lit "Ventas"))).
  left; reflexivity.
Defined.

End SearchExamples.

Module GroupingExamples.
Import JS Search Grouping MoreProps Samples MoreSamples.
Import GroupingFacts.

(** The groups of the hits of perez. *)
Lemma groups_on_sample :
  exists groups,
    groupResultsByDepartment compareUnits sampleHits = Some groups
    /\ NoDup (map department groups)
    /\ (forall g, In g groups ->
                  personnel g <> []
                  /\ Permutation.Permutation
                       (personnel g) (hitsOf (department g) sampleHits))
    /\ (forall h, In h sampleHits ->
                  In (Server.department (person h))
                     (map department groups)).
Proof.
  destruct (groupResultsByDepartment compareUnits sampleHits)
    as [groups|] eqn:E; [|vm_compute in E; discriminate E].
  exists groups; split; [reflexivity|].
  apply (@groups_split_the_hits compareUnits sampleHits groups E).
Defined.

(** The order of the groups of the hits of perez. *)
Lemma group_order_on_sample :
  exists groups,
    groupResultsByDepartment compareUnits sampleHits = Some groups
    /\ (forall g, In g groups ->
                  Sorted.StronglySorted scoresAbove (personnel g))
    /\ Sorted.StronglySorted (fun a b => (best b <= best a)%Z) groups.
Proof.
  destruct (groupResultsByDepartment compareUnits sampleHits)
    as [groups|] eqn:E; [|vm_compute in E; discriminate E].
  exists groups; split; [reflexivity|].
  apply (@groups_in_score_order compareUnits sampleHits groups E).
Defined.

(** Juan, with score 2, comes first; Luis has score 0. *)
Lemma first_hit_on_sample :
  groupResultsByDepartment compareUnits sampleHits
  = Some [ {| department := lit "Ventas";
              personnel := [hit (juan (lit "Ventas")) 2;
                            hit (ana (lit "Ventas")) 0] |};
           {| department := lit "Perez Hnos"; personnel := [hit luis 0] |} ]
  /\ (searchScore (hit luis 0)
      <= searchScore (hit (juan (lit "Ventas")) 2))%Z.
Proof.
  split; [vm_compute; reflexivity|].
  apply (@first_hit_has_best_score compareUnits sampleHits
           {| department := lit "Ventas";
              personnel := [hit (juan (lit "Ventas")) 2;
                            hit (ana (lit "Ventas")) 0] |}
           [ {| department := lit "Perez Hnos";
                personnel := [hit luis 0] |} ]
           (hit (juan (lit "Ventas")) 2)
           [hit (ana (lit "Ventas")) 0]
           (hit luis 0)).
  - vm_compute; reflexivity.
  - reflexivity.
  - right; right; left; reflexivity.
Defined.

End GroupingExamples.
